(** * drip.timedelta.parse: a shallow embedding and its properties

    The module [drip/timedelta.py] has one function, [parse], which turns a
    string into a [datetime.timedelta].  It refuses the empty string, tries
    two regular expressions in order with [re.match], reads the named groups
    with [groupdict(0)], distributes the sign of the first pattern over the
    clock fields, converts every value with [float] and passes the fields to
    [datetime.timedelta] as keyword arguments.

    [parse] is embedded as it is written; what it calls from the Python
    library is modelled as follows.
    - A string is a [string] at the interface and a [list ascii] inside the
      matcher.  [\d] is [0-9] and [\W] is the complement of [A-Za-z0-9_],
      the classes of an ASCII text.
    - [re.match] is a backtracking matcher.  [run] lists all the ways a
      pattern can match in the order in which the engine tries them (the left
      branch of an alternative first, an optional part before its omission,
      the longest repetition first); [re.match] finds the first.  Repetition
      occurs in the two patterns over [\d] and [\W] only.  Groups without a
      name only group; [$] matches at the end and before a final newline.
    - An exception is an [exn]; the message is kept for [TypeError], whose
      message is what tells the error of [parse] from others.
    - [float] gives the binary64 number nearest to a decimal numeral, ties
      to even, and an infinity beyond the range.  A binary64 number is kept
      as the rational it stands for; the arithmetic of binary64 is the exact
      one followed by the same rounding.
    - [datetime.timedelta] is the constructor of CPython.  Each keyword
      argument is added in microseconds: its integral part exactly, its
      fraction in binary64.  What the fractions leave below a microsecond is
      summed in binary64 and rounded to the nearest microsecond, ties to even.
      An infinity and more than 999999999 days raise [OverflowError]. *)

From Stdlib Require Import ZArith QArith Qcanon Ascii String List Lia.
From stdpp Require Import base option strings gmap list.

Local Open Scope Z_scope.

(** ** Exceptions and results *)

Inductive exn :=
| TypeError (msg : string)
| ValueError
| KeyError
| OverflowError.

Inductive result (A : Type) :=
| Ok (a : A)
| Raise (e : exn).
Arguments Ok {A} a.
Arguments Raise {A} e.

Definition bind {A B} (x : result A) (f : A → result B) : result B :=
  match x with
  | Ok a => f a
  | Raise e => Raise e
  end.

Notation "x ←! e1 ; e2" := (bind e1 (λ x, e2))
  (at level 100, e1 at next level, right associativity).

(** ** Characters *)

Definition chars := list ascii.

Definition code (c : ascii) : N := N_of_ascii c.

Definition between (lo hi c : ascii) : bool :=
  ((code lo <=? code c) && (code c <=? code hi))%N.

Definition is_digit (c : ascii) : bool := between "0" "9" c.

Definition is_word (c : ascii) : bool :=
  between "a" "z" c || between "A" "Z" c || is_digit c
  || bool_decide (c = "_"%char).

(** The newline character, which [$] tolerates at the very end. *)
Definition newline : ascii := ascii_of_N 10.

(** Character classes that occur under a repetition in the two patterns. *)
Inductive cclass :=
| Digit      (* \d *)
| NonWord.   (* \W *)

Definition in_class (k : cclass) (c : ascii) : bool :=
  match k with
  | Digit => is_digit c
  | NonWord => negb (is_word c)
  end.

(** ** Patterns *)

Inductive regex :=
| Eps
| Bol                                 (* ^ *)
| Eol                                 (* $ *)
| Chr (c : ascii)                     (* a literal character *)
| OneOf (cs : list ascii)             (* [...] *)
| Cat (r1 r2 : regex)
| Alt (r1 r2 : regex)                 (* r1|r2 *)
| Opt (r : regex)                     (* (r)? , greedy *)
| Star (k : cclass)                   (* k* , greedy *)
| Plus (k : cclass)                   (* k+ , greedy *)
| Named (name : string) (r : regex).  (* (?P<name>r) *)

Declare Scope regex_scope.
Delimit Scope regex_scope with re.
Bind Scope regex_scope with regex.
Infix "⋅" := Cat (at level 41, right associativity) : regex_scope.

(** A literal word is the concatenation of its characters. *)
Fixpoint Lit (w : string) : regex :=
  match w with
  | EmptyString => Eps
  | String c EmptyString => Chr c
  | String c w' => Cat (Chr c) (Lit w')
  end.

(** ** The matcher *)

(** A capture is the start index of the group and the text it matched. *)
Abbreviation caps := (gmap string (nat * chars)).

Record mstate := MState { pos : nat; rest : chars; marks : caps }.

(** All the ways [k*] can consume a prefix, longest first. *)
Fixpoint run_star (k : cclass) (p : nat) (s : chars) (m : caps) : list mstate :=
  match s with
  | c :: s' =>
      if in_class k c then run_star k (S p) s' m ++ [MState p s m]
      else [MState p s m]
  | [] => [MState p [] m]
  end.

Definition run_chr (ok : ascii → bool) (st : mstate) : list mstate :=
  match rest st with
  | c :: s' => if ok c then [MState (S (pos st)) s' (marks st)] else []
  | [] => []
  end.

Definition at_end (s : chars) : bool :=
  match s with
  | [] => true
  | [c] => bool_decide (c = newline)
  | _ => false
  end.

Definition capture (name : string) (st st' : mstate) : mstate :=
  MState (pos st') (rest st')
         (<[name := (pos st, take (pos st' - pos st) (rest st))]> (marks st')).

(** [run r st] lists the states in which [r] can leave the matcher when it
    starts in [st], in the order of the engine's attempts: the left branch of
    an alternative first, the optional part before its omission, the longest
    repetition before the shorter ones. *)
Fixpoint run (r : regex) (st : mstate) : list mstate :=
  match r with
  | Eps => [st]
  | Bol => if (pos st =? 0)%nat then [st] else []
  | Eol => if at_end (rest st) then [st] else []
  | Chr c => run_chr (λ x, bool_decide (x = c)) st
  | OneOf cs => run_chr (λ x, bool_decide (x ∈ cs)) st
  | Cat r1 r2 => flat_map (run r2) (run r1 st)
  | Alt r1 r2 => run r1 st ++ run r2 st
  | Opt r1 => run r1 st ++ [st]
  | Star k => run_star k (pos st) (rest st) (marks st)
  | Plus k => flat_map (λ st1, run_star k (pos st1) (rest st1) (marks st1))
                       (run_chr (in_class k) st)
  | Named name r1 => map (capture name st) (run r1 st)
  end.

(** [re.match(r, s)]: the first successful attempt, if any. *)
Definition re_match (r : regex) (s : chars) : option caps :=
  marks <$> head (run r (MState 0 s ∅)).

(** The names of the groups of a pattern, as in [pattern.groupindex]. *)
Fixpoint group_names (r : regex) : list string :=
  match r with
  | Cat r1 r2 | Alt r1 r2 => group_names r1 ++ group_names r2
  | Opt r1 => group_names r1
  | Named name r1 => name :: group_names r1
  | _ => []
  end.

(** ** Python values held by the dictionary of groups *)

Inductive pyval :=
| PStr (t : chars)
| PInt (z : Z).

Global Instance pyval_eq_dec : EqDecision pyval.
Proof. solve_decision. Defined.

(** [match.group(name)]: the text of a group, if it took part in the match. *)
Definition group (m : caps) (name : string) : option chars :=
  snd <$> m !! name.

(** [match.start(name)] *)
Definition group_start (m : caps) (name : string) : option nat :=
  fst <$> m !! name.

(** [match.groupdict(d)]: every named group of the pattern, with [d] for the
    groups that took no part in the match. *)
Definition groupdict (r : regex) (m : caps) (d : pyval) : gmap string pyval :=
  list_to_map
    (map (λ name, (name, default d (PStr <$> group m name))) (group_names r)).

(** ** The two patterns of [parse] *)

Section Patterns.
Local Open Scope regex_scope.

(** [^((?P<days>[-+]?\d+) days?,? )?(?P<sign>[-+]?)(?P<hours>\d+):]
    [(?P<minutes>\d+)(:(?P<seconds>\d+(\.\d+)?))?$] *)
Definition db_pattern : regex :=
  Bol
  ⋅ Opt (Named "days" (Opt (OneOf ["-"; "+"]%char) ⋅ Plus Digit)
         ⋅ Lit " day" ⋅ Opt (Chr "s") ⋅ Opt (Chr ",") ⋅ Chr " ")
  ⋅ Named "sign" (Opt (OneOf ["-"; "+"]%char))
  ⋅ Named "hours" (Plus Digit)
  ⋅ Chr ":"
  ⋅ Named "minutes" (Plus Digit)
  ⋅ Opt (Chr ":" ⋅ Named "seconds"
                     (Plus Digit ⋅ Opt (Chr "." ⋅ Plus Digit)))
  ⋅ Eol.

(** [-?((\d*\.\d+)|\d+)] *)
Definition number : regex :=
  Opt (Chr "-") ⋅ Alt (Star Digit ⋅ Chr "." ⋅ Plus Digit) (Plus Digit).

(** [w((ee)?(k(s)?)?)] *)
Definition unit_weeks : regex :=
  Chr "w" ⋅ Opt (Lit "ee") ⋅ Opt (Chr "k" ⋅ Opt (Chr "s")).
(** [d(ay(s)?)?] *)
Definition unit_days : regex :=
  Chr "d" ⋅ Opt (Lit "ay" ⋅ Opt (Chr "s")).
(** [h(ou)?(r(s)?)?] *)
Definition unit_hours : regex :=
  Chr "h" ⋅ Opt (Lit "ou") ⋅ Opt (Chr "r" ⋅ Opt (Chr "s")).
(** [m(in(ute)?(s)?)?] *)
Definition unit_minutes : regex :=
  Chr "m" ⋅ Opt (Lit "in" ⋅ Opt (Lit "ute") ⋅ Opt (Chr "s")).
(** [s(ec(ond)?(s)?)?] *)
Definition unit_seconds : regex :=
  Chr "s" ⋅ Opt (Lit "ec" ⋅ Opt (Lit "ond") ⋅ Opt (Chr "s")).

(** One optional component: the named number, any non-word characters, the
    unit word, an optional comma and again any non-word characters. *)
Definition component (name : string) (unit : regex) : regex :=
  Opt (Named name number ⋅ Star NonWord ⋅ unit
       ⋅ Opt (Chr ",") ⋅ Star NonWord).

(** The flexible pattern: five optional components in a fixed order; the
    last one has no comma and shares the final [\W*] with the pattern. *)
Definition flex_pattern : regex :=
  Bol
  ⋅ component "weeks" unit_weeks
  ⋅ component "days" unit_days
  ⋅ component "hours" unit_hours
  ⋅ component "minutes" unit_minutes
  ⋅ Opt (Named "seconds" number ⋅ Star NonWord ⋅ unit_seconds)
  ⋅ Star NonWord
  ⋅ Eol.
End Patterns.

(** ** [float] *)

Definition digit_val (c : ascii) : Z := Z.of_N (code c) - 48.

Definition digits_val (ds : chars) : Z :=
  fold_left (λ acc c, acc * 10 + digit_val c) ds 0.

(** The text before the first ['.'], and the text after it if there is one. *)
Fixpoint split_dot (t : chars) : chars * option chars :=
  match t with
  | [] => ([], None)
  | c :: t' =>
      if bool_decide (c = "."%char) then ([], Some t')
      else let '(i, f) := split_dot t' in (c :: i, f)
  end.

(** *** Binary64

    A binary64 number other than a NaN: the rational it stands for, or an
    infinity.  Zero has no sign here; nothing that [parse] calls tells
    [-0.0] from [0.0]. *)
Inductive float :=
| Finite (q : Qc)
| Inf (negative : bool).

Global Instance float_eq_dec : EqDecision float.
Proof. solve_decision. Defined.

Definition float_opp (x : float) : float :=
  match x with
  | Finite q => Finite (- q)%Qc
  | Inf b => Inf (negb b)
  end.

(** 2^e *)
Definition pow2 (e : Z) : Qc :=
  if 0 <=? e then Qc_of_Z (2 ^ e) else (/ Qc_of_Z (2 ^ (- e)))%Qc.

(** Round to the nearest integer, ties to even. *)
Definition round_half_even (q : Qc) : Z :=
  let n := Qnum q in
  let d := Zpos (Qden q) in
  let f := n / d in
  let r2 := 2 * (n mod d) in
  if r2 <? d then f
  else if d <? r2 then f + 1
  else if Z.even f then f else f + 1.

(** The exponent [l] with 2^l <= q < 2^(l+1), for a positive [q]. *)
Definition ilog2 (q : Qc) : Z :=
  let l := Z.log2 (Qnum q) - Z.log2 (Zpos (Qden q)) in
  if bool_decide (q < pow2 l)%Qc then l - 1 else l.

(** The nearest multiple of the unit in the last place, ties to even: 53
    bits, the last of them not below 2^-1074. *)
Definition nearest_pos (q : Qc) : Qc :=
  let e := Z.max (ilog2 q - 52) (-1074) in
  (Qc_of_Z (round_half_even (q / pow2 e)) * pow2 e)%Qc.

(** Rounding to binary64 where the range does not matter. *)
Definition nearest (q : Qc) : Qc :=
  if bool_decide (Qc_of_Z 0 ≤ q)%Qc then nearest_pos q
  else (- nearest_pos (- q))%Qc.

(** Rounding to binary64: beyond the largest number, an infinity. *)
Definition round_binary64 (q : Qc) : float :=
  let r := nearest q in
  if bool_decide (pow2 1024 ≤ r)%Qc then Inf false
  else if bool_decide (r ≤ - pow2 1024)%Qc then Inf true
  else Finite r.

(** The binary64 number nearest to an integer. *)
Definition float_of_Z (n : Z) : float := round_binary64 (Qc_of_Z n).

(** Sums, differences and products of binary64 numbers far from the ends of
    the range. *)
Definition fadd (a b : Qc) : Qc := nearest (a + b)%Qc.
Definition fsub (a b : Qc) : Qc := nearest (a - b)%Qc.
Definition fmul (a b : Qc) : Qc := nearest (a * b)%Qc.

(** The integral part, toward zero, as [modf] and a cast to an integer give
    it. *)
Definition trunc (q : Qc) : Z := Z.quot (Qnum q) (Zpos (Qden q)).

(** [round] of C: the nearest integer, ties away from zero. *)
Definition round_away (q : Qc) : Z :=
  let d := Zpos (Qden q) in
  Z.sgn (Qnum q) * ((2 * Z.abs (Qnum q) + d) / (2 * d)).

(** *** Numerals *)

(** An unsigned decimal numeral: digits, digits.digits, .digits or digits.
    with at least one digit. *)
Definition unsigned_val (t : chars) : option float :=
  let '(i, f) := split_dot t in
  let f := default [] f in
  if forallb is_digit (i ++ f) && negb (Nat.eqb (length (i ++ f)) 0)
  then Some (round_binary64
               (Q2Qc (Qmake (digits_val (i ++ f))
                            (Z.to_pos (10 ^ Z.of_nat (length f))))))
  else None.

(** [float] of a text.  A text may carry one leading sign; anything that is
    not a decimal numeral is refused. *)
Definition float_of_chars (t : chars) : option float :=
  match t with
  | c :: t' =>
      if bool_decide (c = "-"%char) then float_opp <$> unsigned_val t'
      else if bool_decide (c = "+"%char) then unsigned_val t'
      else unsigned_val t
  | [] => None
  end.

(** [float(v)] for the values the dictionary can hold: a text that is not a
    numeral is a [ValueError], an integer too large for binary64 an
    [OverflowError]. *)
Definition py_float (v : pyval) : result float :=
  match v with
  | PInt z => match float_of_Z z with
              | Finite q => Ok (Finite q)
              | Inf _ => Raise OverflowError
              end
  | PStr t => match float_of_chars t with
              | Some x => Ok x
              | None => Raise ValueError
              end
  end.

(** ** [datetime.timedelta] *)

Record timedelta := Timedelta { days : Z; seconds : Z; microseconds : Z }.

Global Instance timedelta_eq_dec : EqDecision timedelta.
Proof. solve_decision. Defined.

Definition total_microseconds (d : timedelta) : Z :=
  (days d * 86400 + seconds d) * 1000000 + microseconds d.

(** The seconds a duration stands for; [timedelta.total_seconds()] is the
    binary64 number nearest to them. *)
Definition total_seconds (d : timedelta) : Qc :=
  Q2Qc (Qmake (total_microseconds d) 1000000).

Definition MAX_DELTA_DAYS : Z := 999999999.

(** A count of microseconds as days, seconds and microseconds, with
    0 <= seconds < 86400 and 0 <= microseconds < 1000000. *)
Definition microseconds_to_delta (us : Z) : result timedelta :=
  let s := us / 1000000 in
  let d := s / 86400 in
  if (- MAX_DELTA_DAYS <=? d) && (d <=? MAX_DELTA_DAYS)
  then Ok (Timedelta d (s mod 86400) (us mod 1000000))
  else Raise OverflowError.

Definition timedelta_keywords : list string :=
  ["days"; "seconds"; "microseconds"; "milliseconds"; "minutes"; "hours";
   "weeks"]%string.

(** [accum]: [num * factor] microseconds are added to [sofar].  The integral
    part of [num] is multiplied exactly.  A fraction is multiplied in
    binary64; the integral part of the product is added and the rest goes to
    [leftover].  An infinity has no integral part. *)
Definition accum (num : float) (factor : Z) (acc : Z * Qc) : result (Z * Qc) :=
  let '(sofar, leftover) := acc in
  match num with
  | Inf _ => Raise OverflowError
  | Finite dnum =>
      let intpart := trunc dnum in
      let fracpart := (dnum - Qc_of_Z intpart)%Qc in
      let sum := sofar + intpart * factor in
      if bool_decide (fracpart = Qc_of_Z 0) then Ok (sum, leftover)
      else
        let dnum := fmul (Qc_of_Z factor) fracpart in
        let intpart := trunc dnum in
        let fracpart := (dnum - Qc_of_Z intpart)%Qc in
        Ok (sum + intpart, fadd leftover fracpart)
  end.

(** The keyword arguments in the order in which the constructor adds them,
    with their microseconds. *)
Definition us_per : list (string * Z) :=
  [("microseconds", 1); ("milliseconds", 1000); ("seconds", 1000000);
   ("minutes", 60000000); ("hours", 3600000000); ("days", 86400000000);
   ("weeks", 604800000000)]%string.

Fixpoint accum_all (kw : gmap string float) (l : list (string * Z))
    (acc : Z * Qc) : result (Z * Qc) :=
  match l with
  | [] => Ok acc
  | (name, factor) :: l' =>
      acc ←! match kw !! name with
             | Some num => accum num factor acc
             | None => Ok acc
             end;
      accum_all kw l' acc
  end.

Definition half : Qc := Q2Qc (1 # 2).

(** What is left over is rounded to whole microseconds and added: to the
    nearest, and from halfway to the one that makes the sum even. *)
Definition add_leftover (x : Z) (leftover_us : Qc) : Z :=
  if bool_decide (leftover_us = Qc_of_Z 0) then x
  else
    let whole_us := Qc_of_Z (round_away leftover_us) in
    let diff := fsub whole_us leftover_us in
    let whole_us :=
      if bool_decide (diff = half ∨ diff = (- half)%Qc) then
        let x_is_odd := Qc_of_Z (x mod 2) in
        fsub (fmul (Qc_of_Z 2)
                   (Qc_of_Z (round_away (fmul (fadd leftover_us x_is_odd)
                                              half))))
             x_is_odd
      else whole_us in
    x + trunc whole_us.

(** [datetime.timedelta] called with the keyword arguments [kw]. *)
Definition timedelta_new (kw : gmap string float) : result timedelta :=
  if bool_decide (dom kw ⊆ list_to_set timedelta_keywords)
  then acc ←! accum_all kw us_per (0, Qc_of_Z 0);
       microseconds_to_delta (add_leftover (fst acc) (snd acc))
  else Raise (TypeError "unexpected keyword argument").

(** ** [parse] *)

Definition invalid_interval (s : string) : exn :=
  TypeError ("'" +:+ s +:+ "' is not a valid time interval").

(** [d[k]] *)
Definition getitem (d : gmap string pyval) (k : string) : result pyval :=
  match d !! k with
  | Some v => Ok v
  | None => Raise KeyError
  end.

(** What ['-' + 0] raises. *)
Definition concat_error : exn :=
  TypeError "cannot concatenate 'str' and 'int' objects".

(** ['-' + v] *)
Definition concat_minus (v : pyval) : result pyval :=
  match v with
  | PStr t => Ok (PStr ("-"%char :: t))
  | PInt _ => Raise concat_error
  end.

(** [for k in ks: d[k] = '-' + d[k]] *)
Fixpoint negate_fields (ks : list string) (d : gmap string pyval)
  : result (gmap string pyval) :=
  match ks with
  | [] => Ok d
  | k :: ks' =>
      v ←! getitem d k;
      v' ←! concat_minus v;
      negate_fields ks' (<[k := v']> d)
  end.

(** [dict((k, float(v)) for k, v in d.items())] *)
Definition float_items (d : gmap string pyval) : result (gmap string float) :=
  map_fold (λ k v acc, kw ←! acc; q ←! py_float v; Ok (<[k := q]> kw))
           (Ok ∅) d.

Definition text_type (s : string) : chars := list_ascii_of_string s.

Section Parse.
(** [re.match], a parameter so that what [parse] does before it calls the
    matcher can be told apart from what the matcher does. *)
Variable matcher : regex → chars → option caps.

(** The body of [parse]: the test for the empty string, the database pattern
    with the distribution of its sign and [d.pop('sign', None)], else the
    flexible pattern, and at the end [float] on every value and
    [datetime.timedelta]. *)
Definition parse_with (string : string) : result timedelta :=
  if bool_decide (string = ""%string) then Raise (invalid_interval string)
  else
    d ←! match matcher db_pattern (text_type string) with
         | Some m =>
             let d := groupdict db_pattern m (PInt 0) in
             sign ←! getitem d "sign";
             d ←! (if bool_decide (sign = PStr ["-"%char])
                   then negate_fields ["hours"; "minutes"; "seconds"]%string d
                   else Ok d);
             Ok (delete "sign" d)
         | None =>
             match matcher flex_pattern (text_type string) with
             | Some m => Ok (groupdict flex_pattern m (PInt 0))
             | None => Raise (invalid_interval string)
             end
         end;
    kw ←! float_items d;
    timedelta_new kw.
End Parse.

Definition parse (string : string) : result timedelta :=
  parse_with re_match string.

(** ** Notions used in the statements and the proofs *)

Definition delta (d s : Z) : result timedelta := Ok (Timedelta d s 0).

Definition starts_with (P : ascii → bool) (s : chars) : bool :=
  match s with
  | c :: _ => P c
  | [] => false
  end.

(** The states [k*] falls back to after it consumed [ds]: one character
    less each time. *)
Fixpoint backoff (p : nat) (ds r : chars) (m : caps) : list mstate :=
  match ds with
  | [] => []
  | d :: ds' => backoff (S p) ds' r m ++ [MState p (d :: ds' ++ r) m]
  end.

Definition digits (ds : chars) : Prop := ds ≠ [] ∧ forallb is_digit ds = true.

Inductive clock_tail : chars → option chars → Prop :=
| tail_none : clock_tail [] None
| tail_whole s : digits s → clock_tail (":"%char :: s) (Some s)
| tail_frac s f :
    digits s → digits f →
    clock_tail (":"%char :: s ++ "."%char :: f) (Some (s ++ "."%char :: f)).

Definition sign_text (sg : chars) : Prop :=
  sg = [] ∨ sg = ["+"%char] ∨ sg = ["-"%char].

Definition clock_text (sg h mi tail : chars) : chars :=
  sg ++ h ++ ":"%char :: mi ++ tail.

(** The integer [k] stands for the whole number [n] in binary64: it is [n]
    below 2^53 in magnitude and is beyond 2^53 on the side of [n] otherwise. *)
Definition near (n k : Z) : Prop :=
  (Z.abs n < 2 ^ 53 ∧ k = n)
  ∨ (2 ^ 53 ≤ n ∧ 2 ^ 53 ≤ k)
  ∨ (n ≤ - 2 ^ 53 ∧ k ≤ - 2 ^ 53).

(** What [float] makes of a whole number. *)
Inductive whole_float (n : Z) : float → Prop :=
| whole_finite k : near n k → whole_float n (Finite (Qc_of_Z k))
| whole_inf b : 2 ^ 53 ≤ Z.abs n → whole_float n (Inf b).

Definition float_opt (v : pyval) : option float :=
  match py_float v with
  | Ok q => Some q
  | Raise _ => None
  end.

Definition floatable (v : pyval) : Prop := is_Some (float_opt v).

(** The dictionary holds texts and the integer 0 of [groupdict(0)]. *)
Definition text_or_zero (v : pyval) : Prop :=
  match v with
  | PStr _ => True
  | PInt z => z = 0
  end.

(** The value of [ds.f]; [f] may be empty. *)
Definition decimal (ds f : chars) : Qc :=
  Q2Qc (Qmake (digits_val (ds ++ f)) (Z.to_pos (10 ^ Z.of_nat (length f)))).

Record fields := Fields {
  f_weeks : float; f_days : float; f_hours : float; f_minutes : float;
  f_seconds : float
}.

(** The constructor on the five keyword arguments of [parse]: the seconds
    are added first and the weeks last. *)
Definition fields_delta (f : fields) : result timedelta :=
  acc ←! accum (f_seconds f) 1000000 (0, Qc_of_Z 0);
  acc ←! accum (f_minutes f) 60000000 acc;
  acc ←! accum (f_hours f) 3600000000 acc;
  acc ←! accum (f_days f) 86400000000 acc;
  acc ←! accum (f_weeks f) 604800000000 acc;
  microseconds_to_delta (add_leftover (fst acc) (snd acc)).

Definition kwarg (kw : gmap string float) (name : string) : float :=
  default (Finite (Qc_of_Z 0)) (kw !! name).

Definition kwargs_fields (kw : gmap string float) : fields :=
  Fields (kwarg kw "weeks") (kwarg kw "days") (kwarg kw "hours")
         (kwarg kw "minutes") (kwarg kw "seconds").

Definition unit_names : list string :=
  ["weeks"; "days"; "hours"; "minutes"; "seconds"]%string.

Definition seconds_delta (total : Z) : result timedelta :=
  if (- MAX_DELTA_DAYS <=? total / 86400) && (total / 86400 <=? MAX_DELTA_DAYS)
  then Ok (Timedelta (total / 86400) (total mod 86400) 0)
  else Raise OverflowError.

(** The whole numbers of five fields are all of one sign. *)
Definition one_sign (w d h m s : Z) : Prop :=
  (0 ≤ w ∧ 0 ≤ d ∧ 0 ≤ h ∧ 0 ≤ m ∧ 0 ≤ s)
  ∨ (w ≤ 0 ∧ d ≤ 0 ∧ h ≤ 0 ∧ m ≤ 0 ∧ s ≤ 0).

(** The whole numbers of five fields are below 2^53 in magnitude: [float]
    does not round them. *)
Definition all_exact (w d h m s : Z) : Prop :=
  Z.abs w < 2 ^ 53 ∧ Z.abs d < 2 ^ 53 ∧ Z.abs h < 2 ^ 53
  ∧ Z.abs m < 2 ^ 53 ∧ Z.abs s < 2 ^ 53.

(** The number a group stands for: [0] when the group took no part. *)
Definition field_val (g : option chars) : option float :=
  match g with
  | Some t => float_of_chars t
  | None => Some (Finite (Qc_of_Z 0))
  end.

(** The duration of five converted fields; a field that [float] refuses
    makes the conversion fail. *)
Definition build (w d h m s : option float) : result timedelta :=
  match w, d, h, m, s with
  | Some w, Some d, Some h, Some m, Some s => fields_delta (Fields w d h m s)
  | _, _, _, _, _ => Raise ValueError
  end.

Definition dict_val (d : gmap string pyval) (name : string) : option float :=
  match d !! name with
  | Some v => float_opt v
  | None => Some (Finite (Qc_of_Z 0))
  end.

Definition db_build (dd sg h mi secs : option chars) : result timedelta :=
  if bool_decide (sg = Some ["-"%char]) then
    match h, mi, secs with
    | Some h, Some mi, Some t =>
        build (Some (Finite (Qc_of_Z 0))) (field_val dd)
              (float_of_chars ("-"%char :: h))
              (float_of_chars ("-"%char :: mi))
              (float_of_chars ("-"%char :: t))
    | _, _, _ => Raise concat_error
    end
  else build (Some (Finite (Qc_of_Z 0))) (field_val dd) (field_val h)
             (field_val mi) (field_val secs).

Definition flex_build (w d h mi s : option chars) : result timedelta :=
  build (field_val w) (field_val d) (field_val h) (field_val mi) (field_val s).

Definition group_val (m : caps) (name : string) : pyval :=
  default (PInt 0) (PStr <$> group m name).

Inductive lang : regex → chars → Prop :=
| lang_eps : lang Eps []
| lang_bol : lang Bol []
| lang_eol : lang Eol []
| lang_chr c : lang (Chr c) [c]
| lang_one_of c cs : c ∈ cs → lang (OneOf cs) [c]
| lang_cat r1 r2 w1 w2 : lang r1 w1 → lang r2 w2 → lang (Cat r1 r2) (w1 ++ w2)
| lang_alt_l r1 r2 w : lang r1 w → lang (Alt r1 r2) w
| lang_alt_r r1 r2 w : lang r2 w → lang (Alt r1 r2) w
| lang_opt_some r w : lang r w → lang (Opt r) w
| lang_opt_none r : lang (Opt r) []
| lang_star k w : forallb (in_class k) w = true → lang (Star k) w
| lang_plus k w : w ≠ [] → forallb (in_class k) w = true → lang (Plus k) w
| lang_named name r w : lang r w → lang (Named name r) w.

(** [st'] is [st] after the text [w] has been consumed. *)
Definition consumed (w : chars) (st st' : mstate) : Prop :=
  rest st = w ++ rest st' ∧ pos st' = (pos st + length w)%nat.

(** The groups of a pattern with their sub-patterns. *)
Fixpoint groups_of (r : regex) : list (string * regex) :=
  match r with
  | Cat r1 r2 | Alt r1 r2 => groups_of r1 ++ groups_of r2
  | Opt r1 => groups_of r1
  | Named name r1 => (name, r1) :: groups_of r1
  | _ => []
  end.

(** Every capture satisfies [V]. *)
Definition caps_ok (V : string → chars → Prop) (m : caps) : Prop :=
  ∀ name p t, m !! name = Some (p, t) → V name t.

Definition db_valid (name : string) (t : chars) : Prop :=
  (name = "days"%string → is_Some (float_of_chars t))
  ∧ (name = "sign"%string → sign_text t)
  ∧ (name = "hours"%string ∨ name = "minutes"%string → digits t)
  ∧ (name = "seconds"%string →
     is_Some (unsigned_val t) ∧ is_Some (float_of_chars t)).

Definition flex_valid (name : string) (t : chars) : Prop :=
  is_Some (float_of_chars t).

Fixpoint mandatory (r : regex) : list string :=
  match r with
  | Cat r1 r2 => mandatory r1 ++ mandatory r2
  | Named name r1 => name :: mandatory r1
  | _ => []
  end.

(** The outcome of a conversion that does not fail: a duration, or the
    [OverflowError] of [datetime.timedelta]. *)
Definition delta_or_overflow (r : result timedelta) : Prop :=
  (∃ d, r = Ok d) ∨ r = Raise OverflowError.

(** A match of the database pattern with a minus sign and no seconds. *)
Definition clock_sign_without_seconds (s : string) : Prop :=
  ∃ m, re_match db_pattern (text_type s) = Some m
       ∧ group m "sign" = Some ["-"%char] ∧ group m "seconds" = None.

Fixpoint nobol (r : regex) : bool :=
  match r with
  | Bol => false
  | Cat r1 r2 | Alt r1 r2 => nobol r1 && nobol r2
  | Opt r1 | Named _ r1 => nobol r1
  | _ => true
  end.

Definition same_rest (a b : mstate) : Prop := rest a = rest b.

(** [reach r s s']: [r] can consume a prefix of [s] and leave [s']. *)
Definition reach (r : regex) (s s' : chars) : Prop :=
  ∃ st', In st' (run r (MState 0 s ∅)) ∧ rest st' = s'.

Definition alive (K : regex) (s : chars) : Prop := ∃ s', reach K s s'.

(** [K] matches after a minus sign only if it matches without it. *)
Definition swallows (K : regex) : Prop :=
  ∀ u, alive K ("-"%char :: u) → alive K u.

(** In the first match of [K], a group that starts with a minus sign was
    there before or starts where [K] starts. *)
Definition new_minus_at_start (K : regex) : Prop :=
  ∀ st fin, head (run K st) = Some fin →
  ∀ name q t, marks fin !! name = Some (q, "-"%char :: t) →
    marks st !! name = Some (q, "-"%char :: t)
    ∨ (q = pos st ∧ ∃ u, rest st = "-"%char :: u).

(** In the first match of [K], no new group starts with a minus sign. *)
Definition no_new_minus (K : regex) : Prop :=
  ∀ st fin, head (run K st) = Some fin →
  ∀ name q t, marks fin !! name = Some (q, "-"%char :: t) →
    marks st !! name = Some (q, "-"%char :: t).

(** [pre] captures the group [name] where it starts, and nothing else. *)
Definition captures_one (name : string) (pre : regex) : Prop :=
  ∀ st x, In x (run pre st) →
  ∃ w s1, marks x = <[name := (pos st, w)]> (marks st) ∧ rest st = w ++ s1.

(** The flexible pattern from each of its components on. *)
Definition flex_tail : regex := (Star NonWord ⋅ Eol)%re.

Definition flex_from_seconds : regex :=
  (Opt (Named "seconds" number ⋅ Star NonWord ⋅ unit_seconds) ⋅ flex_tail)%re.

Definition flex_from_minutes : regex :=
  (component "minutes" unit_minutes ⋅ flex_from_seconds)%re.

Definition flex_from_hours : regex :=
  (component "hours" unit_hours ⋅ flex_from_minutes)%re.

Definition flex_from_days : regex :=
  (component "days" unit_days ⋅ flex_from_hours)%re.

Definition flex_from_weeks : regex :=
  (component "weeks" unit_weeks ⋅ flex_from_days)%re.

Definition filler (s : chars) : Prop := forallb (in_class NonWord) s = true.

Definition mixed_signs : string :=
  "-1 weeks, 2 days, -3 hours, 4 minutes, -5 seconds".

Definition minus_two_days : caps :=
  default ∅ (re_match flex_pattern (text_type "-2 days")).

Definition negated (x : option float) : option float := float_opp <$> x.

Definition minus_day_minus_clock : caps :=
  default ∅ (re_match db_pattern (text_type "-1 day, -1:01:01")).

Definition minus_clock : caps :=
  default ∅ (re_match db_pattern (text_type "-1:01")).

(** The pattern ends with [$]. *)
Fixpoint ends_eol (r : regex) : bool :=
  match r with
  | Eol => true
  | Cat _ r2 => ends_eol r2
  | _ => false
  end.

(** [st'] is the state in which [r] leaves the matcher first. *)
Definition first_match (r : regex) (st st' : mstate) : Prop :=
  head (run r st) = Some st'.

Definition minus_half_hour : caps :=
  default ∅ (re_match db_pattern (text_type "-1 day, -0:30")).

(** The characters a pattern can consume. *)
Fixpoint may_consume (r : regex) (c : ascii) : bool :=
  match r with
  | Eps | Bol | Eol => false
  | Chr x => bool_decide (c = x)
  | OneOf cs => bool_decide (c ∈ cs)
  | Cat r1 r2 | Alt r1 r2 => may_consume r1 c || may_consume r2 c
  | Opt r1 | Named _ r1 => may_consume r1 c
  | Star k | Plus k => in_class k c
  end.

(** The letters of the unit words of the two patterns. *)
Definition unit_letters : chars := text_type "acdehikmnorstuwy".

(** A text of [number] starts with a digit, ['-'] or ['.']. *)
Definition number_start (c : ascii) : bool :=
  is_digit c || bool_decide (c = "-"%char) || bool_decide (c = "."%char).

(** A text of the database pattern starts with a digit or a sign. *)
Definition db_start (c : ascii) : bool :=
  is_digit c || bool_decide (c ∈ ["-"; "+"]%char).

(** The factor of a sign text. *)
Definition sign_of (sg : chars) : Z :=
  if bool_decide (sg = ["-"%char]) then -1 else 1.

(** The seconds of a clock time, if they are written. *)
Definition seconds_text (secs : option chars) : chars :=
  from_option (cons ":"%char) [] secs.

(** [<sign><dd> day<s><,> ], the part in front of the clock time. *)
Definition days_text (dsg dd : chars) (plural comma : bool) : chars :=
  dsg ++ dd ++ text_type " day" ++ (if plural then ["s"%char] else [])
  ++ (if comma then [","%char] else []) ++ [" "%char].

(** A numeral that binary64 holds as it is. *)
Definition exact_numeral (ds : chars) : Prop := digits_val ds < 2 ^ 53.

(** The spellings of the five units. *)
Definition weeks_words : list string :=
  ["w"; "wee"; "wk"; "wks"; "week"; "weeks"]%string.
Definition days_words : list string := ["d"; "day"; "days"]%string.
Definition hours_words : list string :=
  ["h"; "hou"; "hr"; "hrs"; "hour"; "hours"]%string.
Definition minutes_words : list string :=
  ["m"; "min"; "mins"; "minute"; "minutes"]%string.
Definition seconds_words : list string :=
  ["s"; "sec"; "secs"; "second"; "seconds"]%string.

Definition is_lower (c : ascii) : bool := between "a" "z" c.

(** What may stand between a count and its unit word and after the unit
    word: non-word characters other than the colon. *)
Definition is_gap (c : ascii) : bool :=
  negb (is_word c) && negb (bool_decide (c = ":"%char)).

Definition gap (f : chars) : Prop := forallb is_gap f = true.

(** One part of an interval: a count, a gap, a unit word and a gap. *)
Record entry := Entry {
  e_count : chars; e_gap : chars; e_word : string; e_sep : chars
}.

Definition entry_text (e : entry) : chars :=
  e_count e ++ e_gap e ++ text_type (e_word e) ++ e_sep e.

Definition entry_ok (words : list string) (e : entry) : Prop :=
  digits (e_count e) ∧ gap (e_gap e) ∧ e_word e ∈ words ∧ gap (e_sep e).

Definition opt_text (e : option entry) : chars := from_option entry_text [] e.

Definition opt_ok (words : list string) (e : option entry) : Prop :=
  from_option (entry_ok words) True e.

Definition opt_count (e : option entry) : Z :=
  from_option (λ e, digits_val (e_count e)) 0 e.

(** A minus sign in front of an interval, or nothing. *)
Definition minus_text (sg : chars) : Prop := sg = [] ∨ sg = ["-"%char].

(** The sign in front of the text is taken by the first part that is there:
    what is left of it after the part [e]. *)
Definition next_sign (sg : chars) (e : option entry) : chars :=
  match e with
  | Some _ => []
  | None => sg
  end.

(** The group of a part that is there, with the sign in front of it. *)
Definition opt_mark (name : string) (p : nat) (sg : chars) (e : option entry)
    (m : caps) : caps :=
  match e with
  | Some e => <[name := (p, sg ++ e_count e)]> m
  | None => m
  end.

(** The unit pattern [U] consumes the word [w] first, where no letter
    follows. *)
Definition spells (U : regex) (w : string) : Prop :=
  ∀ p r m, starts_with is_lower r = false →
    ∃ p', first_match U (MState p (text_type w ++ r) m) (MState p' r m).

(** A spelling of the unit of [U]: [U] consumes it, it starts with the
    letter [l] of the unit and holds no colon. *)
Definition spelled (U : regex) (l : ascii) (w : string) : Prop :=
  spells U w ∧ (∃ t, text_type w = l :: t) ∧ ":"%char ∉ text_type w.

(** The text starts with a count, a gap and one of the letters [ls], or is
    empty. *)
Definition ahead (ls : list ascii) (r : chars) : Prop :=
  r = [] ∨ ∃ ds f c r2, r = ds ++ f ++ c :: r2 ∧ digits ds ∧ gap f
                        ∧ is_lower c = true ∧ c ∈ ls.

(** The characters of a count and of a gap. *)
Definition count_or_gap (c : ascii) : bool :=
  is_digit c || in_class NonWord c.

(** The pattern of a unit starts with the letter [l]. *)
Definition unit_letter (U : regex) (l : ascii) : Prop :=
  ∀ st, starts_with (λ x, bool_decide (x = l)) (rest st) = false →
        run U st = [].

Definition one_hour_part : entry :=
  Entry (text_type "1") (text_type " ") "hour" (text_type ", ").
Definition five_mins_part : entry :=
  Entry (text_type "5") (text_type " ") "mins" [].

(** The count of the first part that is there, times its unit. *)
Definition first_part_seconds (w d h mi s : option entry) : Z :=
  match w, d, h, mi with
  | Some _, _, _, _ => opt_count w * 604800
  | None, Some _, _, _ => opt_count d * 86400
  | None, None, Some _, _ => opt_count h * 3600
  | None, None, None, Some _ => opt_count mi * 60
  | None, None, None, None => opt_count s
  end.

(** The counts that binary64 holds as they are. *)
Definition exact_counts (l : list (option entry)) : Prop :=
  Forall (λ e, opt_count e < 2 ^ 53) l.

Definition two_days_part : entry :=
  Entry (text_type "2") (text_type " ") "days" [].

(** [e'] is [e], or [e] is left out and [e'] is a part whose count is 0. *)
Definition or_zero (e e' : option entry) : Prop :=
  e' = e ∨ (e = None ∧ ∃ z, e' = Some z ∧ digits_val (e_count z) = 0).

Definition zero_days_part : entry :=
  Entry (text_type "0") (text_type " ") "days" (text_type ", ").
Definition an_hour_part : entry :=
  Entry (text_type "1") (text_type " ") "hour" [].

(** The first letters of the words of a text, a word being a run of
    lower-case letters that no lower-case letter precedes. *)
Fixpoint word_starts (inword : bool) (t : chars) : list ascii :=
  match t with
  | [] => []
  | c :: t' =>
      if is_lower c
      then if inword then word_starts true t' else c :: word_starts true t'
      else word_starts false t'
  end.

Definition initials (t : chars) : list ascii := word_starts false t.

(** [l] is [ref] with some letters left out. *)
Fixpoint in_order (l ref : list ascii) : bool :=
  match ref with
  | [] => match l with [] => true | _ => false end
  | y :: ref' =>
      match l with
      | [] => true
      | x :: l' =>
          if bool_decide (x = y) then in_order l' ref' else in_order l ref'
      end
  end.

(** The first letters of the five units, in the order of the pattern. *)
Definition unit_initials : chars := text_type "wdhms".

Definition not_lower (c : ascii) : bool := negb (is_lower c).

(** A part of the flexible pattern for the unit with the letter [l]:
    nothing, or a text without letters, a word that starts with [l], and
    non-word characters. *)
Definition part (l : ascii) (w : chars) : Prop :=
  w = [] ∨ ∃ n x g, w = n ++ (l :: x) ++ g ∧ n ≠ []
                    ∧ forallb not_lower n = true ∧ is_lower l = true
                    ∧ forallb is_lower x = true ∧ filler g.

(** The words of the unit pattern [U] start with [l]. *)
Definition unit_word (U : regex) (l : ascii) : Prop :=
  ∀ x, lang U x → ∃ x', x = l :: x' ∧ is_lower l = true
                        ∧ forallb is_lower x' = true.

(** The letter of a part that is there. *)
Definition part_letter (l : ascii) (w : chars) : list ascii :=
  if bool_decide (w = []) then [] else [l].

(** Whether the last digit or lower-case letter of a text is a letter;
    [b] for a text that has neither. *)
Fixpoint ends_in_letter (b : bool) (t : chars) : bool :=
  match t with
  | [] => b
  | c :: t' =>
      if is_digit c then ends_in_letter false t'
      else if is_lower c then ends_in_letter true t'
      else ends_in_letter b t'
  end.

(** ** The doctests of [parse]

    The docstring of [parse] lists inputs with the value or the exception
    they produce; the embedding reproduces each of them. *)

Example doctests_units :
  parse "1 day" = delta 1 0 ∧ parse "2 days" = delta 2 0
  ∧ parse "1 d" = delta 1 0 ∧ parse "1 hour" = delta 0 3600
  ∧ parse "1 hours" = delta 0 3600 ∧ parse "1 hr" = delta 0 3600
  ∧ parse "1 hrs" = delta 0 3600 ∧ parse "1h" = delta 0 3600
  ∧ parse "1wk" = delta 7 0 ∧ parse "1 week" = delta 7 0
  ∧ parse "1 weeks" = delta 7 0 ∧ parse "2 wks" = delta 14 0
  ∧ parse "1 sec" = delta 0 1 ∧ parse "1 secs" = delta 0 1
  ∧ parse "1 s" = delta 0 1 ∧ parse "1 second" = delta 0 1
  ∧ parse "1 seconds" = delta 0 1 ∧ parse "1 minute" = delta 0 60
  ∧ parse "1 min" = delta 0 60 ∧ parse "1 m" = delta 0 60
  ∧ parse "1 minutes" = delta 0 60 ∧ parse "1 mins" = delta 0 60.
Proof. vm_compute. repeat split. Qed.

Example doctests_numbers :
  parse "1.5 days" = delta 1 43200 ∧ parse "3 weeks" = delta 21 0
  ∧ parse "4.2 hours" = delta 0 15120 ∧ parse ".5 hours" = delta 0 1800
  ∧ parse "1 hour, 5 mins" = delta 0 3900 ∧ parse "-2 days" = delta (-2) 0
  ∧ parse "-1 day 0:00:01" = delta (-1) 1
  ∧ parse "-1 day, -1:01:01" = delta (-2) 82739
  ∧ parse "-1 weeks, 2 days, -3 hours, 4 minutes, -5 seconds"
    = delta (-5) 11045.
Proof. vm_compute. repeat split. Qed.

Example doctests_errors :
  parse "2 ws" = Raise (TypeError "'2 ws' is not a valid time interval")
  ∧ parse "2 ds" = Raise (TypeError "'2 ds' is not a valid time interval")
  ∧ parse "2 hs" = Raise (TypeError "'2 hs' is not a valid time interval")
  ∧ parse "2 ms" = Raise (TypeError "'2 ms' is not a valid time interval")
  ∧ parse "2 ss" = Raise (TypeError "'2 ss' is not a valid time interval")
  ∧ parse "" = Raise (TypeError "'' is not a valid time interval")
  ∧ parse " hours"
    = Raise (TypeError "' hours' is not a valid time interval").
Proof. vm_compute. repeat split. Qed.

(** Beyond the docstring: [float] rounds a numeral that binary64 does not
    hold, a whole number from 2^53 + 1 on and most fractions, and the
    duration is that of the rounded numbers. *)
Example rounded_numerals :
  parse "9007199254740993 s" = Raise OverflowError
  ∧ parse "375299968947541 days, -9007199254740993:00:00"
    = Ok (Timedelta (-1) 57600 0)
  ∧ parse "-375299968947541 d 9007199254740993 h" = Ok (Timedelta 0 28800 0)
  ∧ parse "0.0647965 s" = Ok (Timedelta 0 0 64797)
  ∧ parse "1.0086255 seconds" = Ok (Timedelta 0 1 8625)
  ∧ parse "0.0000005 s" = Ok (Timedelta 0 0 0)
  ∧ parse "0.0000015 s" = Ok (Timedelta 0 0 2).
Proof. vm_compute. repeat split. Qed.

(** ** Lists of attempts *)

Section Attempts.
Context {A B : Type}.
Implicit Types (f : A → list B) (l : list A).

Lemma flat_map_none f l : (∀ x, In x l → f x = []) → flat_map f l = [].
Proof.
  induction l as [|x l IH]; intros H; simpl; [done|].
  rewrite (H x) by (by left). apply IH. intros y Hy. apply H. by right.
Qed.

Lemma flat_map_single (l : list A) : flat_map (λ x, [x]) l = l.
Proof. induction l; simpl; congruence. Qed.

(** The first result of a sequence of attempts comes from the first attempt
    that has a result. *)
Lemma head_flat_map f l y :
  head (flat_map f l) = Some y →
  ∃ l1 x l2, l = l1 ++ x :: l2 ∧ (∀ z, In z l1 → f z = [])
             ∧ head (f x) = Some y.
Proof.
  induction l as [|x l IH]; simpl; [done|].
  destruct (f x) as [|b bs] eqn:Hfx; simpl.
  - intros (l1 & x' & l2 & -> & Hl1 & Hy)%IH.
    exists (x :: l1), x', l2. split; [done|]. split; [|done].
    intros z [<-|Hz]; auto.
  - intros [= <-]. exists [], x, l. rewrite Hfx. by split.
Qed.

Lemma head_app_nonempty (l1 l2 : list B) :
  l1 ≠ [] → head (l1 ++ l2) = head l1.
Proof. by destruct l1. Qed.
End Attempts.

Lemma flat_map_assoc {A B C} (f : A → list B) (g : B → list C) l :
  flat_map g (flat_map f l) = flat_map (λ x, flat_map g (f x)) l.
Proof.
  induction l as [|x l IH]; simpl; [done|]. by rewrite flat_map_app, IH.
Qed.

(** ** The matcher, step by step

    What follows a pattern is a function [k] from the state it leaves to the
    attempts made from there; [flat_map k (run r st)] is then the matcher at
    [r] with the rest of the pattern still to come. *)

Lemma run_star_stop c p s m :
  starts_with (in_class c) s = false → run_star c p s m = [MState p s m].
Proof. destruct s as [|x s]; simpl; [done|]. by intros ->. Qed.

Lemma run_star_app c p ds r m :
  forallb (in_class c) ds = true →
  run_star c p (ds ++ r) m
  = run_star c (p + length ds) r m ++ backoff p ds r m.
Proof.
  revert p. induction ds as [|d ds IH]; intros p; simpl.
  - intros _. by rewrite Nat.add_0_r, app_nil_r.
  - intros [-> Hds]%andb_prop. rewrite IH by done.
    by rewrite <-app_assoc, Nat.add_succ_r.
Qed.

Lemma backoff_starts c p ds r m st :
  forallb (in_class c) ds = true →
  In st (backoff p ds r m) →
  starts_with (in_class c) (rest st) = true ∧ marks st = m.
Proof.
  revert p. induction ds as [|d ds IH]; intros p; simpl; [done|].
  intros [Hd Hds]%andb_prop [Hin|[<-|[]]]%in_app_or; [by eapply IH|done].
Qed.

Section Steps.
Context {A : Type}.
Implicit Types (k : mstate → list A) (st : mstate).

Lemma step_eps k st : flat_map k (run Eps st) = k st.
Proof. simpl. apply app_nil_r. Qed.

Lemma step_cat k a b st :
  flat_map k (run (Cat a b) st) = flat_map (λ x, flat_map k (run b x)) (run a st).
Proof. simpl. apply flat_map_assoc. Qed.

Lemma step_alt k a b st :
  flat_map k (run (Alt a b) st) = flat_map k (run a st) ++ flat_map k (run b st).
Proof. simpl. apply flat_map_app. Qed.

Lemma step_opt k a st :
  flat_map k (run (Opt a) st) = flat_map k (run a st) ++ k st.
Proof. simpl. rewrite flat_map_app. simpl. by rewrite app_nil_r. Qed.

Lemma step_named k name a st :
  flat_map k (run (Named name a) st)
  = flat_map (λ x, k (capture name st x)) (run a st).
Proof. simpl. induction (run a st); simpl; congruence. Qed.

Lemma step_bol k s m :
  flat_map k (run Bol (MState 0 s m)) = k (MState 0 s m).
Proof. simpl. apply app_nil_r. Qed.

Lemma step_eol_end k p m :
  flat_map k (run Eol (MState p [] m)) = k (MState p [] m).
Proof. simpl. apply app_nil_r. Qed.

Lemma step_chr_cons k (ok : ascii → bool) p c s m :
  flat_map k (run_chr ok (MState p (c :: s) m))
  = if ok c then k (MState (S p) s m) else [].
Proof. unfold run_chr; simpl. destruct (ok c); simpl; [apply app_nil_r|done]. Qed.

Lemma step_chr_nil k (ok : ascii → bool) p m :
  flat_map k (run_chr ok (MState p [] m)) = [].
Proof. done. Qed.

Lemma step_chr_no k (ok : ascii → bool) st :
  starts_with ok (rest st) = false → flat_map k (run_chr ok st) = [].
Proof.
  destruct st as [p [|c s] m]; unfold run_chr; simpl; [done|]. by intros ->.
Qed.

Lemma step_plus k c st :
  flat_map k (run (Plus c) st)
  = flat_map (λ x, flat_map k (run (Star c) x)) (run_chr (in_class c) st).
Proof. simpl. apply flat_map_assoc. Qed.

(** A greedy repetition over [ds] followed by something that cannot start
    with a character of the class: the only attempt that may succeed is the
    one that consumed all of [ds]. *)
Lemma step_star_all k c p ds r m :
  forallb (in_class c) ds = true →
  starts_with (in_class c) r = false →
  (∀ st, starts_with (in_class c) (rest st) = true → k st = []) →
  flat_map k (run (Star c) (MState p (ds ++ r) m))
  = k (MState (p + length ds) r m).
Proof.
  intros Hds Hr Hk. simpl. rewrite run_star_app, run_star_stop by done.
  rewrite flat_map_app. simpl. rewrite app_nil_r.
  rewrite (flat_map_none k (backoff _ _ _ _)); [apply app_nil_r|].
  intros st [Hst _]%(backoff_starts c); auto.
Qed.

Lemma step_plus_all k c p ds r m :
  ds ≠ [] →
  forallb (in_class c) ds = true →
  starts_with (in_class c) r = false →
  (∀ st, starts_with (in_class c) (rest st) = true → k st = []) →
  flat_map k (run (Plus c) (MState p (ds ++ r) m))
  = k (MState (p + length ds) r m).
Proof.
  intros Hne Hds Hr Hk. rewrite step_plus.
  destruct ds as [|d ds]; [done|]. simpl in Hds.
  apply andb_prop in Hds as [Hd Hds].
  change ((d :: ds) ++ r) with (d :: (ds ++ r)). rewrite step_chr_cons, Hd.
  rewrite step_star_all by done. simpl. by rewrite Nat.add_succ_r.
Qed.

Lemma step_plus_no k c st :
  starts_with (in_class c) (rest st) = false →
  flat_map k (run (Plus c) st) = [].
Proof. intros H. rewrite step_plus. by apply step_chr_no. Qed.
End Steps.

Lemma run_as_steps r st : run r st = flat_map (λ x, [x]) (run r st).
Proof. symmetry. apply flat_map_single. Qed.

(** ** Facts used to discard attempts *)

Lemma capture_eq name p w r m m1 p' :
  p' = (p + length w)%nat →
  capture name (MState p (w ++ r) m) (MState p' r m1)
  = MState p' r (<[name := (p, w)]> m1).
Proof.
  intros ->. unfold capture; simpl.
  replace (p + length w - p)%nat with (length w) by lia.
  by rewrite take_app_length.
Qed.

Lemma starts_with_excl (P Q : ascii → bool) s :
  (∀ c, P c = true → Q c = false) →
  starts_with P s = true → starts_with Q s = false.
Proof. destruct s; simpl; [done|auto]. Qed.

Lemma digit_is_not c :
  is_digit c = false → ∀ x, is_digit x = true → bool_decide (x = c) = false.
Proof. intros Hc x Hx. apply bool_decide_eq_false. intros ->. congruence. Qed.

Lemma digit_is_word x : is_digit x = true → is_word x = true.
Proof. unfold is_word. intros ->. by rewrite orb_true_r. Qed.

Lemma nonword_not_digit x : in_class NonWord x = true → is_digit x = false.
Proof.
  simpl. destruct (is_digit x) eqn:E; [|done].
  by rewrite (digit_is_word _ E).
Qed.

Section Dead.
Context {A : Type}.
Implicit Types (k : mstate → list A) (st : mstate).

(** A literal character that [P] excludes cannot be matched where the text
    starts with a character of [P]. *)
Lemma dead_chr k P c r st :
  (∀ x, P x = true → bool_decide (x = c) = false) →
  starts_with P (rest st) = true →
  flat_map k (run (Chr c ⋅ r) st) = [].
Proof.
  intros HP Hst. rewrite step_cat. apply step_chr_no.
  by apply (starts_with_excl P).
Qed.

Lemma dead_chr1 k P c st :
  (∀ x, P x = true → bool_decide (x = c) = false) →
  starts_with P (rest st) = true →
  flat_map k (run (Chr c) st) = [].
Proof.
  intros HP Hst. apply step_chr_no. by apply (starts_with_excl P).
Qed.

Lemma dead_eol k P st :
  (∀ x, P x = true → x ≠ newline) →
  starts_with P (rest st) = true → flat_map k (run Eol st) = [].
Proof.
  intros HP. destruct st as [p [|c [|c' s]] m]; simpl; try done.
  intros Hc. rewrite bool_decide_eq_false_2; [done|]. by apply HP.
Qed.

Lemma digit_not_newline x : is_digit x = true → x ≠ newline.
Proof. by intros H ->. Qed.

Lemma dead_eol_digit k st :
  starts_with is_digit (rest st) = true → flat_map k (run Eol st) = [].
Proof. apply dead_eol, digit_not_newline. Qed.
End Dead.

(** ** The database pattern on a clock time *)

Ltac chr := 
  match goal with
  | |- context [run (Chr ?c)] =>
      change (run (Chr c)) with (run_chr (λ x, bool_decide (x = c)))
  end.

Section Clock.
Context {A : Type}.
Implicit Types (k : mstate → list A) (h mi : chars).

Local Abbreviation seconds_group :=
  (Named "seconds" (Plus Digit ⋅ Opt (Chr "." ⋅ Plus Digit)))%re.
Local Abbreviation seconds_part := (Opt (Chr ":" ⋅ seconds_group))%re.
Local Abbreviation clock :=
  (Named "hours" (Plus Digit) ⋅ Chr ":" ⋅ Named "minutes" (Plus Digit)
   ⋅ seconds_part ⋅ Eol)%re.

(** Where the text goes on with a digit, the end of the clock pattern cannot
    match. *)
Lemma dead_seconds_part k st :
  starts_with is_digit (rest st) = true →
  flat_map k (run (seconds_part ⋅ Eol) st) = [].
Proof.
  intros Hst. rewrite step_cat, step_opt.
  rewrite (dead_chr _ is_digit) by (done || by apply digit_is_not).
  by apply dead_eol_digit.
Qed.

(** Hours and minutes. *)
Lemma clock_hm k p h mi tail m :
  digits h → digits mi → starts_with is_digit tail = false →
  flat_map k (run clock (MState p (h ++ ":"%char :: mi ++ tail) m))
  = flat_map k (run (seconds_part ⋅ Eol)
      (MState (S (p + length h) + length mi) tail
         (<["minutes" := (S (p + length h), mi)]>
            (<["hours" := (p, h)]> m)))).
Proof.
  intros [Hh1 Hh2] [Hm1 Hm2] Htail.
  rewrite step_cat, step_named, step_plus_all; try done.
  2:{ intros st Hst. apply (dead_chr _ is_digit); [|done].
      by apply digit_is_not. }
  rewrite capture_eq by done.
  rewrite step_cat. chr. rewrite step_chr_cons, bool_decide_eq_true_2 by done.
  rewrite step_cat, step_named, step_plus_all; try done.
  2:{ intros st Hst. by apply dead_seconds_part. }
  by rewrite capture_eq.
Qed.

(** No seconds. *)
Lemma clock_no_seconds k p m :
  flat_map k (run (seconds_part ⋅ Eol) (MState p [] m)) = k (MState p [] m).
Proof.
  rewrite step_cat, step_opt, step_cat. chr.
  by rewrite step_chr_nil, app_nil_l, step_eol_end.
Qed.

(** Whole seconds. *)
Lemma clock_seconds k p s m :
  digits s →
  flat_map k (run (seconds_part ⋅ Eol) (MState p (":"%char :: s) m))
  = k (MState (S p + length s) [] (<["seconds" := (S p, s)]> m)).
Proof.
  intros [Hs1 Hs2]. rewrite step_cat, step_opt.
  rewrite (dead_eol _ (λ x, bool_decide (x = ":"%char))); [|by intros x ->%bool_decide_eq_true|done].
  rewrite app_nil_r.
  rewrite step_cat. chr. rewrite step_chr_cons, bool_decide_eq_true_2 by done.
  rewrite <-(app_nil_r s) at 1.
  rewrite step_named, step_cat, step_plus_all; try done.
  2:{ intros st Hst. rewrite step_opt.
      rewrite (dead_chr _ is_digit) by (done || by apply digit_is_not).
      by apply dead_eol_digit. }
  rewrite step_opt, step_cat. chr. rewrite step_chr_nil, app_nil_l.
  by rewrite capture_eq, step_eol_end.
Qed.

(** Seconds with a fraction. *)
Lemma clock_seconds_frac k p s f m :
  digits s → digits f →
  flat_map k (run (seconds_part ⋅ Eol)
                (MState p (":"%char :: s ++ "."%char :: f) m))
  = k (MState (S (S p + length s) + length f) []
         (<["seconds" := (S p, s ++ "."%char :: f)]> m)).
Proof.
  intros [Hs1 Hs2] [Hf1 Hf2]. rewrite step_cat, step_opt.
  rewrite (dead_eol _ (λ x, bool_decide (x = ":"%char))); [|by intros x ->%bool_decide_eq_true|done].
  rewrite app_nil_r.
  rewrite step_cat. chr. rewrite step_chr_cons, bool_decide_eq_true_2 by done.
  rewrite step_named, step_cat, step_plus_all; try done.
  2:{ intros st Hst. rewrite step_opt.
      rewrite (dead_chr _ is_digit) by (done || by apply digit_is_not).
      by apply dead_eol_digit. }
  rewrite step_opt.
  rewrite (dead_eol _ (λ x, bool_decide (x = "."%char))); [|by intros x ->%bool_decide_eq_true|done].
  rewrite app_nil_r.
  rewrite step_cat. chr. rewrite step_chr_cons, bool_decide_eq_true_2 by done.
  rewrite <-(app_nil_r f) at 1.
  rewrite step_plus_all; try done.
  2:{ intros st Hst. by apply dead_eol_digit. }
  rewrite <-(app_nil_r (s ++ "."%char :: f)) at 1.
  rewrite capture_eq; [by rewrite step_eol_end|].
  rewrite length_app; simpl; lia.
Qed.
End Clock.

Lemma digits_starts ds r :
  digits ds → starts_with is_digit (ds ++ r) = true.
Proof. intros [Hne H]. destruct ds; [done|]. simpl in *. by apply andb_prop in H as [-> _]. Qed.

Lemma clock_tail_starts tail secs :
  clock_tail tail secs → starts_with is_digit tail = false.
Proof. by destruct 1. Qed.

Section DbClock.
Context {A : Type}.
Implicit Types (k : mstate → list A) (h mi : chars).

Local Abbreviation days_part :=
  (Named "days" (Opt (OneOf ["-"; "+"]%char) ⋅ Plus Digit)
   ⋅ Lit " day" ⋅ Opt (Chr "s") ⋅ Opt (Chr ",") ⋅ Chr " ")%re.

Lemma digit_not_sign x :
  is_digit x = true → bool_decide (x ∈ ["-"; "+"]%char) = false.
Proof.
  intros Hx. apply bool_decide_eq_false.
  intros [->|[->|[]%elem_of_nil]%elem_of_cons]%elem_of_cons; done.
Qed.

Ltac one_of :=
  match goal with
  | |- context [run (OneOf ?cs)] =>
      change (run (OneOf cs)) with (run_chr (λ x, bool_decide (x ∈ cs)))
  end.

(** The optional day count cannot match in front of a clock time. *)
Lemma dead_days_clock k sg h r m :
  sign_text sg → digits h →
  flat_map k (run days_part (MState 0 (sg ++ h ++ ":"%char :: r) m)) = [].
Proof.
  intros Hsg Hh. pose proof (digits_starts _ (":"%char :: r) Hh) as Hst.
  destruct Hh as [Hh1 Hh2].
  assert (∀ st p m',
    flat_map (λ x, flat_map k
                (run (Lit " day" ⋅ Opt (Chr "s") ⋅ Opt (Chr ",") ⋅ Chr " ")
                   (capture "days" st x)))
      (run (Plus Digit) (MState p (h ++ ":"%char :: r) m')) = []) as Hdead.
  { intros st0 p m'. rewrite step_plus_all; try done.
    intros st Hd. cbn [Lit]. rewrite !step_cat.
    apply step_chr_no, (starts_with_excl is_digit); [|done].
    by apply digit_is_not. }
  rewrite step_cat, step_named, step_cat, step_opt.
  destruct Hsg as [->|[->| ->]]; cbn [app].
  - rewrite Hdead, app_nil_r. one_of.
    apply step_chr_no, (starts_with_excl is_digit); [|done].
    apply digit_not_sign.
  - one_of. rewrite step_chr_cons. 
    rewrite bool_decide_eq_true_2 by set_solver.
    rewrite Hdead. by apply step_plus_no.
  - one_of. rewrite step_chr_cons. 
    rewrite bool_decide_eq_true_2 by set_solver.
    rewrite Hdead. by apply step_plus_no.
Qed.

Local Abbreviation seconds_group :=
  (Named "seconds" (Plus Digit ⋅ Opt (Chr "." ⋅ Plus Digit)))%re.
Local Abbreviation seconds_part := (Opt (Chr ":" ⋅ seconds_group))%re.
Local Abbreviation clock :=
  (Named "hours" (Plus Digit) ⋅ Chr ":" ⋅ Named "minutes" (Plus Digit)
   ⋅ seconds_part ⋅ Eol)%re.

(** The database pattern on a clock time is the clock part of the pattern
    after the sign. *)
Lemma db_clock_sign k sg h r :
  sign_text sg → digits h →
  flat_map k (run db_pattern (MState 0 (sg ++ h ++ ":"%char :: r) ∅))
  = flat_map k (run clock (MState (length sg) (h ++ ":"%char :: r)
                             (<["sign" := (0%nat, sg)]> ∅))).
Proof.
  intros Hsg Hh. unfold db_pattern.
  rewrite step_cat, step_bol, step_cat, step_opt.
  rewrite dead_days_clock, app_nil_l by done.
  pose proof (digits_starts _ (":"%char :: r) Hh) as Hst.
  assert (∀ st, starts_with is_digit (rest st) = false →
            flat_map k (run clock st) = []) as Hno.
  { intros st Hno. rewrite step_cat, step_named. by apply step_plus_no. }
  rewrite step_cat, step_named, step_opt. one_of.
  destruct Hsg as [->|[->| ->]]; cbn [app].
  - rewrite step_chr_no, app_nil_l; [done|].
    apply (starts_with_excl is_digit); [apply digit_not_sign|done].
  - rewrite step_chr_cons, bool_decide_eq_true_2 by set_solver.
    rewrite (Hno (capture "sign" _ (MState 0 _ _))) by done.
    by rewrite app_nil_r.
  - rewrite step_chr_cons, bool_decide_eq_true_2 by set_solver.
    rewrite (Hno (capture "sign" _ (MState 0 _ _))) by done.
    by rewrite app_nil_r.
Qed.
End DbClock.

(** ** The dictionary of groups *)

Lemma lookup_groupdict r m d name :
  groupdict r m d !! name
  = if bool_decide (name ∈ group_names r)
    then Some (default d (PStr <$> group m name)) else None.
Proof.
  unfold groupdict. induction (group_names r) as [|n ns IH]; simpl.
  - by rewrite lookup_empty.
  - destruct (decide (name = n)) as [->|Hne].
    + rewrite lookup_insert_eq, bool_decide_eq_true_2; [done|set_solver].
    + rewrite lookup_insert_ne, IH by done.
      rewrite (bool_decide_ext (name ∈ n :: ns) (name ∈ ns)); [done|].
      rewrite elem_of_cons. split; [by intros [?|?]|by right].
Qed.

Lemma dom_groupdict r m d :
  dom (groupdict r m d) = list_to_set (group_names r).
Proof.
  apply set_eq. intros name. rewrite elem_of_dom, lookup_groupdict.
  rewrite elem_of_list_to_set. by case_bool_decide; split.
Qed.

(** ** Rounding to binary64 *)

Lemma round_half_even_Z z : round_half_even (Qc_of_Z z) = z.
Proof.
  unfold round_half_even. simpl. by rewrite Z.div_1_r, Z.mod_1_r.
Qed.

Lemma pow2_nonneg e : 0 ≤ e → pow2 e = Qc_of_Z (2 ^ e).
Proof. intros He. unfold pow2. by rewrite (proj2 (Z.leb_le 0 e)). Qed.

Lemma Qc_of_Z_pos_ne n : 0 < n → Qc_of_Z n ≠ Q2Qc 0.
Proof. rewrite <-Z2Qc_inj_0. intros Hn ?%Z2Qc_inj. lia. Qed.

Lemma pow2_nonpos e : e ≤ 0 → pow2 e = (/ Qc_of_Z (2 ^ (- e)))%Qc.
Proof.
  intros He. unfold pow2. destruct (0 <=? e) eqn:E; [|done].
  apply Z.leb_le in E. assert (e = 0) as -> by lia. simpl.
  apply Qc_is_canon. reflexivity.
Qed.

Lemma round_half_even_lower k q :
  (Qc_of_Z k ≤ q)%Qc → k ≤ round_half_even q.
Proof.
  intros Hk. unfold round_half_even.
  assert (k ≤ Qnum q / Z.pos (Qden q)) as Hf.
  { apply Z.div_le_lower_bound; [done|].
    unfold Qcle, Qle in Hk. simpl in Hk. lia. }
  repeat case_match; lia.
Qed.

Lemma ilog2_Z n : 0 < n → ilog2 (Qc_of_Z n) = Z.log2 n.
Proof.
  intros Hn. unfold ilog2. simpl. rewrite Z.sub_0_r.
  pose proof (Z.log2_nonneg n). pose proof (Z.log2_spec n Hn) as [Hl _].
  rewrite pow2_nonneg by done.
  rewrite bool_decide_eq_false_2; [done|].
  rewrite <-Z2Qc_inj_lt. lia.
Qed.

Lemma nearest_pos_0 : nearest_pos (Qc_of_Z 0) = Qc_of_Z 0.
Proof. apply Qc_is_canon. reflexivity. Qed.

Lemma nearest_pos_small n :
  0 < n < 2 ^ 53 → nearest_pos (Qc_of_Z n) = Qc_of_Z n.
Proof.
  intros [Hn Hlt]. unfold nearest_pos. rewrite ilog2_Z by done.
  assert (Z.log2 n < 53) by (apply Z.log2_lt_pow2; lia).
  pose proof (Z.log2_nonneg n).
  rewrite Z.max_l by lia. set (e := Z.log2 n - 52).
  rewrite pow2_nonpos by (unfold e; lia).
  assert (0 < 2 ^ (- e)) as Hp by (apply Z.pow_pos_nonneg; unfold e; lia).
  pose proof (Qc_of_Z_pos_ne _ Hp) as Hne.
  assert ((Qc_of_Z n / / Qc_of_Z (2 ^ (- e)))%Qc = Qc_of_Z (n * 2 ^ (- e)))
    as ->.
  { rewrite Z2Qc_inj_mul. by field. }
  rewrite round_half_even_Z, Z2Qc_inj_mul. by field.
Qed.

Lemma nearest_pos_big n :
  2 ^ 53 ≤ n → ∃ k, nearest_pos (Qc_of_Z n) = Qc_of_Z k ∧ 2 ^ 53 ≤ k.
Proof.
  intros Hn. assert (0 < n) as Hpos by lia.
  unfold nearest_pos. rewrite ilog2_Z by done.
  assert (53 ≤ Z.log2 n) by (apply Z.log2_le_pow2; lia).
  rewrite Z.max_l by lia. set (e := Z.log2 n - 52).
  rewrite pow2_nonneg by (unfold e; lia).
  assert (0 < 2 ^ e) as Hp by (apply Z.pow_pos_nonneg; unfold e; lia).
  pose proof (Qc_of_Z_pos_ne _ Hp) as Hne.
  eexists. split; [symmetry; apply Z2Qc_inj_mul|].
  assert (2 ^ 52 ≤ round_half_even (Qc_of_Z n / Qc_of_Z (2 ^ e))) as Hm.
  { apply round_half_even_lower.
    apply (Qcmult_le_mono_pos_r _ _ (Qc_of_Z (2 ^ e))).
    { rewrite <-Z2Qc_inj_0. apply (proj1 (Z2Qc_inj_lt _ _)). exact Hp. }
    assert ((Qc_of_Z n / Qc_of_Z (2 ^ e) * Qc_of_Z (2 ^ e))%Qc = Qc_of_Z n)
      as -> by by field.
    rewrite <-Z2Qc_inj_mul. apply (proj1 (Z2Qc_inj_le _ _)).
    rewrite <-Z.pow_add_r by (unfold e; lia).
    replace (52 + e) with (Z.log2 n) by (unfold e; lia).
    by apply Z.log2_spec. }
  assert (2 ≤ 2 ^ e).
  { change 2 with (2 ^ 1) at 1. apply Z.pow_le_mono_r; unfold e; lia. }
  change (2 ^ 53) with (2 ^ 52 * 2). nia.
Qed.

Lemma Qcopp_lt_compat (p q : Qc) : (p < q)%Qc → (- q < - p)%Qc.
Proof.
  intros Hlt. apply Qcnot_le_lt. intros Hle%Qcopp_le_compat.
  rewrite !Qcopp_involutive in Hle. by apply Qcle_not_lt in Hle.
Qed.

Lemma nearest_opp q : nearest (- q) = (- nearest q)%Qc.
Proof.
  unfold nearest.
  destruct (Qclt_le_dec q (Qc_of_Z 0)) as [Hneg|Hpos].
  - rewrite (bool_decide_eq_false_2 (_ ≤ q)%Qc) by by apply Qclt_not_le.
    rewrite bool_decide_eq_true_2.
    + by rewrite Qcopp_involutive.
    + apply Qclt_le_weak in Hneg. apply Qcopp_le_compat in Hneg.
      by rewrite <-Z2Qc_inj_opp in Hneg.
  - rewrite (bool_decide_eq_true_2 (_ ≤ q)%Qc) by done.
    apply Qcle_lt_or_eq in Hpos as [Hpos| <-].
    + rewrite bool_decide_eq_false_2; [by rewrite Qcopp_involutive|].
      apply Qclt_not_le. apply Qcopp_lt_compat in Hpos.
      by rewrite <-Z2Qc_inj_opp in Hpos.
    + assert ((- Qc_of_Z 0)%Qc = Qc_of_Z 0) as Hz
        by (apply Qc_is_canon; reflexivity).
      rewrite Hz, bool_decide_eq_true_2 by done.
      by rewrite nearest_pos_0, Hz.
Qed.

Lemma round_binary64_opp q :
  round_binary64 (- q) = float_opp (round_binary64 q).
Proof.
  unfold round_binary64. rewrite nearest_opp. set (r := nearest q).
  assert (Qc_of_Z 0 < pow2 1024)%Qc as Hp.
  { rewrite pow2_nonneg by done. by apply (proj1 (Z2Qc_inj_lt _ _)). }
  destruct (Qclt_le_dec r (pow2 1024)) as [Hlt|Hge].
  - rewrite (bool_decide_eq_false_2 (pow2 1024 ≤ r)%Qc) by by apply Qclt_not_le.
    destruct (Qclt_le_dec (- pow2 1024) r) as [Hgt|Hle].
    + rewrite (bool_decide_eq_false_2 (r ≤ - pow2 1024)%Qc)
        by by apply Qclt_not_le.
      rewrite !bool_decide_eq_false_2; [done| |].
      * apply Qclt_not_le. apply Qcopp_lt_compat in Hlt. done.
      * apply Qclt_not_le. apply Qcopp_lt_compat in Hgt.
        by rewrite Qcopp_involutive in Hgt.
    + rewrite (bool_decide_eq_true_2 (r ≤ - pow2 1024)%Qc) by done.
      rewrite bool_decide_eq_true_2; [done|].
      apply Qcopp_le_compat in Hle. by rewrite Qcopp_involutive in Hle.
  - rewrite (bool_decide_eq_true_2 (pow2 1024 ≤ r)%Qc) by done.
    rewrite bool_decide_eq_false_2.
    + rewrite bool_decide_eq_true_2; [done|]. by apply Qcopp_le_compat.
    + apply Qclt_not_le. apply Qcopp_le_compat in Hge.
      eapply Qcle_lt_trans; [exact Hge|].
      eapply Qclt_trans; [|exact Hp].
      apply Qcopp_lt_compat in Hp. by rewrite <-Z2Qc_inj_opp in Hp.
Qed.

Lemma float_of_Z_opp n : float_of_Z (- n) = float_opp (float_of_Z n).
Proof. unfold float_of_Z. by rewrite Z2Qc_inj_opp, round_binary64_opp. Qed.

Lemma nearest_Z_nonneg n :
  0 ≤ n → nearest (Qc_of_Z n) = nearest_pos (Qc_of_Z n).
Proof.
  intros Hn. unfold nearest. rewrite bool_decide_eq_true_2; [done|].
  by apply (proj1 (Z2Qc_inj_le _ _)).
Qed.

Lemma pow2_1024_above k : k < 2 ^ 1024 → ¬ (pow2 1024 ≤ Qc_of_Z k)%Qc.
Proof.
  intros Hk. rewrite pow2_nonneg by done.
  intros Hle%(proj2 (Z2Qc_inj_le _ _)). lia.
Qed.

Lemma pow2_1024_below k : - 2 ^ 1024 < k → ¬ (Qc_of_Z k ≤ - pow2 1024)%Qc.
Proof.
  intros Hk. rewrite pow2_nonneg, <-Z2Qc_inj_opp by done.
  intros Hle%(proj2 (Z2Qc_inj_le _ _)). lia.
Qed.

Lemma pow2_53_1024 : 2 ^ 53 < 2 ^ 1024.
Proof. by apply Z.pow_lt_mono_r. Qed.

(** A whole number below 2^53 is a binary64 number. *)
Lemma float_of_Z_nonneg_exact n :
  0 ≤ n < 2 ^ 53 → float_of_Z n = Finite (Qc_of_Z n).
Proof.
  intros [Hn Hlt]. unfold float_of_Z, round_binary64.
  pose proof pow2_53_1024.
  assert (nearest (Qc_of_Z n) = Qc_of_Z n) as ->.
  { rewrite nearest_Z_nonneg by done.
    destruct (decide (n = 0)) as [->|Hne]; [apply nearest_pos_0|].
    apply nearest_pos_small. lia. }
  rewrite !bool_decide_eq_false_2; [done| |].
  - apply pow2_1024_below. lia.
  - apply pow2_1024_above. lia.
Qed.

Lemma float_of_Z_exact n :
  Z.abs n < 2 ^ 53 → float_of_Z n = Finite (Qc_of_Z n).
Proof.
  intros Hn. destruct (Z.le_gt_cases 0 n) as [Hpos|Hneg].
  - apply float_of_Z_nonneg_exact. lia.
  - rewrite <-(Z.opp_involutive n), float_of_Z_opp.
    rewrite float_of_Z_nonneg_exact by lia. cbn [float_opp].
    by rewrite <-Z2Qc_inj_opp.
Qed.

Lemma float_of_Z_big n : 2 ^ 53 ≤ n → whole_float n (float_of_Z n).
Proof.
  intros Hn. unfold float_of_Z, round_binary64.
  rewrite nearest_Z_nonneg by lia.
  destruct (nearest_pos_big n Hn) as (k & -> & Hk).
  case_bool_decide; [apply whole_inf; lia|].
  rewrite bool_decide_eq_false_2.
  - apply whole_finite. right. by left.
  - apply pow2_1024_below. lia.
Qed.

Lemma whole_float_opp n x : whole_float n x → whole_float (- n) (float_opp x).
Proof.
  intros [k Hk|b Hb]; cbn [float_opp].
  - rewrite <-Z2Qc_inj_opp. apply whole_finite. unfold near in *. lia.
  - apply whole_inf. lia.
Qed.

Lemma float_of_Z_whole n : whole_float n (float_of_Z n).
Proof.
  destruct (Z.lt_ge_cases (Z.abs n) (2 ^ 53)) as [Hlt|Hge].
  - rewrite float_of_Z_exact by done. apply whole_finite. by left.
  - destruct (Z.le_gt_cases 0 n) as [Hpos|Hneg].
    + apply float_of_Z_big. lia.
    + rewrite <-(Z.opp_involutive n), float_of_Z_opp.
      apply whole_float_opp, float_of_Z_big. lia.
Qed.

(** ** [float] on the texts the patterns capture *)

Lemma py_float_opt v :
  text_or_zero v →
  py_float v = match float_opt v with
               | Some q => Ok q
               | None => Raise ValueError
               end.
Proof.
  unfold float_opt. destruct v as [t|z]; simpl.
  - by destruct (float_of_chars t).
  - by intros ->.
Qed.

Lemma float_items_spec d :
  map_Forall (λ _, text_or_zero) d →
  match float_items d with
  | Ok kw => kw = omap float_opt d ∧ map_Forall (λ _, floatable) d
  | Raise e => e = ValueError ∧ ¬ map_Forall (λ _, floatable) d
  end.
Proof.
  unfold float_items. apply (map_fold_weak_ind (λ r m,
    map_Forall (λ _, text_or_zero) m →
    match r with
    | Ok kw => kw = omap float_opt m ∧ map_Forall (λ _, floatable) m
    | Raise e => e = ValueError ∧ ¬ map_Forall (λ _, floatable) m
    end)).
  - intros _. split; [by rewrite omap_empty|apply map_Forall_empty].
  - intros i x m r Hi IH Htz.
    apply map_Forall_insert in Htz as [Hx Hm]; [|done].
    specialize (IH Hm). destruct r as [kw|e]; simpl.
    + destruct IH as [-> Hall]. rewrite py_float_opt by done.
      destruct (float_opt x) as [q|] eqn:Hq; simpl.
      * split; [by rewrite (omap_insert_Some _ _ _ _ q)|].
        apply map_Forall_insert_2; [by exists q|done].
      * split; [done|]. intros Hn%map_Forall_insert_1_1.
        destruct Hn as [q Hq']. congruence.
    + destruct IH as [-> Hall]. split; [done|].
      intros Hn. apply Hall. by eapply map_Forall_insert_1_2.
Qed.

Lemma float_items_ok d :
  map_Forall (λ _, text_or_zero) d →
  map_Forall (λ _, floatable) d → float_items d = Ok (omap float_opt d).
Proof.
  intros Htz Hd. pose proof (float_items_spec d Htz) as H.
  destruct (float_items d); [by destruct H as [-> _]|by destruct H].
Qed.

(** ** The value of a decimal numeral *)

Lemma Q2Qc_inject_Z z : Q2Qc (inject_Z z) = Qc_of_Z z.
Proof. apply Qc_is_canon. simpl. apply Qred_correct. Qed.

Lemma split_dot_digits ds :
  forallb is_digit ds = true → split_dot ds = (ds, None).
Proof.
  induction ds as [|c ds IH]; simpl; [done|].
  intros [Hc Hds]%andb_prop. rewrite IH by done.
  by rewrite (digit_is_not "." eq_refl c Hc).
Qed.

Lemma split_dot_point ds f :
  forallb is_digit ds = true →
  split_dot (ds ++ "."%char :: f) = (ds, Some f).
Proof.
  induction ds as [|c ds IH]; simpl; [done|].
  intros [Hc Hds]%andb_prop. rewrite IH by done.
  by rewrite (digit_is_not "." eq_refl c Hc).
Qed.

Lemma decimal_whole ds : decimal ds [] = Qc_of_Z (digits_val ds).
Proof. unfold decimal. rewrite app_nil_r. apply Q2Qc_inject_Z. Qed.

Lemma unsigned_val_digits ds :
  digits ds → unsigned_val ds = Some (float_of_Z (digits_val ds)).
Proof.
  intros [Hne Hds]. unfold unsigned_val, float_of_Z.
  rewrite split_dot_digits by done. cbn [from_option id].
  rewrite <-decimal_whole. unfold decimal. rewrite app_nil_r, Hds.
  by destruct ds.
Qed.

Lemma unsigned_val_point ds f :
  forallb is_digit ds = true → digits f →
  unsigned_val (ds ++ "."%char :: f) = Some (round_binary64 (decimal ds f)).
Proof.
  intros Hds [Hne Hf]. unfold unsigned_val.
  rewrite split_dot_point by done. cbn [from_option id].
  rewrite forallb_app, Hds, Hf, length_app.
  destruct f; [done|]. cbn [length]. by rewrite Nat.add_succ_r.
Qed.

Lemma float_unsigned t :
  starts_with (λ c, bool_decide (c = "-"%char) || bool_decide (c = "+"%char)) t
  = false →
  t ≠ [] → float_of_chars t = unsigned_val t.
Proof.
  destruct t as [|c t]; [done|]. simpl.
  by intros [-> ->]%orb_false_elim.
Qed.

Lemma float_minus t :
  float_of_chars ("-"%char :: t) = float_opp <$> unsigned_val t.
Proof. done. Qed.

Lemma float_plus t :
  float_of_chars ("+"%char :: t) = unsigned_val t.
Proof. done. Qed.

Lemma float_digits ds :
  digits ds → float_of_chars ds = Some (float_of_Z (digits_val ds)).
Proof.
  intros Hds. rewrite float_unsigned; [by apply unsigned_val_digits| |apply Hds].
  destruct Hds as [Hne Hds]. destruct ds as [|c ds]; [done|]. simpl in *.
  apply andb_prop in Hds as [Hc _].
  by rewrite (digit_is_not "-" eq_refl c Hc), (digit_is_not "+" eq_refl c Hc).
Qed.

(** ** The duration of a set of fields *)

Lemma accum_whole k factor sofar leftover :
  accum (Finite (Qc_of_Z k)) factor (sofar, leftover)
  = Ok (sofar + k * factor, leftover).
Proof.
  unfold accum, trunc. cbn [Qnum Qden this Qc_of_Z]. rewrite Z.quot_1_r.
  rewrite bool_decide_eq_true_2; [done|].
  by rewrite <-Z2Qc_inj_sub, Z.sub_diag.
Qed.

(** A keyword argument that is not given counts as one that is 0. *)
Lemma accum_kwarg kw name factor acc :
  match kw !! name with
  | Some num => accum num factor acc
  | None => Ok acc
  end = accum (kwarg kw name) factor acc.
Proof.
  unfold kwarg. destruct (kw !! name) as [num|]; [done|].
  destruct acc as [sofar leftover]. cbn [default from_option id].
  rewrite accum_whole. do 2 f_equal. lia.
Qed.

Lemma add_leftover_0 x : add_leftover x (Qc_of_Z 0) = x.
Proof. unfold add_leftover. by rewrite bool_decide_eq_true_2. Qed.

Lemma timedelta_new_fields kw :
  dom kw ⊆ list_to_set unit_names →
  timedelta_new kw = fields_delta (kwargs_fields kw).
Proof.
  intros Hdom. unfold timedelta_new.
  rewrite bool_decide_eq_true_2.
  2:{ intros name Hname%Hdom. revert Hname.
      rewrite !elem_of_list_to_set. unfold unit_names, timedelta_keywords.
      rewrite !elem_of_cons. tauto. }
  assert (∀ name, name ∉ unit_names → kw !! name = None) as Hz.
  { intros name Hname. apply not_elem_of_dom.
    intros Hin%Hdom. by apply elem_of_list_to_set in Hin. }
  unfold us_per. cbn [accum_all].
  rewrite (Hz "microseconds"), (Hz "milliseconds"); cycle 1.
  { unfold unit_names. rewrite !elem_of_cons, elem_of_nil.
    intros [?|[?|[?|[?|[?|[]]]]]]; done. }
  { unfold unit_names. rewrite !elem_of_cons, elem_of_nil.
    intros [?|[?|[?|[?|[?|[]]]]]]; done. }
  cbn [bind]. rewrite accum_kwarg. unfold fields_delta, kwargs_fields.
  cbn [f_seconds f_minutes f_hours f_days f_weeks].
  destruct (accum (kwarg kw "seconds") _ _) as [a1|]; [|done]. cbn [bind].
  rewrite accum_kwarg.
  destruct (accum (kwarg kw "minutes") _ _) as [a2|]; [|done]. cbn [bind].
  rewrite accum_kwarg.
  destruct (accum (kwarg kw "hours") _ _) as [a3|]; [|done]. cbn [bind].
  rewrite accum_kwarg.
  destruct (accum (kwarg kw "days") _ _) as [a4|]; [|done]. cbn [bind].
  rewrite accum_kwarg.
  by destruct (accum (kwarg kw "weeks") _ _) as [a5|].
Qed.

Lemma microseconds_to_delta_seconds total :
  microseconds_to_delta (total * 1000000) = seconds_delta total.
Proof.
  unfold microseconds_to_delta, seconds_delta.
  by rewrite Z.div_mul, Z.mod_mul.
Qed.

(** Beyond 2^53 seconds there is no duration. *)
Lemma seconds_delta_overflow total :
  2 ^ 53 ≤ Z.abs total → seconds_delta total = Raise OverflowError.
Proof.
  change (2 ^ 53) with 9007199254740992. intros Ht. unfold seconds_delta.
  destruct (_ && _) eqn:E; [|done].
  apply andb_prop in E as [H1%Z.leb_le H2%Z.leb_le].
  unfold MAX_DELTA_DAYS in *.
  pose proof (Z.div_mod total 86400). pose proof (Z.mod_pos_bound total 86400).
  lia.
Qed.

Lemma near_exact n k : near n k → Z.abs n < 2 ^ 53 → k = n.
Proof. unfold near. change (2 ^ 53) with 9007199254740992. lia. Qed.

Lemma near_nonneg n k :
  near n k → 0 ≤ n → 0 ≤ k ∧ (k = n ∨ (2 ^ 53 ≤ n ∧ 2 ^ 53 ≤ k)).
Proof. unfold near. change (2 ^ 53) with 9007199254740992. lia. Qed.

Lemma near_nonpos n k :
  near n k → n ≤ 0 → k ≤ 0 ∧ (k = n ∨ (n ≤ - 2 ^ 53 ∧ k ≤ - 2 ^ 53)).
Proof. unfold near. change (2 ^ 53) with 9007199254740992. lia. Qed.

(** The sums of five fields that stand for whole numbers of one sign, or
    small enough, are equal or both beyond 2^53. *)
Lemma near_sums w d h m s kw kd kh km ks :
  near w kw → near d kd → near h kh → near m km → near s ks →
  one_sign w d h m s ∨ all_exact w d h m s →
  let k := kw * 604800 + kd * 86400 + kh * 3600 + km * 60 + ks in
  let t := w * 604800 + d * 86400 + h * 3600 + m * 60 + s in
  k = t ∨ (2 ^ 53 ≤ Z.abs k ∧ 2 ^ 53 ≤ Z.abs t).
Proof.
  intros Hw Hd Hh Hm Hs [[Hpos|Hneg]|Hex] k t; unfold k, t.
  - destruct Hpos as (H1 & H2 & H3 & H4 & H5).
    apply near_nonneg in Hw, Hd, Hh, Hm, Hs; try done.
    change (2 ^ 53) with 9007199254740992 in *. lia.
  - destruct Hneg as (H1 & H2 & H3 & H4 & H5).
    apply near_nonpos in Hw, Hd, Hh, Hm, Hs; try done.
    change (2 ^ 53) with 9007199254740992 in *. lia.
  - destruct Hex as (H1 & H2 & H3 & H4 & H5).
    apply near_exact in Hw, Hd, Hh, Hm, Hs; try done. subst. by left.
Qed.

(** One field beyond 2^53 takes the sum out of the range of a duration. *)
Lemma big_field_overflow w d h m s n :
  one_sign w d h m s ∨ all_exact w d h m s →
  n = w ∨ n = d ∨ n = h ∨ n = m ∨ n = s → 2 ^ 53 ≤ Z.abs n →
  seconds_delta (w * 604800 + d * 86400 + h * 3600 + m * 60 + s)
  = Raise OverflowError.
Proof.
  intros Hok Hn Hbig. apply seconds_delta_overflow. revert Hok Hn Hbig.
  unfold one_sign, all_exact. change (2 ^ 53) with 9007199254740992. lia.
Qed.

Lemma fields_delta_near w d h m s xw xd xh xm xs :
  whole_float w xw → whole_float d xd → whole_float h xh →
  whole_float m xm → whole_float s xs →
  one_sign w d h m s ∨ all_exact w d h m s →
  fields_delta (Fields xw xd xh xm xs)
  = seconds_delta (w * 604800 + d * 86400 + h * 3600 + m * 60 + s).
Proof.
  unfold fields_delta.
  cbn [f_seconds f_minutes f_hours f_days f_weeks].
  intros Hw Hd Hh Hm Hs Hok.
  assert (∀ n, n = w ∨ n = d ∨ n = h ∨ n = m ∨ n = s → 2 ^ 53 ≤ Z.abs n →
            Raise OverflowError
            = seconds_delta (w * 604800 + d * 86400 + h * 3600 + m * 60 + s))
    as Hover by (intros n Hn Hbig; symmetry; by eapply big_field_overflow).
  destruct Hs as [ks Hs|bs Hs]; [rewrite accum_whole|apply (Hover s); [tauto|done]].
  cbn [bind].
  destruct Hm as [km Hm|bm Hm]; [rewrite accum_whole|apply (Hover m); [tauto|done]].
  cbn [bind].
  destruct Hh as [kh Hh|bh Hh]; [rewrite accum_whole|apply (Hover h); [tauto|done]].
  cbn [bind].
  destruct Hd as [kd Hd|bd Hd]; [rewrite accum_whole|apply (Hover d); [tauto|done]].
  cbn [bind].
  destruct Hw as [kw Hw|bw Hw]; [rewrite accum_whole|apply (Hover w); [tauto|done]].
  cbn [bind fst snd]. rewrite add_leftover_0.
  pose proof (near_sums _ _ _ _ _ _ _ _ _ _ Hw Hd Hh Hm Hs Hok) as Hsum.
  cbv zeta in Hsum.
  replace (0 + ks * 1000000 + km * 60000000 + kh * 3600000000
           + kd * 86400000000 + kw * 604800000000)
    with ((kw * 604800 + kd * 86400 + kh * 3600 + km * 60 + ks) * 1000000)
    by lia.
  rewrite microseconds_to_delta_seconds.
  destruct Hsum as [->|[Hk Ht]]; [done|].
  by rewrite !seconds_delta_overflow.
Qed.

(** The duration of five whole fields that are of one sign, or small enough
    for binary64: the sum of the seconds they stand for. *)
Lemma fields_delta_whole w d h m s :
  one_sign w d h m s ∨ all_exact w d h m s →
  fields_delta (Fields (float_of_Z w) (float_of_Z d) (float_of_Z h)
                       (float_of_Z m) (float_of_Z s))
  = seconds_delta (w * 604800 + d * 86400 + h * 3600 + m * 60 + s).
Proof. apply fields_delta_near; apply float_of_Z_whole. Qed.

(** ** What [parse] computes from the groups of a match *)

Lemma elem_of_unit_names name :
  name ∈ unit_names ↔
  name = "weeks"%string ∨ name = "days"%string ∨ name = "hours"%string
  ∨ name = "minutes"%string ∨ name = "seconds"%string.
Proof. unfold unit_names. rewrite !elem_of_cons, elem_of_nil. tauto. Qed.

Lemma build_dict (d : gmap string pyval) :
  dom d ⊆ list_to_set unit_names → map_Forall (λ _, text_or_zero) d →
  (kw ←! float_items d; timedelta_new kw)
  = build (dict_val d "weeks") (dict_val d "days") (dict_val d "hours")
          (dict_val d "minutes") (dict_val d "seconds").
Proof.
  intros Hdom Htz. pose proof (float_items_spec d Htz) as Hspec.
  destruct (float_items d) as [kw|e]; simpl.
  - destruct Hspec as [-> Hall].
    rewrite timedelta_new_fields by (etrans; [apply dom_omap_subseteq|done]).
    assert (∀ name, dict_val d name = Some (kwarg (omap float_opt d) name)) as Hv.
    { intros name. unfold dict_val, kwarg. rewrite lookup_omap.
      destruct (d !! name) as [v|] eqn:Hname; simpl; [|done].
      destruct (Hall _ _ Hname) as [q Hq]. by rewrite Hq. }
    rewrite !Hv. cbn [build]. unfold kwargs_fields. reflexivity.
  - destruct Hspec as [-> Hall].
    destruct (dict_val d "weeks") as [w|] eqn:Hw; [|done].
    destruct (dict_val d "days") as [dd|] eqn:Hd; [|done].
    destruct (dict_val d "hours") as [h|] eqn:Hh; [|done].
    destruct (dict_val d "minutes") as [mi|] eqn:Hm; [|done].
    destruct (dict_val d "seconds") as [s|] eqn:Hs; [|done].
    destruct Hall. intros name v Hname.
    assert (name ∈ unit_names) as Hin.
    { apply (elem_of_list_to_set (C:=gset string)), Hdom, elem_of_dom.
      by exists v. }
    unfold dict_val in *.
    apply elem_of_unit_names in Hin as [->|[->|[->|[->| ->]]]];
      rewrite Hname in *; unfold floatable; eauto.
Qed.

Lemma groupdict_db m :
  groupdict db_pattern m (PInt 0)
  = <["days" := group_val m "days"]> (<["sign" := group_val m "sign"]>
      (<["hours" := group_val m "hours"]> (<["minutes" := group_val m "minutes"]>
        (<["seconds" := group_val m "seconds"]> ∅)))).
Proof. reflexivity. Qed.

Lemma groupdict_flex m :
  groupdict flex_pattern m (PInt 0)
  = <["weeks" := group_val m "weeks"]> (<["days" := group_val m "days"]>
      (<["hours" := group_val m "hours"]> (<["minutes" := group_val m "minutes"]>
        (<["seconds" := group_val m "seconds"]> ∅)))).
Proof. reflexivity. Qed.

Lemma float_opt_group_val m name :
  float_opt (group_val m name) = field_val (group m name).
Proof.
  unfold group_val, float_opt.
  destruct (group m name) as [t|];
    cbn [default from_option id fmap option_fmap option_map py_float field_val].
  - by destruct (float_of_chars t).
  - by rewrite float_of_Z_exact.
Qed.

Lemma group_val_text_or_zero m name : text_or_zero (group_val m name).
Proof. unfold group_val. by destruct (group m name). Qed.

Lemma float_opt_str t : float_opt (PStr t) = float_of_chars t.
Proof. unfold float_opt; simpl. by destruct (float_of_chars t). Qed.

Ltac lookups :=
  repeat first
    [ rewrite lookup_delete_eq | rewrite lookup_delete_ne by done
    | rewrite lookup_insert_eq | rewrite lookup_insert_ne by done
    | rewrite lookup_empty ].

Ltac texts_or_zero :=
  repeat first
    [ apply map_Forall_delete
    | apply map_Forall_insert_2; [first [apply group_val_text_or_zero|exact I]|]
    | apply map_Forall_empty ].

Ltac in_units :=
  intros name; rewrite ?dom_delete, ?dom_insert, ?dom_empty;
  rewrite (elem_of_list_to_set (C:=gset string)), elem_of_unit_names;
  rewrite ?elem_of_difference, ?elem_of_union, ?elem_of_singleton, ?elem_of_empty;
  tauto.

Lemma flex_branch m :
  (kw ←! float_items (groupdict flex_pattern m (PInt 0)); timedelta_new kw)
  = flex_build (group m "weeks") (group m "days") (group m "hours")
               (group m "minutes") (group m "seconds").
Proof.
  rewrite groupdict_flex, build_dict by (in_units || texts_or_zero).
  unfold dict_val, flex_build. lookups. by rewrite !float_opt_group_val.
Qed.

Lemma group_val_sign m :
  bool_decide (group_val m "sign" = PStr ["-"%char])
  = bool_decide (group m "sign" = Some ["-"%char]).
Proof.
  unfold group_val. apply bool_decide_ext.
  destruct (group m "sign") as [t|]; simpl; split; intros [=]; by subst.
Qed.

Lemma db_branch m :
  (d ←! (let d := groupdict db_pattern m (PInt 0) in
         sign ←! getitem d "sign";
         d ←! (if bool_decide (sign = PStr ["-"%char])
               then negate_fields ["hours"; "minutes"; "seconds"]%string d
               else Ok d);
         Ok (delete "sign" d));
   kw ←! float_items d; timedelta_new kw)
  = db_build (group m "days") (group m "sign") (group m "hours")
             (group m "minutes") (group m "seconds").
Proof.
  cbv zeta. rewrite groupdict_db. unfold getitem at 1. lookups.
  cbn [bind]. rewrite group_val_sign. unfold db_build.
  case_bool_decide as Hsign.
  - cbn [negate_fields]. unfold getitem. lookups. cbn [bind].
    unfold group_val at 1.
    destruct (group m "hours") as [h|]; [|done]. cbn [bind concat_minus default from_option id fmap option_fmap option_map].
    lookups. cbn [bind].
    unfold group_val at 1.
    destruct (group m "minutes") as [mi|]; [|done]. cbn [bind concat_minus default from_option id fmap option_fmap option_map].
    lookups. cbn [bind].
    unfold group_val at 1.
    destruct (group m "seconds") as [t|]; [|done]. cbn [bind concat_minus default from_option id fmap option_fmap option_map].
    rewrite build_dict by (in_units || texts_or_zero).
    unfold dict_val. lookups.
    by rewrite !float_opt_str, float_opt_group_val.
  - cbn [bind]. rewrite build_dict by (in_units || texts_or_zero).
    unfold dict_val. lookups. by rewrite !float_opt_group_val.
Qed.

(** [parse] in terms of the groups of the match: the dictionary, the
    distribution of the sign and the conversion are summed up by [db_build]
    and [flex_build]. *)
Theorem parse_groups s :
  parse s =
  if bool_decide (s = ""%string) then Raise (invalid_interval s)
  else match re_match db_pattern (text_type s) with
       | Some m => db_build (group m "days") (group m "sign") (group m "hours")
                            (group m "minutes") (group m "seconds")
       | None =>
           match re_match flex_pattern (text_type s) with
           | Some m => flex_build (group m "weeks") (group m "days")
                                  (group m "hours") (group m "minutes")
                                  (group m "seconds")
           | None => Raise (invalid_interval s)
           end
       end.
Proof.
  unfold parse, parse_with. case_bool_decide; [done|].
  destruct (re_match db_pattern (text_type s)) as [m|]; [apply db_branch|].
  destruct (re_match flex_pattern (text_type s)) as [m|]; [|done].
  cbn [bind]. apply flex_branch.
Qed.

(** ** The database pattern on a clock time: the groups *)

Ltac groups := unfold group; lookups; try done.

Lemma re_match_db_clock sg h mi tail secs :
  sign_text sg → digits h → digits mi → clock_tail tail secs →
  ∃ m, re_match db_pattern (clock_text sg h mi tail) = Some m
       ∧ group m "days" = None ∧ group m "sign" = Some sg
       ∧ group m "hours" = Some h ∧ group m "minutes" = Some mi
       ∧ group m "seconds" = secs.
Proof.
  intros Hsg Hh Hmi Htail. unfold re_match, clock_text.
  rewrite run_as_steps, db_clock_sign, clock_hm;
    [|done|done|by eapply clock_tail_starts|done|done].
  destruct Htail as [|s Hs|s f Hs Hf].
  - rewrite clock_no_seconds. eexists; split; [done|]. cbn [marks]. 
    repeat split; groups.
  - rewrite clock_seconds by done. eexists; split; [done|]. cbn [marks].
    repeat split; groups.
  - rewrite clock_seconds_frac by done. eexists; split; [done|]. cbn [marks].
    repeat split; groups.
Qed.

Lemma text_type_of_chars l : text_type (string_of_list_ascii l) = l.
Proof. apply list_ascii_of_string_of_list_ascii. Qed.

Lemma string_of_chars_nonempty l :
  l ≠ [] → string_of_list_ascii l ≠ ""%string.
Proof. by destruct l. Qed.

Lemma clock_text_nonempty sg h mi tail : clock_text sg h mi tail ≠ [].
Proof. unfold clock_text. destruct sg; [by destruct h|done]. Qed.

(** [parse] on a clock time with an optional sign. *)
Lemma parse_clock sg h mi tail secs :
  sign_text sg → digits h → digits mi → clock_tail tail secs →
  parse (string_of_list_ascii (clock_text sg h mi tail))
  = db_build None (Some sg) (Some h) (Some mi) secs.
Proof.
  intros Hsg Hh Hmi Htail. rewrite parse_groups.
  rewrite bool_decide_eq_false_2
    by apply string_of_chars_nonempty, clock_text_nonempty.
  rewrite text_type_of_chars.
  destruct (re_match_db_clock sg h mi tail secs) as (m & -> & -> & -> & -> & -> & ->); done.
Qed.

(** ** The texts a pattern can consume *)

Lemma consumed_nil st : consumed [] st st.
Proof. split; [done|simpl; lia]. Qed.

Lemma consumed_app w1 w2 st1 st2 st3 :
  consumed w1 st1 st2 → consumed w2 st2 st3 → consumed (w1 ++ w2) st1 st3.
Proof.
  intros [H1 H1'] [H2 H2']. split.
  - by rewrite H1, H2, app_assoc.
  - rewrite H2', H1', length_app. lia.
Qed.

Lemma run_star_lang k p s m st' :
  In st' (run_star k p s m) →
  ∃ w, consumed w (MState p s m) st' ∧ forallb (in_class k) w = true
       ∧ marks st' = m.
Proof.
  revert p. induction s as [|c s IH]; intros p; simpl.
  - intros [<-|[]]. exists []. split; [apply consumed_nil|done].
  - destruct (in_class k c) eqn:Hc.
    + intros [Hin|[<-|[]]]%in_app_or.
      * destruct (IH _ Hin) as (w & [Hw1 Hw2] & Hw & Hm).
        exists (c :: w). unfold consumed in *. simpl in *.
        rewrite Hc, Hw, Hw1, Hw2. repeat split; try done; lia.
      * exists []. split; [apply consumed_nil|done].
    + intros [<-|[]]. exists []. split; [apply consumed_nil|done].
Qed.

Lemma run_chr_lang ok st st' :
  In st' (run_chr ok st) →
  ∃ c, ok c = true ∧ consumed [c] st st' ∧ marks st' = marks st.
Proof.
  unfold run_chr. destruct st as [p [|c s] m]; simpl; [done|].
  destruct (ok c) eqn:Hc; [|done]. intros [<-|[]].
  exists c. repeat split; simpl; [done|lia].
Qed.

(** Every attempt consumes a text of the language of the pattern. *)
Lemma run_lang r st st' :
  In st' (run r st) → ∃ w, consumed w st st' ∧ lang r w.
Proof.
  revert st st'.
  induction r as [| | |c|cs|r1 IHr1 r2 IHr2|r1 IHr1 r2 IHr2|r IHr|k|k|n r IHr];
    intros st st'; simpl.
  - intros [<-|[]]. exists []. split; [apply consumed_nil|constructor].
  - destruct (pos st =? 0)%nat; [|done]. intros [<-|[]].
    exists []. split; [apply consumed_nil|constructor].
  - destruct (at_end (rest st)); [|done]. intros [<-|[]].
    exists []. split; [apply consumed_nil|constructor].
  - intros (x & Hx & Hc & _)%run_chr_lang. apply bool_decide_eq_true in Hx as ->.
    exists [c]. split; [done|constructor].
  - intros (x & Hx & Hc & _)%run_chr_lang. apply bool_decide_eq_true in Hx.
    exists [x]. split; [done|by constructor].
  - intros (mid & Hmid & Hin)%in_flat_map.
    destruct (IHr1 _ _ Hmid) as (w1 & Hc1 & Hl1).
    destruct (IHr2 _ _ Hin) as (w2 & Hc2 & Hl2).
    exists (w1 ++ w2). split; [by eapply consumed_app|by constructor].
  - intros [Hin|Hin]%in_app_or.
    + destruct (IHr1 _ _ Hin) as (w & Hc & Hl). exists w. split; [done|by constructor].
    + destruct (IHr2 _ _ Hin) as (w & Hc & Hl). exists w. split; [done|by apply lang_alt_r].
  - intros [Hin|[<-|[]]]%in_app_or.
    + destruct (IHr _ _ Hin) as (w & Hc & Hl). exists w. split; [done|by constructor].
    + exists []. split; [apply consumed_nil|apply lang_opt_none].
  - destruct st as [p s m]. intros (w & Hc & Hw & _)%run_star_lang.
    exists w. split; [done|by constructor].
  - intros (mid & (c & Hc & Hcons & Hm)%run_chr_lang & Hin)%in_flat_map.
    destruct mid as [p s m].
    apply run_star_lang in Hin as (w & Hw & Hall & _).
    exists ([c] ++ w). split; [by eapply consumed_app|].
    constructor; [done|]. simpl. by rewrite Hc, Hall.
  - intros (x & <- & Hx)%in_map_iff.
    destruct (IHr _ _ Hx) as (w & Hc & Hl). exists w. split; [done|by constructor].
Qed.

Lemma capture_consumed name w st st' :
  consumed w st st' →
  capture name st st'
  = MState (pos st') (rest st') (<[name := (pos st, w)]> (marks st')).
Proof.
  intros [H1 H2]. unfold capture. rewrite H1, H2.
  replace (pos st + length w - pos st)%nat with (length w) by lia.
  by rewrite take_app_length.
Qed.

Lemma run_star_marks k p s m st' : In st' (run_star k p s m) → marks st' = m.
Proof. by intros (w & _ & _ & ?)%run_star_lang. Qed.

Lemma run_chr_marks ok st st' : In st' (run_chr ok st) → marks st' = marks st.
Proof. by intros (c & _ & _ & ?)%run_chr_lang. Qed.

(** If the language of every group is within [V], the captures of a match
    satisfy [V]. *)
Lemma run_caps_ok V r st st' :
  Forall (λ g, ∀ w, lang g.2 w → V g.1 w) (groups_of r) →
  In st' (run r st) → caps_ok V (marks st) → caps_ok V (marks st').
Proof.
  revert st st'.
  induction r as [| | |c|cs|r1 IHr1 r2 IHr2|r1 IHr1 r2 IHr2|r IHr|k|k|n r IHr];
    intros st st' HV; simpl; try (intros [<-|[]]; done).
  - destruct (pos st =? 0)%nat; [|done]. by intros [<-|[]].
  - destruct (at_end (rest st)); [|done]. by intros [<-|[]].
  - by intros ->%run_chr_marks.
  - by intros ->%run_chr_marks.
  - simpl in HV. apply Forall_app in HV as [HV1 HV2].
    intros (mid & Hmid & Hin)%in_flat_map Hok. eauto.
  - simpl in HV. apply Forall_app in HV as [HV1 HV2].
    intros [Hin|Hin]%in_app_or; eauto.
  - simpl in HV. intros [Hin|[<-|[]]]%in_app_or; eauto.
  - destruct st as [p s m]. by intros ->%run_star_marks.
  - intros (mid & Hmid%run_chr_marks & Hin)%in_flat_map.
    destruct mid as [p s m]. apply run_star_marks in Hin. simpl in *.
    by rewrite Hin, Hmid.
  - simpl in HV. apply Forall_cons in HV as [Hn HV].
    intros (x & <- & Hx)%in_map_iff Hok.
    destruct (run_lang _ _ _ Hx) as (w & Hc & Hl).
    rewrite (capture_consumed _ w) by done. simpl.
    intros name p t. destruct (decide (name = n)) as [->|Hne].
    + rewrite lookup_insert_eq. intros [= <- <-]. by apply Hn.
    + rewrite lookup_insert_ne by done. by apply (IHr _ _ HV Hx Hok).
Qed.

(** ** The texts of the groups are numerals *)

Ltac inv_lang :=
  repeat match goal with
  | H : lang Eps _ |- _ => inversion H; subst; clear H
  | H : lang (Chr _) _ |- _ => inversion H; subst; clear H
  | H : lang (OneOf _) _ |- _ => inversion H; subst; clear H
  | H : lang (Cat _ _) _ |- _ => inversion H; subst; clear H
  | H : lang (Alt _ _) _ |- _ => inversion H; subst; clear H
  | H : lang (Opt _) _ |- _ => inversion H; subst; clear H
  | H : lang (Star _) _ |- _ => inversion H; subst; clear H
  | H : lang (Plus _) _ |- _ => inversion H; subst; clear H
  | H : lang (Named _ _) _ |- _ => inversion H; subst; clear H
  end.

Lemma unsigned_val_some_digits ds : digits ds → is_Some (unsigned_val ds).
Proof. intros H. rewrite unsigned_val_digits by done. by eexists. Qed.

Lemma unsigned_val_some_point ds f :
  forallb is_digit ds = true → digits f →
  is_Some (unsigned_val (ds ++ "."%char :: f)).
Proof. intros H1 H2. rewrite unsigned_val_point by done. by eexists. Qed.

Lemma float_minus_some t :
  is_Some (unsigned_val t) → is_Some (float_of_chars ("-"%char :: t)).
Proof. intros [q Hq]. rewrite float_minus, Hq. by eexists. Qed.

Lemma float_digits_some ds : digits ds → is_Some (float_of_chars ds).
Proof. intros H. rewrite float_digits by done. by eexists. Qed.

Lemma float_point_some ds f :
  forallb is_digit ds = true → digits f →
  is_Some (float_of_chars (ds ++ "."%char :: f)).
Proof.
  intros Hds Hf. rewrite float_unsigned.
  - by apply unsigned_val_some_point.
  - destruct ds as [|c ds]; [done|]. simpl in *.
    apply andb_prop in Hds as [Hc _].
    by rewrite (digit_is_not "-" eq_refl c Hc), (digit_is_not "+" eq_refl c Hc).
  - by destruct ds.
Qed.

(** [-?((\d*\.\d+)|\d+)] consumes a text that [float] accepts. *)
Lemma lang_number_float w : lang number w → is_Some (float_of_chars w).
Proof.
  unfold number. intros H. inv_lang; cbn [app];
    first [ apply float_minus_some;
            first [ by apply unsigned_val_some_point
                  | by apply unsigned_val_some_digits ]
          | by apply float_point_some
          | by apply float_digits_some ].
Qed.

(** The groups of the database pattern. *)
Lemma lang_days_float w :
  lang (Opt (OneOf ["-"; "+"]%char) ⋅ Plus Digit) w →
  is_Some (float_of_chars w).
Proof.
  intros H. inv_lang; cbn [app].
  - match goal with H : _ ∈ _ |- _ =>
      apply elem_of_cons in H as [->|[->|[]%elem_of_nil]%elem_of_cons]
    end.
    + by apply float_minus_some, unsigned_val_some_digits.
    + rewrite float_plus. by apply unsigned_val_some_digits.
  - by apply float_digits_some.
Qed.

Lemma lang_digits w : lang (Plus Digit) w → digits w.
Proof. intros H. by inv_lang. Qed.

Lemma lang_seconds_unsigned w :
  lang (Plus Digit ⋅ Opt (Chr "." ⋅ Plus Digit)) w →
  is_Some (unsigned_val w) ∧ is_Some (float_of_chars w).
Proof.
  intros H. inv_lang; cbn [app].
  - split; [by apply unsigned_val_some_point|by apply float_point_some].
  - rewrite app_nil_r.
    split; [by apply unsigned_val_some_digits|by apply float_digits_some].
Qed.

Lemma lang_sign w :
  lang (Opt (OneOf ["-"; "+"]%char)) w → sign_text w.
Proof.
  intros H. inv_lang; [|by left].
  match goal with H : _ ∈ _ |- _ =>
    apply elem_of_cons in H as [->|[->|[]%elem_of_nil]%elem_of_cons]
  end; unfold sign_text; auto.
Qed.

Lemma re_match_in r s m :
  re_match r s = Some m →
  ∃ st, In st (run r (MState 0 s ∅)) ∧ marks st = m.
Proof.
  unfold re_match. destruct (run r _) as [|st l]; [done|].
  intros [= <-]. exists st. split; [by left|done].
Qed.

Lemma caps_ok_empty V : caps_ok V ∅.
Proof. intros name p t. by rewrite lookup_empty. Qed.

Lemma groups_of_db :
  groups_of db_pattern
  = [("days"%string, Opt (OneOf ["-"; "+"]%char) ⋅ Plus Digit);
     ("sign"%string, Opt (OneOf ["-"; "+"]%char));
     ("hours"%string, Plus Digit); ("minutes"%string, Plus Digit);
     ("seconds"%string, Plus Digit ⋅ Opt (Chr "." ⋅ Plus Digit))]%re.
Proof. reflexivity. Qed.

Lemma groups_of_flex :
  groups_of flex_pattern
  = [("weeks"%string, number); ("days"%string, number);
     ("hours"%string, number); ("minutes"%string, number);
     ("seconds"%string, number)].
Proof. reflexivity. Qed.

Lemma db_groups_valid s m : re_match db_pattern s = Some m → caps_ok db_valid m.
Proof.
  intros (st & Hin & <-)%re_match_in.
  eapply (run_caps_ok _ db_pattern); [|exact Hin|apply caps_ok_empty].
  rewrite groups_of_db.
  repeat first [apply Forall_nil_2|apply Forall_cons_2]; simpl; intros w Hw; unfold db_valid;
    (split; [|split; [|split]]); intros Hn; try done; try (by destruct Hn);
    first [ by apply lang_days_float | by apply lang_sign
          | by apply lang_digits | by apply lang_seconds_unsigned ].
Qed.

Lemma flex_groups_valid s m :
  re_match flex_pattern s = Some m → caps_ok flex_valid m.
Proof.
  intros (st & Hin & <-)%re_match_in.
  eapply (run_caps_ok _ flex_pattern); [|exact Hin|apply caps_ok_empty].
  rewrite groups_of_flex.
  repeat first [apply Forall_nil_2|apply Forall_cons_2]; simpl; intros w Hw; by apply lang_number_float.
Qed.

Lemma caps_ok_group V m name t :
  caps_ok V m → group m name = Some t → V name t.
Proof.
  unfold group. intros Hok. destruct (m !! name) as [[p t']|] eqn:Hm; [|done].
  intros [= <-]. by eapply Hok.
Qed.

(** ** Groups that take part in every match *)

Lemma run_marks_mono r st st' name :
  In st' (run r st) → is_Some (marks st !! name) → is_Some (marks st' !! name).
Proof.
  revert st st'.
  induction r as [| | |c|cs|r1 IHr1 r2 IHr2|r1 IHr1 r2 IHr2|r IHr|k|k|n r IHr];
    intros st st'; simpl; try (intros [<-|[]]; done).
  - destruct (pos st =? 0)%nat; [|done]. by intros [<-|[]].
  - destruct (at_end (rest st)); [|done]. by intros [<-|[]].
  - by intros ->%run_chr_marks.
  - by intros ->%run_chr_marks.
  - intros (mid & Hmid & Hin)%in_flat_map. eauto.
  - intros [Hin|Hin]%in_app_or; eauto.
  - intros [Hin|[<-|[]]]%in_app_or; eauto.
  - destruct st as [p s m]. by intros ->%run_star_marks.
  - intros (mid & Hmid%run_chr_marks & Hin)%in_flat_map.
    destruct mid as [p s m]. apply run_star_marks in Hin. simpl in *.
    by rewrite Hin, Hmid.
  - intros (x & <- & Hx)%in_map_iff Hs. simpl.
    destruct (decide (name = n)) as [->|Hne].
    + rewrite lookup_insert_eq. by eexists.
    + rewrite lookup_insert_ne by done. eauto.
Qed.

Lemma run_mandatory r st st' name :
  In st' (run r st) → name ∈ mandatory r → is_Some (marks st' !! name).
Proof.
  revert st st'.
  induction r as [| | |c|cs|r1 IHr1 r2 IHr2|r1 IHr1 r2 IHr2|r IHr|k|k|n r IHr];
    intros st st'; simpl; try (by intros _ ?%elem_of_nil).
  - intros (mid & Hmid & Hin)%in_flat_map [H1|H2]%elem_of_app.
    + eapply run_marks_mono; eauto.
    + eauto.
  - intros (x & <- & Hx)%in_map_iff [->|Hn]%elem_of_cons; simpl.
    + rewrite lookup_insert_eq. by eexists.
    + destruct (decide (name = n)) as [->|Hne].
      * rewrite lookup_insert_eq. by eexists.
      * rewrite lookup_insert_ne by done. eauto.
Qed.

Lemma db_groups_present s m :
  re_match db_pattern s = Some m →
  is_Some (group m "sign") ∧ is_Some (group m "hours")
  ∧ is_Some (group m "minutes").
Proof.
  intros (st & Hin & <-)%re_match_in. unfold group.
  repeat split; apply fmap_is_Some;
    (eapply (run_mandatory db_pattern); [exact Hin|]);
    change (mandatory db_pattern)
      with ["sign"; "hours"; "minutes"]%string;
    rewrite !elem_of_cons; auto.
Qed.

(** ** The exceptions of [parse] *)

Lemma microseconds_to_delta_outcome us :
  delta_or_overflow (microseconds_to_delta us).
Proof.
  unfold microseconds_to_delta.
  destruct (_ && _); [left; by eexists|by right].
Qed.

(** [accum] adds a number or raises the [OverflowError] of an infinity. *)
Lemma accum_outcome num factor acc :
  (∃ acc', accum num factor acc = Ok acc')
  ∨ accum num factor acc = Raise OverflowError.
Proof.
  destruct acc as [sofar leftover]. unfold accum.
  destruct num as [q|b]; [|by right]. left. case_bool_decide; by eexists.
Qed.

Lemma fields_delta_outcome f : delta_or_overflow (fields_delta f).
Proof.
  unfold fields_delta, delta_or_overflow.
  destruct (accum_outcome (f_seconds f) 1000000 (0, Qc_of_Z 0))
    as [[a1 ->]| ->]; [|by right]. cbn [bind].
  destruct (accum_outcome (f_minutes f) 60000000 a1)
    as [[a2 ->]| ->]; [|by right]. cbn [bind].
  destruct (accum_outcome (f_hours f) 3600000000 a2)
    as [[a3 ->]| ->]; [|by right]. cbn [bind].
  destruct (accum_outcome (f_days f) 86400000000 a3)
    as [[a4 ->]| ->]; [|by right]. cbn [bind].
  destruct (accum_outcome (f_weeks f) 604800000000 a4)
    as [[a5 ->]| ->]; [|by right]. cbn [bind].
  apply microseconds_to_delta_outcome.
Qed.

Lemma build_outcome w d h m s :
  is_Some w → is_Some d → is_Some h → is_Some m → is_Some s →
  delta_or_overflow (build w d h m s).
Proof.
  intros [? ->] [? ->] [? ->] [? ->] [? ->]. cbn [build].
  apply fields_delta_outcome.
Qed.

Lemma field_val_some V m name :
  caps_ok V m → (∀ t, V name t → is_Some (float_of_chars t)) →
  is_Some (field_val (group m name)).
Proof.
  intros Hok HV. destruct (group m name) as [t|] eqn:Hg; simpl; [|by eexists].
  eapply HV, caps_ok_group; eauto.
Qed.

Lemma db_build_outcome s m :
  re_match db_pattern (text_type s) = Some m →
  ¬ clock_sign_without_seconds s →
  delta_or_overflow
    (db_build (group m "days") (group m "sign") (group m "hours")
              (group m "minutes") (group m "seconds")).
Proof.
  intros Hm Hslip.
  pose proof (db_groups_valid _ _ Hm) as Hok.
  destruct (db_groups_present _ _ Hm) as ([sg Hsg] & [h Hh] & [mi Hmi]).
  assert (digits h) as Hdh by (eapply (caps_ok_group db_valid); eauto).
  assert (digits mi) as Hdmi by (eapply (caps_ok_group db_valid); eauto).
  assert (is_Some (field_val (group m "days"))) as Hdays.
  { eapply field_val_some; [done|]. intros t (Ht & _). by apply Ht. }
  unfold db_build. rewrite Hsg, Hh, Hmi. case_bool_decide as Hminus.
  - destruct (group m "seconds") as [t|] eqn:Hsec.
    + destruct (caps_ok_group _ _ _ _ Hok Hsec) as (_ & _ & _ & Ht).
      destruct Ht as [Ht _]; [done|].
      apply build_outcome; try done; try (by eexists);
        apply float_minus_some;
        first [exact Ht|by apply unsigned_val_some_digits].
    + destruct Hslip. exists m. by simplify_eq.
  - apply build_outcome; try done; try (by eexists);
      try (by apply float_digits_some).
    eapply field_val_some; [done|]. intros t (_ & _ & _ & Ht).
    by destruct Ht.
Qed.

Lemma flex_build_outcome s m :
  re_match flex_pattern s = Some m →
  delta_or_overflow
    (flex_build (group m "weeks") (group m "days") (group m "hours")
                (group m "minutes") (group m "seconds")).
Proof.
  intros Hm. pose proof (flex_groups_valid _ _ Hm) as Hok.
  apply build_outcome; by eapply field_val_some.
Qed.

(** ** What a pattern leaves of a text

    Away from [^], what a pattern can consume depends on the text alone, not
    on the position or on the groups captured so far. *)

Lemma Forall2_flat_map {A B} (R : A → A → Prop) (R' : B → B → Prop)
    (f g : A → list B) l1 l2 :
  Forall2 R l1 l2 →
  (∀ a b, R a b → Forall2 R' (f a) (g b)) →
  Forall2 R' (flat_map f l1) (flat_map g l2).
Proof.
  intros Hl Hfg. induction Hl; simpl; [constructor|].
  apply Forall2_app; auto.
Qed.

Lemma run_star_same_rest k p p' s m m' :
  Forall2 same_rest (run_star k p s m) (run_star k p' s m').
Proof.
  revert p p'. induction s as [|c s IH]; intros p p'; simpl.
  - by repeat constructor.
  - destruct (in_class k c).
    + apply Forall2_app; [apply IH|by repeat constructor].
    + by repeat constructor.
Qed.

Lemma run_chr_same_rest ok st1 st2 :
  same_rest st1 st2 → Forall2 same_rest (run_chr ok st1) (run_chr ok st2).
Proof.
  unfold same_rest, run_chr. intros ->.
  destruct (rest st2) as [|c s]; [constructor|].
  destruct (ok c); by repeat constructor.
Qed.

Lemma run_same_rest r st1 st2 :
  nobol r = true → same_rest st1 st2 →
  Forall2 same_rest (run r st1) (run r st2).
Proof.
  revert st1 st2.
  induction r as [| | |c|cs|r1 IHr1 r2 IHr2|r1 IHr1 r2 IHr2|r IHr|k|k|n r IHr];
    intros st1 st2 Hr Hst; simpl in *; try done.
  - by repeat constructor.
  - unfold same_rest in Hst. rewrite Hst.
    destruct (at_end (rest st2)); by repeat constructor.
  - by apply run_chr_same_rest.
  - by apply run_chr_same_rest.
  - apply andb_prop in Hr as [H1 H2].
    eapply Forall2_flat_map; [by apply IHr1|]. intros a b Hab. by apply IHr2.
  - apply andb_prop in Hr as [H1 H2]. apply Forall2_app; auto.
  - apply Forall2_app; [auto|by repeat constructor].
  - unfold same_rest in Hst. rewrite Hst. apply run_star_same_rest.
  - eapply Forall2_flat_map; [by apply run_chr_same_rest|].
    intros a b Hab. unfold same_rest in Hab. rewrite Hab.
    apply run_star_same_rest.
  - specialize (IHr _ _ Hr Hst).
    induction IHr; simpl; constructor; auto.
Qed.

Lemma Forall2_in_l {A} (R : A → A → Prop) l1 l2 x :
  Forall2 R l1 l2 → In x l1 → ∃ y, In y l2 ∧ R x y.
Proof.
  induction 1 as [|a b l1 l2 Hab Hl IH]; simpl; [done|].
  intros [<-|Hin]; [by eauto|]. destruct (IH Hin) as (y & ? & ?). eauto.
Qed.

Lemma reach_run r st st' :
  nobol r = true → In st' (run r st) → reach r (rest st) (rest st').
Proof.
  intros Hr Hin.
  destruct (Forall2_in_l _ _ _ _
    (run_same_rest r st (MState 0 (rest st) ∅) Hr eq_refl) Hin)
    as (y & Hy & Hxy).
  by exists y.
Qed.

Lemma run_reach r st s' :
  nobol r = true → reach r (rest st) s' →
  ∃ st', In st' (run r st) ∧ rest st' = s'.
Proof.
  intros Hr (y & Hin & Hy).
  destruct (Forall2_in_l _ _ _ _
    (run_same_rest r (MState 0 (rest st) ∅) st Hr eq_refl) Hin)
    as (x & Hx & Hxy).
  exists x. split; [done|]. unfold same_rest in Hxy. congruence.
Qed.

Lemma reach_cat r1 r2 s s'' :
  nobol r2 = true →
  reach (Cat r1 r2) s s'' ↔ ∃ s', reach r1 s s' ∧ reach r2 s' s''.
Proof.
  intros H2. split.
  - intros (st'' & (mid & Hmid & Hin)%in_flat_map & <-).
    exists (rest mid). split; [by exists mid|by apply reach_run].
  - intros (s' & (mid & Hmid & <-) & Hr2).
    destruct (run_reach r2 mid s'' H2 Hr2) as (st'' & Hin & <-).
    exists st''. split; [|done]. apply in_flat_map. eauto.
Qed.

Lemma reach_opt r s s' : reach (Opt r) s s' ↔ reach r s s' ∨ s' = s.
Proof.
  split.
  - intros (st' & [Hin|[<-|[]]]%in_app_or & <-); [left; by exists st'|by right].
  - intros [(st' & Hin & <-)| ->].
    + exists st'. split; [|done]. simpl. apply in_or_app. by left.
    + exists (MState 0 s ∅).
      split; [simpl; apply in_or_app; right; by left|done].
Qed.

Lemma reach_alt r1 r2 s s' :
  reach (Alt r1 r2) s s' ↔ reach r1 s s' ∨ reach r2 s s'.
Proof.
  split.
  - intros (st' & [Hin|Hin]%in_app_or & <-); [left|right]; by exists st'.
  - intros [(st' & Hin & <-)|(st' & Hin & <-)]; exists st';
      (split; [simpl; apply in_or_app; auto|done]).
Qed.

Lemma reach_named name r s s' : reach (Named name r) s s' ↔ reach r s s'.
Proof.
  split.
  - intros (st' & (x & <- & Hx)%in_map_iff & <-). by exists x.
  - intros (x & Hx & <-). exists (capture name (MState 0 s ∅) x).
    split; [|done]. simpl. apply in_map_iff. eauto.
Qed.

Lemma reach_chr c s s' : reach (Chr c) s s' ↔ s = c :: s'.
Proof.
  split.
  - intros (st' & (x & Hx & [Hc _] & _)%run_chr_lang & <-).
    apply bool_decide_eq_true in Hx as ->. simpl in Hc. by rewrite Hc.
  - intros ->. exists (MState 1 s' ∅). split; [|done]. simpl.
    unfold run_chr. simpl. rewrite bool_decide_eq_true_2 by done. by left.
Qed.

Lemma reach_star k s s' :
  reach (Star k) s s' ↔ ∃ w, s = w ++ s' ∧ forallb (in_class k) w = true.
Proof.
  split.
  - intros (st' & (w & [Hc _] & Hw & _)%run_star_lang & <-). by exists w.
  - intros (w & -> & Hw). unfold reach. simpl.
    rewrite run_star_app by done. clear Hw.
    exists (MState (0 + length w) s' ∅). split; [|done].
    apply in_or_app. left. destruct s' as [|c s']; simpl; [by left|].
    destruct (in_class k c); [apply in_or_app; right|]; by left.
Qed.

Lemma reach_plus k s s' :
  reach (Plus k) s s' ↔
  ∃ w, w ≠ [] ∧ s = w ++ s' ∧ forallb (in_class k) w = true.
Proof.
  split.
  - intros (st' & Hin & <-). destruct (run_lang _ _ _ Hin) as (w & [Hc _] & Hl).
    inversion Hl; subst. by exists w.
  - intros ([|c w] & Hne & -> & Hw); [done|]. simpl in Hw.
    apply andb_prop in Hw as [Hc Hw].
    destruct (proj2 (reach_star k (w ++ s') s')) as (st' & Hin & Hst');
      [by exists w|].
    destruct (run_reach (Star k) (MState 1 (w ++ s') ∅) s' eq_refl)
      as (st2 & Hin2 & Hst2); [by exists st'|].
    exists st2. split; [|done]. simpl. unfold run_chr. simpl. rewrite Hc.
    simpl. rewrite app_nil_r. exact Hin2.
Qed.

Lemma reach_eol s s' : reach Eol s s' ↔ s' = s ∧ at_end s = true.
Proof.
  unfold reach. simpl. destruct (at_end s); split.
  - by intros (st' & [<-|[]] & <-).
  - intros [-> _]. exists (MState 0 s ∅). split; [by left|done].
  - by intros (st' & [] & _).
  - by intros [_ ?].
Qed.

(** ** The minus sign in the flexible pattern

    Every component but the last ends with [\W*], and ['-'] is a non-word
    character: the greedy [\W*] takes a minus sign that follows it before the
    next number is tried, and the number matches as well without it.  So a
    minus sign is part of a number only where no [\W*] comes before the
    number, at the start of the text. *)

Lemma run_alive K st :
  nobol K = true → run K st ≠ [] ↔ alive K (rest st).
Proof.
  intros HK. split.
  - destruct (run K st) as [|x l] eqn:Hrun; [done|]. intros _.
    exists (rest x). apply reach_run; [done|]. rewrite Hrun. by left.
  - intros (s' & Hs'). destruct (run_reach K st s' HK Hs') as (x & Hx & _).
    by destruct (run K st).
Qed.

Lemma run_star_self k p s m : In (MState p s m) (run_star k p s m).
Proof.
  destruct s as [|c s]; simpl; [by left|].
  destruct (in_class k c); [apply in_or_app; right|]; by left.
Qed.

(** The first match after a greedy repetition: the repetition stopped where
    one more character would have left no match. *)
Lemma head_star_then {B} (f : mstate → list B) k p s m fin :
  head (flat_map f (run_star k p s m)) = Some fin →
  ∃ y, In y (run_star k p s m) ∧ head (f y) = Some fin
       ∧ ∀ c u, rest y = c :: u → in_class k c = true →
                f (MState (S (pos y)) u m) = [].
Proof.
  revert p. induction s as [|c s IH]; intros p; simpl.
  - rewrite app_nil_r. intros Hf. exists (MState p [] m).
    split; [by left|]. by split.
  - destruct (in_class k c) eqn:Hc.
    + rewrite flat_map_app. simpl. rewrite app_nil_r.
      destruct (flat_map f (run_star k (S p) s m)) as [|b l] eqn:Hl.
      * simpl. intros Hf. exists (MState p (c :: s) m).
        split; [apply in_or_app; right; by left|]. split; [done|].
        simpl. intros c' u [= <- <-] _.
        destruct (f (MState (S p) s m)) as [|b l] eqn:Hfs; [done|].
        assert (In b (flat_map f (run_star k (S p) s m))) as Hin.
        { apply in_flat_map. exists (MState (S p) s m).
          split; [apply run_star_self|]. rewrite Hfs. by left. }
        by rewrite Hl in Hin.
      * intros Hf. destruct (IH (S p)) as (y & Hy & Hfy & Hg).
        { by rewrite Hl. }
        exists y. split; [apply in_or_app; by left|done].
    + simpl. rewrite app_nil_r. intros Hf. exists (MState p (c :: s) m).
      split; [by left|]. split; [done|]. simpl. intros c' u [= <- <-]. congruence.
Qed.

Lemma filler_no_new_minus K :
  nobol K = true → swallows K → new_minus_at_start K →
  no_new_minus (Star NonWord ⋅ K).
Proof.
  intros HK Hsw Hstart st fin Hfin name q t Hname. simpl in Hfin.
  apply head_star_then in Hfin as (y & Hy & Hfy & Hgreedy).
  pose proof (run_star_marks _ _ _ _ _ Hy) as Hmarks.
  destruct (Hstart y fin Hfy name q t Hname) as [Hold|(-> & u & Hu)];
    [by rewrite <-Hmarks|].
  exfalso. specialize (Hgreedy _ _ Hu eq_refl).
  apply (proj2 (run_alive K (MState (S (pos y)) u (marks st)) HK)); [|done].
  simpl. apply Hsw. rewrite <-Hu. apply (run_alive K y HK).
  by destruct (run K y).
Qed.

Lemma run_no_groups r st st' :
  group_names r = [] → In st' (run r st) → marks st' = marks st.
Proof.
  revert st st'.
  induction r as [| | |c|cs|r1 IHr1 r2 IHr2|r1 IHr1 r2 IHr2|r IHr|k|k|n r IHr];
    intros st st' Hr; simpl in *; try (by intros [<-|[]]).
  - destruct (pos st =? 0)%nat; [|done]. by intros [<-|[]].
  - destruct (at_end (rest st)); [|done]. by intros [<-|[]].
  - apply run_chr_marks.
  - apply run_chr_marks.
  - apply app_eq_nil in Hr as [H1 H2].
    intros (mid & Hmid & Hin)%in_flat_map.
    by rewrite (IHr2 _ _ H2 Hin), (IHr1 _ _ H1 Hmid).
  - apply app_eq_nil in Hr as [H1 H2]. intros [Hin|Hin]%in_app_or; eauto.
  - intros [Hin|[<-|[]]]%in_app_or; eauto.
  - destruct st as [p s m]. apply run_star_marks.
  - intros (mid & Hmid%run_chr_marks & Hin)%in_flat_map.
    destruct mid as [p s m]. apply run_star_marks in Hin. simpl in *.
    by rewrite Hin, Hmid.
  - done.
Qed.

Lemma number_captures_one name X :
  group_names X = [] → captures_one name (Named name number ⋅ X).
Proof.
  intros HX st x Hx.
  change (run (Named name number ⋅ X) st)
    with (flat_map (run X) (map (capture name st) (run number st))) in Hx.
  apply in_flat_map in Hx as (x1 & (x0 & <- & Hx0)%in_map_iff & Hx).
  destruct (run_lang _ _ _ Hx0) as (w & Hc & _).
  rewrite (run_no_groups _ _ _ HX Hx), (capture_consumed _ w) by done. simpl.
  rewrite (run_no_groups number _ _ eq_refl Hx0).
  exists w, (rest x0). split; [done|apply Hc].
Qed.

Lemma captures_one_minus name pre st x n q t :
  captures_one name pre → In x (run pre st) →
  marks x !! n = Some (q, "-"%char :: t) →
  marks st !! n = Some (q, "-"%char :: t)
  ∨ (q = pos st ∧ ∃ u, rest st = "-"%char :: u).
Proof.
  intros Hpre Hx. destruct (Hpre _ _ Hx) as (w & s1 & -> & Hrest).
  destruct (decide (n = name)) as [->|Hne].
  - rewrite lookup_insert_eq. intros [= <- ->]. right. split; [done|].
    rewrite Hrest. by exists (t ++ s1).
  - rewrite lookup_insert_ne by done. by left.
Qed.

Lemma head_in {A} (l : list A) x : head l = Some x → In x l.
Proof. destruct l; [done|]. intros [= <-]. by left. Qed.

(** The last component: nothing after it captures a group. *)
Lemma last_minus_at_start name pre K :
  captures_one name pre → group_names K = [] →
  new_minus_at_start (Opt pre ⋅ K).
Proof.
  intros Hpre HK st fin Hfin%head_in n q t.
  change (run (Opt pre ⋅ K) st)
    with (flat_map (run K) (run pre st ++ [st])) in Hfin.
  apply in_flat_map in Hfin as (x & [Hx|[<-|[]]]%in_app_or & Hin);
    rewrite (run_no_groups _ _ _ HK Hin).
  - by eapply captures_one_minus.
  - by left.
Qed.

(** A component that ends with [\W*]. *)
Lemma component_minus_at_start name pre K :
  captures_one name pre →
  no_new_minus (Star NonWord ⋅ K) → new_minus_at_start K →
  new_minus_at_start (Opt (pre ⋅ Star NonWord) ⋅ K).
Proof.
  intros Hpre Hno Hstart st fin Hfin n q t Hn.
  change (run (Opt (pre ⋅ Star NonWord) ⋅ K) st)
    with (flat_map (run K) (flat_map (run (Star NonWord)) (run pre st) ++ [st]))
    in Hfin.
  rewrite flat_map_app, flat_map_assoc in Hfin. cbn [flat_map] in Hfin.
  rewrite app_nil_r in Hfin.
  match type of Hfin with head (?L ++ _) = _ => destruct L as [|b l] eqn:Hl end.
  - by apply (Hstart st fin).
  - rewrite head_app_nonempty, <-Hl in Hfin by done.
    apply head_flat_map in Hfin as (l1 & x & l2 & Hrun & _ & Hx).
    assert (In x (run pre st)) as Hin.
    { rewrite Hrun. apply in_or_app. right. by left. }
    eapply captures_one_minus; [done..|].
    by apply (Hno x fin).
Qed.

(** The same for a pattern that makes the same attempts. *)
Lemma new_minus_at_start_ext K K' :
  (∀ st, run K st = run K' st) →
  new_minus_at_start K → new_minus_at_start K'.
Proof. intros Heq HK st fin. rewrite <-Heq. apply HK. Qed.

Lemma run_cat_assoc a b c st :
  run (a ⋅ (b ⋅ c)) st = run ((a ⋅ b) ⋅ c) st.
Proof. cbn [run]. symmetry. apply flat_map_assoc. Qed.

Lemma run_cat_ext a b b' :
  (∀ st, run b st = run b' st) → ∀ st, run (a ⋅ b) st = run (a ⋅ b') st.
Proof. intros Hb st. cbn [run]. apply flat_map_ext. intros x. apply Hb. Qed.

Lemma run_component name U K st :
  run (component name U ⋅ K) st
  = run (Opt ((Named name number ⋅ Star NonWord ⋅ U ⋅ Opt (Chr ","))
              ⋅ Star NonWord) ⋅ K) st.
Proof.
  unfold component.
  change (flat_map (run K)
            (run (Named name number ⋅ Star NonWord ⋅ U ⋅ Opt (Chr ",")
                  ⋅ Star NonWord) st ++ [st])
          = flat_map (run K)
              (run ((Named name number ⋅ Star NonWord ⋅ U ⋅ Opt (Chr ","))
                    ⋅ Star NonWord) st ++ [st])).
  do 2 f_equal.
  etrans; [apply run_cat_ext; intros; apply run_cat_ext; intros;
           apply run_cat_assoc|].
  etrans; [apply run_cat_ext; intros; apply run_cat_assoc|].
  apply run_cat_assoc.
Qed.

(** A number that starts at a minus sign consumes it; the rest of the number
    matches without it. *)
Lemma number_minus u s' :
  reach number ("-"%char :: u) s' → reach number u s'.
Proof.
  unfold number. rewrite !reach_cat by done.
  intros (s1 & [Hs1%reach_chr| ->]%reach_opt & Halt).
  - injection Hs1 as <-. exists u. split; [|done]. apply reach_opt. by right.
  - exfalso. apply reach_alt in Halt as [H|H].
    + rewrite reach_cat in H by done.
      destruct H as (s2 & (w & Hw & Hd)%reach_star & H).
      destruct w as [|c w]; [|by injection Hw as <-].
      simpl in Hw. subst s2. rewrite reach_cat in H by done.
      by destruct H as (s3 & [=]%reach_chr & _).
    + apply reach_plus in H as ([|c w] & Hne & Hw & Hd); [done|].
      by injection Hw as <-.
Qed.

Lemma component_swallows name X K :
  nobol X = true → nobol K = true →
  swallows K → swallows (Opt (Named name number ⋅ X) ⋅ K).
Proof.
  intros HX HK Hsw u (s' & Hs').
  rewrite reach_cat in Hs' by done.
  destruct Hs' as (s1 & [Hin| ->]%reach_opt & HK1).
  - exists s'. apply reach_cat; [done|]. exists s1. split; [|done].
    apply reach_opt. left. rewrite reach_cat in Hin by done.
    destruct Hin as (s0 & Hnum%reach_named%number_minus & HX0).
    apply reach_cat; [done|]. exists s0. split; [by apply reach_named|done].
  - destruct (Hsw u) as (s'' & Hs''); [by exists s'|].
    exists s''. apply reach_cat; [done|]. exists u. split; [|done].
    apply reach_opt. by right.
Qed.

Lemma swallows_ext K K' :
  nobol K = true → nobol K' = true →
  (∀ st, run K st = run K' st) → swallows K → swallows K'.
Proof.
  intros HK HK' Heq Hsw u Hu.
  apply (run_alive K' (MState 0 u ∅) HK'). rewrite <-Heq.
  apply (run_alive K (MState 0 u ∅) HK), Hsw.
  apply (run_alive K (MState 0 ("-"%char :: u) ∅) HK). rewrite Heq.
  by apply (run_alive K' (MState 0 ("-"%char :: u) ∅) HK').
Qed.

Lemma tail_swallows : swallows (Star NonWord ⋅ Eol).
Proof.
  intros u (s' & Hs'). rewrite reach_cat in Hs' by done.
  destruct Hs' as (s1 & (w & Hw & Hnw)%reach_star & [-> Hend]%reach_eol).
  destruct w as [|c w]; simpl in Hw.
  - subst s1. by destruct u.
  - injection Hw as <- ->. simpl in Hnw. exists s1.
    apply reach_cat; [done|]. exists s1. split; [|by apply reach_eol].
    apply reach_star. by exists w.
Qed.

Lemma flex_pattern_from_weeks : flex_pattern = (Bol ⋅ flex_from_weeks)%re.
Proof. reflexivity. Qed.

(** One step of the argument: a component in front of [K]. *)
Lemma component_step name U K :
  nobol U = true → group_names U = [] → nobol K = true →
  swallows K → new_minus_at_start K →
  swallows (component name U ⋅ K)
  ∧ new_minus_at_start (component name U ⋅ K).
Proof.
  intros HU HUg HK Hsw Hstart. split.
  - apply (component_swallows name
             (Star NonWord ⋅ U ⋅ Opt (Chr ",") ⋅ Star NonWord) K); try done.
    simpl. by rewrite HU.
  - apply (new_minus_at_start_ext
             (Opt ((Named name number ⋅ Star NonWord ⋅ U ⋅ Opt (Chr ","))
                   ⋅ Star NonWord) ⋅ K));
      [intros st; symmetry; apply run_component|].
    apply (component_minus_at_start name); [| |done].
    + apply (number_captures_one name (Star NonWord ⋅ U ⋅ Opt (Chr ","))).
      simpl. by rewrite HUg.
    + by apply filler_no_new_minus.
Qed.

Lemma flex_from_weeks_minus :
  new_minus_at_start flex_from_weeks.
Proof.
  assert (swallows flex_from_seconds ∧ new_minus_at_start flex_from_seconds)
    as [Hs1 Hs2].
  { split.
    - apply (component_swallows "seconds" (Star NonWord ⋅ unit_seconds));
        try done. apply tail_swallows.
    - apply (last_minus_at_start "seconds"); [|done].
      by apply (number_captures_one _ (Star NonWord ⋅ unit_seconds)). }
  destruct (component_step "minutes" unit_minutes flex_from_seconds)
    as [Hm1 Hm2]; try done.
  destruct (component_step "hours" unit_hours flex_from_minutes)
    as [Hh1 Hh2]; try done.
  destruct (component_step "days" unit_days flex_from_hours)
    as [Hd1 Hd2]; try done.
  by destruct (component_step "weeks" unit_weeks flex_from_days).
Qed.
(** In a match of the flexible pattern, a group whose text starts with a minus
    sign starts at index 0 of the text. *)
Theorem flex_minus_at_index_0 s m name q t :
  re_match flex_pattern s = Some m →
  m !! name = Some (q, "-"%char :: t) → q = 0%nat.
Proof.
  unfold re_match. rewrite flex_pattern_from_weeks.
  change (run (Bol ⋅ flex_from_weeks) (MState 0 s ∅))
    with (run flex_from_weeks (MState 0 s ∅) ++ []).
  rewrite app_nil_r.
  destruct (head _) as [fin|] eqn:Hfin; [|done]. intros [= <-] Hname.
  destruct (flex_from_weeks_minus _ _ Hfin _ _ _ Hname) as [Hold|[-> _]];
    [|done].
  cbn [marks] in Hold. by rewrite lookup_empty in Hold.
Qed.

(** ** Texts without a digit *)

Lemma digits_exists w :
  w ≠ [] → forallb (in_class Digit) w = true → existsb is_digit w = true.
Proof.
  destruct w as [|c w]; [done|]. simpl. by intros _ [-> _]%andb_prop.
Qed.

Ltac find_digit :=
  rewrite ?existsb_app;
  match goal with
  | H1 : ?w ≠ [], H2 : forallb (in_class Digit) ?w = true |- _ =>
      rewrite (digits_exists w H1 H2)
  end;
  repeat (rewrite orb_true_l || rewrite orb_true_r); reflexivity.

Lemma lang_number_digit w : lang number w → existsb is_digit w = true.
Proof. unfold number. intros H. inv_lang; find_digit. Qed.

Lemma lang_db_digit w : lang db_pattern w → existsb is_digit w = true.
Proof. unfold db_pattern. intros H. inv_lang; find_digit. Qed.

Lemma filler_no_digit w s :
  filler (w ++ s) → existsb is_digit w = true → False.
Proof.
  unfold filler. rewrite forallb_app. intros [Hw _]%andb_prop.
  induction w as [|c w IH]; simpl in *; [done|].
  apply andb_prop in Hw as [Hc Hw].
  rewrite (nonword_not_digit c Hc). simpl. auto.
Qed.

(** A pattern whose texts all hold a digit finds nothing in a filler. *)
Lemma run_filler_dead r st :
  (∀ w, lang r w → existsb is_digit w = true) →
  filler (rest st) → run r st = [].
Proof.
  intros Hr Hst. destruct (run r st) as [|x l] eqn:Hrun; [done|].
  destruct (run_lang r st x) as (w & [Hw _] & Hl); [rewrite Hrun; by left|].
  rewrite Hw in Hst. destruct (filler_no_digit _ _ Hst (Hr _ Hl)).
Qed.

Lemma re_match_db_filler s : filler s → re_match db_pattern s = None.
Proof.
  intros Hs. unfold re_match.
  by rewrite (run_filler_dead db_pattern (MState 0 s ∅) lang_db_digit Hs).
Qed.

Section FlexFiller.
Context {A : Type}.
Implicit Types (k : mstate → list A) (st : mstate).

(** An optional part that starts with a number is left out. *)
Lemma step_opt_number_filler k name X st :
  filler (rest st) →
  flat_map k (run (Opt (Named name number ⋅ X)) st) = k st.
Proof.
  intros Hst. rewrite step_opt, step_cat, step_named.
  by rewrite (run_filler_dead number _ lang_number_digit Hst).
Qed.

Lemma flex_filler k s :
  filler s →
  ∃ l, flat_map k (run flex_pattern (MState 0 s ∅))
       = k (MState (length s) [] ∅) ++ l.
Proof.
  intros Hs. unfold flex_pattern, component.
  rewrite step_cat, step_bol.
  do 5 (rewrite step_cat, step_opt_number_filler by done).
  rewrite step_cat. cbn [run pos rest marks].
  replace (run_star NonWord 0 s ∅) with (run_star NonWord 0 (s ++ []) ∅)
    by (by rewrite app_nil_r).
  rewrite run_star_app by done.
  cbn [run_star]. rewrite flat_map_app. cbn [flat_map rest at_end Nat.add].
  rewrite !app_nil_r. by eexists.
Qed.
End FlexFiller.

Lemma re_match_flex_filler s : filler s → re_match flex_pattern s = Some ∅.
Proof.
  intros Hs. unfold re_match. rewrite run_as_steps.
  destruct (flex_filler (λ x, [x]) s Hs) as (l & ->). done.
Qed.

(** ** The message of the error carries the input *)

Lemma string_app_length (s t : string) :
  String.length (s +:+ t) = (String.length s + String.length t)%nat.
Proof. induction s as [|c s IH]; simpl; [done|]. by rewrite IH. Qed.

Lemma string_app_cancel_r (s s' t : string) : s +:+ t = s' +:+ t → s = s'.
Proof.
  revert s'. induction s as [|c s IH]; intros [|c' s']; simpl; try done.
  - intros H. apply (f_equal String.length) in H.
    rewrite !string_app_length in H. simpl in H. lia.
  - intros H. apply (f_equal String.length) in H.
    rewrite !string_app_length in H. simpl in H. lia.
  - intros [= -> H]. f_equal. by apply IH.
Qed.

Lemma invalid_interval_inj s s' :
  invalid_interval s = invalid_interval s' → s = s'.
Proof.
  unfold invalid_interval. intros [= H].
  exact (string_app_cancel_r s s' _ H).
Qed.

Lemma digit_val_nonneg c : is_digit c = true → 0 ≤ digit_val c.
Proof.
  unfold is_digit, between, digit_val, code. intros [H _]%andb_prop.
  apply N.leb_le in H. change (N_of_ascii "0") with 48%N in H. lia.
Qed.

Lemma digits_val_nonneg ds : forallb is_digit ds = true → 0 ≤ digits_val ds.
Proof.
  unfold digits_val.
  assert (∀ acc, 0 ≤ acc → forallb is_digit ds = true →
                 0 ≤ fold_left (λ acc c, acc * 10 + digit_val c) ds acc) as H.
  { induction ds as [|c ds IH]; intros acc Hacc; simpl; [done|].
    intros [Hc Hds]%andb_prop. pose proof (digit_val_nonneg c Hc).
    apply IH; [lia|done]. }
  by apply H.
Qed.

(** ** The claims *)

Lemma total_seconds_whole d s :
  total_seconds (Timedelta d s 0) = Qc_of_Z (d * 86400 + s).
Proof.
  apply Qc_is_canon. unfold total_seconds, total_microseconds. simpl.
  rewrite Qred_correct. unfold Qeq. simpl. lia.
Qed.

Lemma re_match_flex_empty : re_match flex_pattern [] = Some ∅.
Proof. reflexivity. Qed.

(** C1, as the code has it.  In a match of the flexible pattern a group whose
    text starts with ['-'] starts at index 0 of the input: only a number that
    nothing precedes keeps its minus sign.  That sign negates the field of
    its own group, and [parse] converts every group from its own text.  A
    ['-'] after an earlier component belongs to the filler before the number:
    in the input of the docstring the groups are -1, 2, 3, 4 and 5. *)
Theorem flexible_minus_sign (s : string) (m : caps) (name : string) (t : chars) :
  re_match db_pattern (text_type s) = None →
  re_match flex_pattern (text_type s) = Some m →
  group m name = Some ("-"%char :: t) →
  group_start m name = Some 0%nat
  ∧ (∃ q, unsigned_val t = Some q
          ∧ field_val (group m name) = Some (float_opp q))
  ∧ parse s = flex_build (group m "weeks") (group m "days") (group m "hours")
                         (group m "minutes") (group m "seconds")
  ∧ parse mixed_signs = Ok (Timedelta (-5) 11045 0).
Proof.
  intros Hdb Hflex Hname. split; [|split; [|split]].
  - unfold group, group_start in *.
    destruct (m !! name) as [[q t']|] eqn:Hm; [|done].
    simpl in Hname. injection Hname as ->. simpl. f_equal.
    by eapply flex_minus_at_index_0.
  - pose proof (caps_ok_group _ _ _ _ (flex_groups_valid _ _ Hflex) Hname)
      as [q Hq].
    rewrite Hname. cbn [field_val]. rewrite float_minus in Hq |- *.
    destruct (unsigned_val t) as [q'|]; [|done]. by exists q'.
  - rewrite parse_groups, Hdb, Hflex. case_bool_decide as Hs; [|done].
    subst s. change (text_type "") with (@nil ascii) in Hflex.
    rewrite re_match_flex_empty in Hflex. injection Hflex as <-.
    unfold group in Hname. by rewrite lookup_empty in Hname.
  - by vm_compute.
Qed.

Lemma flexible_minus_sign_witness :
  re_match db_pattern (text_type "-2 days") = None
  ∧ re_match flex_pattern (text_type "-2 days") = Some minus_two_days
  ∧ group minus_two_days "days" = Some (text_type "-2")
  ∧ group_start minus_two_days "days" = Some 0%nat.
Proof.
  assert (re_match db_pattern (text_type "-2 days") = None) as H1
    by (vm_compute; reflexivity).
  assert (re_match flex_pattern (text_type "-2 days") = Some minus_two_days)
    as H2 by (vm_compute; reflexivity).
  assert (group minus_two_days "days" = Some (text_type "-2")) as H3
    by (vm_compute; reflexivity).
  split; [exact H1|]. split; [exact H2|]. split; [exact H3|].
  exact (proj1 (flexible_minus_sign "-2 days" minus_two_days "days"
                  (text_type "2") H1 H2 H3)).
Defined.

Lemma flexible_minus_sign_counterexample :
  ∃ m, re_match flex_pattern (text_type mixed_signs) = Some m
       ∧ group m "hours" = Some (text_type "3")
       ∧ group m "seconds" = Some (text_type "5")
       ∧ parse mixed_signs = Ok (Timedelta (-5) 11045 0)
       ∧ total_microseconds (Timedelta (-5) 11045 0)
         ≠ (-1 * 604800 + 2 * 86400 + -3 * 3600 + 4 * 60 + -5) * 1000000.
Proof.
  eexists. split; [vm_compute; reflexivity|]. by vm_compute.
Qed.

Lemma re_match_db_empty : re_match db_pattern [] = None.
Proof. reflexivity. Qed.

(** What [parse] does with a match of the database pattern whose sign is
    ['-']. *)
Lemma parse_db_minus s m :
  re_match db_pattern (text_type s) = Some m →
  group m "sign" = Some ["-"%char] →
  ∃ h mi,
    group m "hours" = Some h ∧ group m "minutes" = Some mi
    ∧ digits h ∧ digits mi
    ∧ parse s
      = match group m "seconds" with
        | Some t =>
            build (Some (Finite (Qc_of_Z 0))) (field_val (group m "days"))
                  (negated (Some (float_of_Z (digits_val h))))
                  (negated (Some (float_of_Z (digits_val mi))))
                  (negated (unsigned_val t))
        | None => Raise concat_error
        end.
Proof.
  intros Hdb Hsign.
  pose proof (db_groups_valid _ _ Hdb) as Hok.
  destruct (db_groups_present _ _ Hdb) as (_ & [h Hh] & [mi Hmi]).
  assert (digits h) as Hdh by (eapply (caps_ok_group db_valid); eauto).
  assert (digits mi) as Hdmi by (eapply (caps_ok_group db_valid); eauto).
  exists h, mi. repeat (split; [done|]).
  rewrite parse_groups, Hdb. case_bool_decide as Hs.
  { subst s. change (text_type "") with (@nil ascii) in Hdb.
    by rewrite re_match_db_empty in Hdb. }
  unfold db_build. rewrite Hsign, Hh, Hmi, bool_decide_eq_true_2 by done.
  destruct (group m "seconds") as [t|]; [|done].
  by rewrite !float_minus, !unsigned_val_digits by done.
Qed.

(** C2, at the fault it shares with C4.  For every input that matches the
    database pattern with the sign ['-'], the hours, the minutes and the
    seconds are negated together when the seconds are written: ["-1:01:01"]
    is -3661 seconds, hours -1, minutes -1 and seconds -1.  When the seconds
    are left out, their dictionary entry is the integer 0 of [groupdict(0)]
    and ['-' + 0] raises: ["-0:30"] has no value. *)
Theorem clock_minus_sign (s : string) (m : caps) :
  re_match db_pattern (text_type s) = Some m →
  group m "sign" = Some ["-"%char] →
  (∃ h mi,
     group m "hours" = Some h ∧ group m "minutes" = Some mi
     ∧ digits h ∧ digits mi
     ∧ parse s
       = match group m "seconds" with
         | Some t =>
             build (Some (Finite (Qc_of_Z 0))) (field_val (group m "days"))
                   (negated (Some (float_of_Z (digits_val h))))
                   (negated (Some (float_of_Z (digits_val mi))))
                   (negated (unsigned_val t))
         | None => Raise concat_error
         end)
  ∧ parse "-1:01:01" = Ok (Timedelta (-1) 82739 0)
  ∧ total_seconds (Timedelta (-1) 82739 0) = Qc_of_Z (-3661)
  ∧ parse "-0:30" = Raise concat_error.
Proof.
  intros Hdb Hsign. split; [by apply parse_db_minus|].
  split; [by vm_compute|]. split; [|by vm_compute].
  by rewrite total_seconds_whole.
Qed.

Lemma clock_minus_sign_witness :
  re_match db_pattern (text_type "-1 day, -1:01:01")
  = Some minus_day_minus_clock
  ∧ group minus_day_minus_clock "sign" = Some ["-"%char]
  ∧ ∃ h mi,
      group minus_day_minus_clock "hours" = Some h
      ∧ group minus_day_minus_clock "minutes" = Some mi
      ∧ digits h ∧ digits mi
      ∧ parse "-1 day, -1:01:01"
        = match group minus_day_minus_clock "seconds" with
          | Some t =>
              build (Some (Finite (Qc_of_Z 0)))
                    (field_val (group minus_day_minus_clock "days"))
                    (negated (Some (float_of_Z (digits_val h))))
                    (negated (Some (float_of_Z (digits_val mi))))
                    (negated (unsigned_val t))
          | None => Raise concat_error
          end.
Proof.
  assert (re_match db_pattern (text_type "-1 day, -1:01:01")
          = Some minus_day_minus_clock) as H1 by (vm_compute; reflexivity).
  assert (group minus_day_minus_clock "sign" = Some ["-"%char]) as H2
    by (vm_compute; reflexivity).
  split; [exact H1|]. split; [exact H2|].
  exact (proj1 (clock_minus_sign "-1 day, -1:01:01" minus_day_minus_clock
                  H1 H2)).
Defined.

(** C3, with the totals the code returns.  Under 1 week = 7 days,
    1 day = 86400 s, 1 hour = 3600 s and 1 minute = 60 s the scenarios give
    86400, 3900 and 15120 seconds, -90061 seconds for ["-1 day, -1:01:01"]
    (-2 days + 82739 s) and -420955 seconds for the input with mixed signs
    (-5 days + 11045 s). *)
Theorem scenario_totals :
  parse "1 day" = Ok (Timedelta 1 0 0)
  ∧ total_seconds (Timedelta 1 0 0) = Qc_of_Z 86400
  ∧ parse "1 hour, 5 mins" = Ok (Timedelta 0 3900 0)
  ∧ total_seconds (Timedelta 0 3900 0) = Qc_of_Z 3900
  ∧ parse "4.2 hours" = Ok (Timedelta 0 15120 0)
  ∧ total_seconds (Timedelta 0 15120 0) = Qc_of_Z 15120
  ∧ parse "-1 day, -1:01:01" = Ok (Timedelta (-2) 82739 0)
  ∧ total_seconds (Timedelta (-2) 82739 0) = Qc_of_Z (-90061)
  ∧ parse mixed_signs = Ok (Timedelta (-5) 11045 0)
  ∧ total_seconds (Timedelta (-5) 11045 0) = Qc_of_Z (-420955).
Proof.
  rewrite !total_seconds_whole. by vm_compute.
Qed.

Lemma scenario_totals_counterexample :
  parse "-1 day, -1:01:01" = Ok (Timedelta (-2) 82739 0)
  ∧ total_seconds (Timedelta (-2) 82739 0) ≠ Qc_of_Z (-172861)
  ∧ parse mixed_signs = Ok (Timedelta (-5) 11045 0)
  ∧ total_seconds (Timedelta (-5) 11045 0) ≠ Qc_of_Z (-432955).
Proof.
  rewrite !total_seconds_whole.
  repeat split; try (by vm_compute); by intros ?%Z2Qc_inj.
Qed.

(** C4, the fault.  An input that matches the database pattern with the
    sign ['-'] and without seconds has no value: [groupdict(0)] gives the
    seconds the integer 0 and ['-' + 0] raises a [TypeError] that is not the
    error of an invalid interval.  So it is with ["-1:01"]; without the sign,
    or with ['+'], the same clock time is 3660 seconds. *)
Theorem clock_minus_without_seconds (s : string) (m : caps) :
  re_match db_pattern (text_type s) = Some m →
  group m "sign" = Some ["-"%char] →
  group m "seconds" = None →
  parse s = Raise concat_error
  ∧ concat_error ≠ invalid_interval s
  ∧ parse "-1:01" = Raise concat_error
  ∧ parse "1:01" = Ok (Timedelta 0 3660 0)
  ∧ parse "+1:01" = Ok (Timedelta 0 3660 0).
Proof.
  intros Hdb Hsign Hsec. split; [|split; [done|by vm_compute]].
  destruct (parse_db_minus s m Hdb Hsign) as (h & mi & _ & _ & _ & _ & ->).
  by rewrite Hsec.
Qed.

Lemma clock_minus_without_seconds_witness :
  re_match db_pattern (text_type "-1:01") = Some minus_clock
  ∧ group minus_clock "sign" = Some ["-"%char]
  ∧ group minus_clock "seconds" = None
  ∧ parse "-1:01" = Raise concat_error.
Proof.
  assert (re_match db_pattern (text_type "-1:01") = Some minus_clock) as H1
    by (vm_compute; reflexivity).
  assert (group minus_clock "sign" = Some ["-"%char]) as H2
    by (vm_compute; reflexivity).
  assert (group minus_clock "seconds" = None) as H3
    by (vm_compute; reflexivity).
  split; [exact H1|]. split; [exact H2|]. split; [exact H3|].
  exact (proj1 (clock_minus_without_seconds "-1:01" minus_clock H1 H2 H3)).
Defined.

(** C5.  [parse] refuses the empty string before it calls the matcher:
    whatever the matcher is, the result is the error of an invalid interval
    for the empty string. *)
Theorem parse_empty (matcher : regex → chars → option caps) :
  parse_with matcher "" = Raise (invalid_interval "")
  ∧ parse "" = Raise (invalid_interval "").
Proof. done. Qed.

(** C6.  An input that neither pattern matches is an invalid interval; so are
    a unit word without a number and the doubled-letter abbreviations. *)
Theorem parse_no_match (s : string) :
  re_match db_pattern (text_type s) = None →
  re_match flex_pattern (text_type s) = None →
  parse s = Raise (invalid_interval s)
  ∧ parse " hours" = Raise (invalid_interval " hours")
  ∧ parse "2 ws" = Raise (invalid_interval "2 ws")
  ∧ parse "2 ds" = Raise (invalid_interval "2 ds")
  ∧ parse "2 hs" = Raise (invalid_interval "2 hs")
  ∧ parse "2 ms" = Raise (invalid_interval "2 ms")
  ∧ parse "2 ss" = Raise (invalid_interval "2 ss").
Proof.
  intros Hdb Hflex. split; [|by vm_compute].
  rewrite parse_groups, Hdb, Hflex. by case_bool_decide.
Qed.

Lemma parse_no_match_witness :
  re_match db_pattern (text_type "2 ws") = None
  ∧ re_match flex_pattern (text_type "2 ws") = None
  ∧ parse "2 ws" = Raise (invalid_interval "2 ws").
Proof.
  assert (re_match db_pattern (text_type "2 ws") = None) as H1
    by (vm_compute; reflexivity).
  assert (re_match flex_pattern (text_type "2 ws") = None) as H2
    by (vm_compute; reflexivity).
  split; [exact H1|]. split; [exact H2|].
  exact (proj1 (parse_no_match "2 ws" H1 H2)).
Defined.

(** C7, as the code has it.  When [parse] fails on an input that is not a
    database-format clock time with a minus sign and without seconds, the
    exception is the [TypeError] of an invalid interval, whose message holds
    the input as it was given, or the [OverflowError] that
    [datetime.timedelta] raises for more than 999999999 days. *)
Theorem parse_errors (s : string) (e : exn) :
  parse s = Raise e →
  ¬ clock_sign_without_seconds s →
  (e = invalid_interval s ∨ e = OverflowError)
  ∧ (∀ s', invalid_interval s = invalid_interval s' → s = s').
Proof.
  intros Hparse Hslip. split; [|apply invalid_interval_inj].
  rewrite parse_groups in Hparse. case_bool_decide as Hs.
  - left. congruence.
  - destruct (re_match db_pattern (text_type s)) as [m|] eqn:Hdb.
    + destruct (db_build_outcome s m Hdb Hslip) as [[d Hd]|Hov];
        right; congruence.
    + destruct (re_match flex_pattern (text_type s)) as [m|] eqn:Hflex.
      * destruct (flex_build_outcome _ m Hflex) as [[d Hd]|Hov];
          right; congruence.
      * left. congruence.
Qed.

Lemma parse_errors_witness :
  parse "2 ws" = Raise (invalid_interval "2 ws")
  ∧ ¬ clock_sign_without_seconds "2 ws"
  ∧ (invalid_interval "2 ws" = invalid_interval "2 ws"
     ∨ invalid_interval "2 ws" = OverflowError).
Proof.
  assert (parse "2 ws" = Raise (invalid_interval "2 ws")) as H1
    by (vm_compute; reflexivity).
  assert (¬ clock_sign_without_seconds "2 ws") as H2.
  { intros (m & Hm & _). vm_compute in Hm. discriminate Hm. }
  split; [exact H1|]. split; [exact H2|].
  exact (proj1 (parse_errors "2 ws" (invalid_interval "2 ws") H1 H2)).
Defined.

Lemma parse_errors_counterexample :
  parse "1000000000 days" = Raise OverflowError
  ∧ OverflowError ≠ invalid_interval "1000000000 days".
Proof. by vm_compute. Qed.

(** Every text made of non-word characters only matches the flexible pattern
    without a group, and not the database pattern. *)
Lemma parse_filler (l : chars) :
  l ≠ [] → filler l →
  parse (string_of_list_ascii l) = Ok (Timedelta 0 0 0).
Proof.
  intros Hne Hl. rewrite parse_groups.
  rewrite bool_decide_eq_false_2 by by apply string_of_chars_nonempty.
  rewrite text_type_of_chars, re_match_db_filler, re_match_flex_filler by done.
  done.
Qed.

(** C9, as the code has it.  A non-empty input that matches the flexible
    pattern without any group is given the zero duration: [parse] has no
    check that a field was found. *)
Theorem no_field_is_zero (s : string) (m : caps) :
  s ≠ ""%string →
  re_match db_pattern (text_type s) = None →
  re_match flex_pattern (text_type s) = Some m →
  Forall (λ n, group m n = None) unit_names →
  parse s = Ok (Timedelta 0 0 0).
Proof.
  intros Hs Hdb Hflex Hall. rewrite parse_groups, Hdb, Hflex.
  rewrite bool_decide_eq_false_2 by done.
  assert (∀ n, n ∈ unit_names → group m n = None) as Hn
    by by apply Forall_forall.
  by rewrite !Hn by (unfold unit_names; rewrite !elem_of_cons; auto 10).
Qed.

Lemma no_field_is_zero_witness :
  ", "%string ≠ ""%string
  ∧ re_match db_pattern (text_type ", ") = None
  ∧ re_match flex_pattern (text_type ", ") = Some ∅
  ∧ parse ", " = Ok (Timedelta 0 0 0).
Proof.
  assert (", "%string ≠ ""%string) as H1 by discriminate.
  assert (re_match db_pattern (text_type ", ") = None) as H2
    by (vm_compute; reflexivity).
  assert (re_match flex_pattern (text_type ", ") = Some ∅) as H3
    by (vm_compute; reflexivity).
  assert (Forall (λ n, group (∅ : caps) n = None) unit_names) as H4
    by (repeat apply Forall_cons_2; try apply Forall_nil_2; reflexivity).
  repeat (split; [assumption|]).
  exact (no_field_is_zero ", " ∅ H1 H2 H3 H4).
Defined.

Lemma no_field_is_zero_counterexample :
  ", "%string ≠ ""%string
  ∧ re_match flex_pattern (text_type ", ") = Some ∅
  ∧ parse ", " = Ok (Timedelta 0 0 0)
  ∧ parse ", " ≠ Raise (invalid_interval ", ").
Proof. by vm_compute. Qed.

(** C10, as the code has it.  The database pattern does not bound the fields
    of a clock time: for digits [h], [mi] and optional digits [s] the result
    is [h]*3600 + [mi]*60 + [s] seconds, as long as this is less than
    1000000000 days, beyond which [datetime.timedelta] raises
    [OverflowError]. *)
Theorem clock_without_range (h mi : chars) (secs : option chars) :
  digits h → digits mi → (∀ s, secs = Some s → digits s) →
  let total := digits_val h * 3600 + digits_val mi * 60
               + from_option digits_val 0 secs in
  parse (string_of_list_ascii
           (h ++ ":"%char :: mi ++ from_option (cons ":"%char) [] secs))
  = (if total / 86400 <=? MAX_DELTA_DAYS
     then Ok (Timedelta (total / 86400) (total mod 86400) 0)
     else Raise OverflowError)
  ∧ total_seconds (Timedelta (total / 86400) (total mod 86400) 0)
    = Qc_of_Z total
  ∧ parse "0:99:99" = Ok (Timedelta 0 6039 0).
Proof.
  intros Hh Hmi Hsecs total. split; [|split; [|by vm_compute]].
  - assert (clock_tail (from_option (cons ":"%char) [] secs) secs) as Htail.
    { destruct secs as [s|]; simpl; constructor. by apply Hsecs. }
    change (h ++ ":"%char :: mi ++ ?tl) with (clock_text [] h mi tl).
    rewrite (parse_clock [] h mi _ secs) by (unfold sign_text; auto).
    unfold db_build. rewrite bool_decide_eq_false_2 by done.
    cbn [field_val]. rewrite !float_digits by done.
    assert (field_val secs = Some (float_of_Z (from_option digits_val 0 secs)))
      as ->.
    { destruct secs as [s|]; simpl; [|by rewrite float_of_Z_exact].
      apply float_digits. by apply Hsecs. }
    pose proof (digits_val_nonneg h (proj2 Hh)).
    pose proof (digits_val_nonneg mi (proj2 Hmi)).
    assert (0 ≤ from_option digits_val 0 secs).
    { destruct secs as [s|]; simpl; [|done].
      apply digits_val_nonneg, Hsecs. done. }
    rewrite <-(float_of_Z_exact 0) by done.
    cbn [build]. rewrite fields_delta_whole by (left; left; lia).
    unfold seconds_delta.
    replace (0 * 604800 + 0 * 86400 + digits_val h * 3600
             + digits_val mi * 60 + from_option digits_val 0 secs)
      with total by (unfold total; lia).
    assert (0 ≤ total) as Htotal by (unfold total; lia).
    assert (0 ≤ total / 86400) by (apply Z.div_pos; lia).
    rewrite (proj2 (Z.leb_le (- MAX_DELTA_DAYS) (total / 86400)));
      [done|unfold MAX_DELTA_DAYS; lia].
  - rewrite total_seconds_whole. f_equal.
    pose proof (Z.div_mod total 86400). lia.
Qed.

Lemma clock_without_range_witness :
  digits (text_type "0") ∧ digits (text_type "99")
  ∧ parse "0:99:99" = Ok (Timedelta 0 6039 0).
Proof.
  assert (digits (text_type "0")) as H1 by (split; [discriminate|reflexivity]).
  assert (digits (text_type "99")) as H2 by (split; [discriminate|reflexivity]).
  assert (∀ s, Some (text_type "99") = Some s → digits s) as H3
    by (intros s [= <-]; exact H2).
  repeat (split; [assumption|]).
  exact (proj1 (clock_without_range (text_type "0") (text_type "99")
                  (Some (text_type "99")) H1 H2 H3)).
Defined.

Lemma clock_without_range_counterexample :
  digits (text_type "24000000000") ∧ digits (text_type "00")
  ∧ parse "24000000000:00" = Raise OverflowError.
Proof.
  split; [split; [discriminate|reflexivity]|].
  split; [split; [discriminate|reflexivity]|]. by vm_compute.
Qed.

(** * Further properties of [parse]

    What follows is about [parse] on whole classes of inputs: which outcomes
    it has and when, what it returns on the two formats it reads, and which
    inputs it refuses. *)

(** ** A match consumes a text of the language up to the end *)

Lemma run_ends_eol r st st' :
  ends_eol r = true → In st' (run r st) → at_end (rest st') = true.
Proof.
  revert st st'. induction r; intros st st'; simpl; try done.
  - intros _. destruct (at_end (rest st)) eqn:E; [|done]. by intros [<-|[]].
  - intros Hr (mid & _ & Hin)%in_flat_map. eauto.
Qed.

Lemma at_end_cases e : at_end e = true → e = [] ∨ e = [newline].
Proof.
  destruct e as [|c [|c' e]]; simpl; [by left| |done].
  intros ->%bool_decide_eq_true. by right.
Qed.

Lemma re_match_lang r s m :
  ends_eol r = true → re_match r s = Some m →
  ∃ w e, s = w ++ e ∧ lang r w ∧ (e = [] ∨ e = [newline]).
Proof.
  intros Hr (st & Hin & _)%re_match_in.
  destruct (run_lang _ _ _ Hin) as (w & [Hw _] & Hl).
  exists w, (rest st). split; [done|]. split; [done|].
  by eapply at_end_cases, run_ends_eol.
Qed.

(** ** The first attempt that succeeds *)

Lemma re_match_first r s st' :
  first_match r (MState 0 s ∅) st' → re_match r s = Some (marks st').
Proof. unfold first_match, re_match. by intros ->. Qed.

Lemma first_steps r st st' :
  (∀ k : mstate → list mstate, flat_map k (run r st) = k st') →
  first_match r st st'.
Proof.
  intros H. unfold first_match. by rewrite run_as_steps, H.
Qed.

Section First.
Implicit Types (r a b : regex) (st x y : mstate).

Lemma first_eps st : first_match Eps st st.
Proof. done. Qed.

Lemma first_bol s m : first_match Bol (MState 0 s m) (MState 0 s m).
Proof. done. Qed.

Lemma first_eol st : at_end (rest st) = true → first_match Eol st st.
Proof. unfold first_match; simpl. by intros ->. Qed.

Lemma first_cat a b st x y :
  first_match a st x → first_match b x y → first_match (a ⋅ b) st y.
Proof.
  unfold first_match. cbn [run].
  destruct (run a st) as [|x' l]; [done|]. intros [= ->]. cbn [flat_map].
  destruct (run b x) as [|y' l']; [done|]. by intros [= ->].
Qed.

Lemma first_opt a st x : first_match a st x → first_match (Opt a) st x.
Proof.
  unfold first_match. cbn [run]. by destruct (run a st).
Qed.

Lemma first_opt_skip a st : run a st = [] → first_match (Opt a) st st.
Proof. unfold first_match. cbn [run]. by intros ->. Qed.

Lemma first_alt_l a b st x : first_match a st x → first_match (Alt a b) st x.
Proof. unfold first_match. cbn [run]. by destruct (run a st). Qed.

Lemma first_alt_r a b st x :
  run a st = [] → first_match b st x → first_match (Alt a b) st x.
Proof. unfold first_match. cbn [run]. by intros ->. Qed.

Lemma first_named name a st x :
  first_match a st x → first_match (Named name a) st (capture name st x).
Proof.
  unfold first_match. cbn [run]. by destruct (run a st) as [|? ?]; intros [= ->].
Qed.

Lemma first_chr c p s m :
  first_match (Chr c) (MState p (c :: s) m) (MState (S p) s m).
Proof.
  unfold first_match, run, run_chr. cbn [rest pos marks].
  by rewrite bool_decide_eq_true_2.
Qed.

Lemma first_one_of c cs p s m :
  c ∈ cs → first_match (OneOf cs) (MState p (c :: s) m) (MState (S p) s m).
Proof.
  intros Hc. unfold first_match, run, run_chr. cbn [rest pos marks].
  by rewrite bool_decide_eq_true_2.
Qed.

Lemma first_star k p w s m :
  forallb (in_class k) w = true → starts_with (in_class k) s = false →
  first_match (Star k) (MState p (w ++ s) m) (MState (p + length w) s m).
Proof.
  intros Hw Hs. unfold first_match. cbn [run pos rest marks].
  by rewrite run_star_app, run_star_stop.
Qed.

Lemma first_plus k p w s m :
  w ≠ [] → forallb (in_class k) w = true → starts_with (in_class k) s = false →
  first_match (Plus k) (MState p (w ++ s) m) (MState (p + length w) s m).
Proof.
  intros Hne Hw Hs. unfold first_match. destruct w as [|c w]; [done|].
  cbn [forallb] in Hw. apply andb_prop in Hw as [Hc Hw].
  cbn [run run_chr app pos rest marks]. rewrite Hc. cbn [flat_map pos rest marks].
  rewrite app_nil_r, run_star_app, run_star_stop by done.
  cbn [app head length]. by rewrite Nat.add_succ_r.
Qed.

(** A pattern that starts with a literal character finds nothing where the
    text goes on otherwise. *)
Lemma run_chr_dead c a st :
  starts_with (λ d, bool_decide (d = c)) (rest st) = false →
  run (Chr c ⋅ a) st = [].
Proof.
  intros H. rewrite run_as_steps, step_cat. by apply step_chr_no.
Qed.

Lemma run_chr1_dead c st :
  starts_with (λ d, bool_decide (d = c)) (rest st) = false →
  run (Chr c) st = [].
Proof. intros H. rewrite run_as_steps. by apply step_chr_no. Qed.
End First.

(** A group named around a first match that consumed [w]. *)
Lemma first_named_text name a p w s m p' m' :
  first_match a (MState p (w ++ s) m) (MState p' s m') →
  p' = (p + length w)%nat →
  first_match (Named name a) (MState p (w ++ s) m)
              (MState p' s (<[name := (p, w)]> m')).
Proof.
  intros H Hp. rewrite <-(capture_eq name p w s m m' p' Hp).
  by apply first_named.
Qed.

(** ** Every outcome of [parse] *)

Lemma invalid_not_concat s : invalid_interval s ≠ concat_error.
Proof. done. Qed.

Lemma re_match_db_nonempty s m :
  re_match db_pattern (text_type s) = Some m → s ≠ ""%string.
Proof. by intros Hm ->. Qed.

(** A match of the database pattern is converted, unless its sign is ['-']
    and it has no seconds. *)
Lemma db_build_cases s m :
  re_match db_pattern (text_type s) = Some m →
  (¬ clock_sign_without_seconds s
   ∧ delta_or_overflow
       (db_build (group m "days") (group m "sign") (group m "hours")
                 (group m "minutes") (group m "seconds")))
  ∨ (clock_sign_without_seconds s
     ∧ db_build (group m "days") (group m "sign") (group m "hours")
                (group m "minutes") (group m "seconds")
       = Raise concat_error).
Proof.
  intros Hm.
  destruct (decide (group m "sign" = Some ["-"%char]
                    ∧ group m "seconds" = None)) as [[Hsg Hsec]|Hno].
  - right. split; [by exists m|]. unfold db_build.
    rewrite bool_decide_eq_true_2, Hsec by done.
    by destruct (group m "hours"), (group m "minutes").
  - assert (¬ clock_sign_without_seconds s) as Hslip.
    { intros (m' & Hm' & Hsg & Hsec). rewrite Hm in Hm'.
      injection Hm' as <-. by destruct Hno. }
    left. split; [done|]. by apply (db_build_outcome s).
Qed.

Lemma delta_or_overflow_not_type r msg :
  delta_or_overflow r → r ≠ Raise (TypeError msg).
Proof. intros [[d ->]| ->]; done. Qed.

Lemma parse_unmatched s :
  re_match db_pattern (text_type s) = None →
  re_match flex_pattern (text_type s) = None →
  parse s = Raise (invalid_interval s).
Proof. intros Hdb Hflex. rewrite parse_groups, Hdb, Hflex. by case_bool_decide. Qed.

(** X2.  [parse] reports an invalid interval exactly when the input is empty
    or matches neither pattern: an input that one of the patterns matches is
    never reported as invalid. *)
Theorem invalid_interval_iff (s : string) :
  parse s = Raise (invalid_interval s)
  ↔ s = ""%string
    ∨ (re_match db_pattern (text_type s) = None
       ∧ re_match flex_pattern (text_type s) = None).
Proof.
  rewrite parse_groups. case_bool_decide as Hs.
  { split; [by left|done]. }
  destruct (re_match db_pattern (text_type s)) as [m|] eqn:Hdb.
  - split; [|by intros [?|[? _]]].
    intros Hbuild. exfalso.
    destruct (db_build_cases s m Hdb) as [[_ Hout]|[_ Hc]].
    + by destruct (delta_or_overflow_not_type _ _ Hout Hbuild).
    + by rewrite Hc in Hbuild.
  - destruct (re_match flex_pattern (text_type s)) as [m|] eqn:Hflex.
    + split; [|by intros [?|[_ ?]]].
      intros Hbuild. exfalso.
      by destruct (delta_or_overflow_not_type _ _
                     (flex_build_outcome _ _ Hflex) Hbuild).
    + split; [by right|done].
Qed.

Lemma invalid_interval_iff_witness :
  parse "1 Day" = Raise (invalid_interval "1 Day").
Proof.
  apply (proj2 (invalid_interval_iff "1 Day")). right.
  split; vm_compute; reflexivity.
Defined.

(** X3.  The [TypeError] of ['-' + 0] is raised exactly on the inputs that
    match the database pattern with the sign ['-'] and without seconds. *)
Theorem concat_error_iff (s : string) :
  parse s = Raise concat_error ↔ clock_sign_without_seconds s.
Proof.
  rewrite parse_groups. case_bool_decide as Hs.
  { split; [done|]. intros (m & Hm & _). subst s. done. }
  destruct (re_match db_pattern (text_type s)) as [m|] eqn:Hdb.
  - destruct (db_build_cases s m Hdb) as [[Hno Hout]|[Hslip Hc]].
    + split; [|done]. intros Hbuild.
      by destruct (delta_or_overflow_not_type _ _ Hout Hbuild).
    + by rewrite Hc.
  - split; [|intros (m & Hm & _); congruence].
    destruct (re_match flex_pattern (text_type s)) as [m|] eqn:Hflex; [|done].
    intros Hbuild.
    by destruct (delta_or_overflow_not_type _ _
                   (flex_build_outcome _ _ Hflex) Hbuild).
Qed.

Lemma concat_error_iff_witness : parse "-1 day, -0:30" = Raise concat_error.
Proof.
  assert (re_match db_pattern (text_type "-1 day, -0:30")
          = Some minus_half_hour) as H1 by (vm_compute; reflexivity).
  assert (group minus_half_hour "sign" = Some ["-"%char]) as H2
    by (vm_compute; reflexivity).
  assert (group minus_half_hour "seconds" = None) as H3
    by (vm_compute; reflexivity).
  apply (proj2 (concat_error_iff "-1 day, -0:30")).
  exists minus_half_hour. split; [exact H1|]. split; [exact H2|exact H3].
Defined.

(** X1.  [parse] returns a duration or raises one of three exceptions: the
    [TypeError] of an invalid interval with the input in its message, the
    [TypeError] of ['-' + 0], or the [OverflowError] of [datetime.timedelta].
    [float] never refuses the text of a group ([ValueError]) and no key is
    missing from the dictionary ([KeyError]). *)
Theorem parse_outcomes (s : string) :
  ((∃ d, parse s = Ok d)
   ∨ parse s = Raise (invalid_interval s)
   ∨ parse s = Raise concat_error
   ∨ parse s = Raise OverflowError)
  ∧ parse s ≠ Raise ValueError
  ∧ parse s ≠ Raise KeyError.
Proof.
  assert ((∃ d, parse s = Ok d) ∨ parse s = Raise (invalid_interval s)
          ∨ parse s = Raise concat_error ∨ parse s = Raise OverflowError) as H.
  { rewrite parse_groups. case_bool_decide as Hs; [by auto|].
    destruct (re_match db_pattern (text_type s)) as [m|] eqn:Hdb.
    - destruct (db_build_cases s m Hdb) as [[_ [[d ->]| ->]]|[_ ->]]; eauto.
    - destruct (re_match flex_pattern (text_type s)) as [m|] eqn:Hflex; [|auto].
      destruct (flex_build_outcome _ m Hflex) as [[d ->]| ->]; eauto. }
  split; [done|].
  destruct H as [[d ->]|[-> |[-> | ->]]]; done.
Qed.

(** ** The characters of the two patterns *)

Lemma forallb_elem_of (P : ascii → bool) w c :
  forallb P w = true → c ∈ w → P c = true.
Proof.
  intros Hw Hc. rewrite forallb_forall in Hw. by apply Hw, list_elem_of_In.
Qed.

Lemma lang_may_consume r w c : lang r w → c ∈ w → may_consume r c = true.
Proof.
  induction 1 as [| | |x|x cs Hx|r1 r2 w1 w2 _ IH1 _ IH2|r1 r2 w _ IH
                  |r1 r2 w _ IH|r w _ IH|r|k w Hw|k w _ Hw|name r w _ IH];
    cbn [may_consume]; try (by intros ?%elem_of_nil).
  - intros ->%list_elem_of_singleton. by apply bool_decide_eq_true.
  - intros ->%list_elem_of_singleton. by apply bool_decide_eq_true.
  - intros [?|?]%elem_of_app; apply orb_true_iff; auto.
  - intros ?. apply orb_true_iff; auto.
  - intros ?. apply orb_true_iff; auto.
  - done.
  - by apply forallb_elem_of.
  - by apply forallb_elem_of.
  - done.
Qed.

(** A character of a text that a pattern ending in [$] matches is one the
    pattern can consume, or the newline that [$] lets pass. *)
Lemma re_match_may_consume r s m c :
  ends_eol r = true → re_match r s = Some m → c ∈ s →
  may_consume r c = true ∨ c = newline.
Proof.
  intros Hr Hm Hc.
  apply re_match_lang in Hm as (w & e & -> & Hl & He); [|done].
  apply elem_of_app in Hc as [Hc|Hc].
  - left. by eapply lang_may_consume.
  - right. destruct He as [-> | ->].
    + by apply elem_of_nil in Hc.
    + by apply list_elem_of_singleton in Hc.
Qed.

(** A word character that is neither a digit nor a letter of a unit word is
    beyond both patterns. *)
Lemma foreign_letter c :
  is_word c = true → is_digit c = false → c ∉ unit_letters →
  may_consume db_pattern c = false ∧ may_consume flex_pattern c = false
  ∧ c ≠ newline.
Proof.
  intros Hw Hd Hc.
  assert (∀ x, x ∈ unit_letters → bool_decide (c = x) = false) as Hx.
  { intros x Hin. apply bool_decide_eq_false. by intros ->. }
  assert (∀ x, is_word x = false → bool_decide (c = x) = false) as Hnw.
  { intros x Hin. apply bool_decide_eq_false. intros ->. congruence. }
  assert (bool_decide (c ∈ ["-"; "+"]%char) = false) as Hsign.
  { apply bool_decide_eq_false.
    intros [->|[->|[]%elem_of_nil]%elem_of_cons]%elem_of_cons; done. }
  split; [|split; [|by intros ->]].
  - cbn [may_consume db_pattern Lit in_class]. rewrite Hsign, Hd.
    repeat match goal with
    | |- context [bool_decide (c = ?x)] =>
        first [ rewrite (Hnw x) by done
              | rewrite (Hx x)
                  by (unfold unit_letters; cbn; rewrite !elem_of_cons; auto 20) ]
    end.
    done.
  - cbn [may_consume flex_pattern component number unit_weeks unit_days
           unit_hours unit_minutes unit_seconds Lit in_class].
    rewrite Hd, Hw.
    repeat match goal with
    | |- context [bool_decide (c = ?x)] =>
        first [ rewrite (Hnw x) by done
              | rewrite (Hx x)
                  by (unfold unit_letters; cbn; rewrite !elem_of_cons; auto 20) ]
    end.
    done.
Qed.

(** ** Texts in which no number starts *)

Lemma starts_digit_number w s :
  w ≠ [] → forallb (in_class Digit) w = true →
  starts_with number_start (w ++ s) = true.
Proof.
  destruct w as [|c w]; [done|]. cbn. unfold number_start.
  by intros _ [-> _]%andb_prop.
Qed.

Lemma lang_number_start w s :
  lang number w → starts_with number_start (w ++ s) = true.
Proof.
  unfold number. intros H. inv_lang; cbn [app]; rewrite <-?app_assoc;
    try done; try by apply starts_digit_number.
  all: match goal with
       | H : forallb (in_class Digit) ?w = true |- _ =>
           destruct w as [|d w]; [done|];
           let Hd := fresh in
           cbn in H; apply andb_prop in H as [Hd _];
           cbn; unfold number_start; by rewrite Hd
       end.
Qed.

Lemma run_number_dead st :
  starts_with number_start (rest st) = false → run number st = [].
Proof.
  intros Hst. destruct (run number st) as [|x l] eqn:Hrun; [done|].
  destruct (run_lang number st x) as (w & [Hw _] & Hl); [rewrite Hrun; by left|].
  rewrite Hw, lang_number_start in Hst; done.
Qed.

Lemma starts_digit_db w s :
  w ≠ [] → forallb (in_class Digit) w = true →
  starts_with db_start (w ++ s) = true.
Proof.
  destruct w as [|c w]; [done|]. cbn. unfold db_start.
  by intros _ [-> _]%andb_prop.
Qed.

Lemma lang_db_start w s :
  lang db_pattern w → starts_with db_start (w ++ s) = true.
Proof.
  unfold db_pattern. intros H. inv_lang.
  all: repeat match goal with
       | H : lang Bol _ |- _ => inversion H; subst; clear H
       end.
  all: cbn [app]; rewrite <-?app_assoc;
    first [ by apply starts_digit_db
          | cbn; unfold db_start;
            match goal with
            | H : ?c ∈ _ |- context [bool_decide (?c ∈ _)] =>
                by rewrite (bool_decide_eq_true_2 _ H), orb_true_r
            end ].
Qed.

Lemma re_match_db_start s :
  starts_with db_start s = false → re_match db_pattern s = None.
Proof.
  intros Hs. destruct (re_match db_pattern s) as [m|] eqn:Hm; [|done].
  apply re_match_lang in Hm as (w & e & -> & Hl & _); [|done].
  by rewrite lang_db_start in Hs.
Qed.

(** ** The flexible pattern where no number starts *)

Section NoNumber.
Context {A : Type}.
Implicit Types (k : mstate → list A) (st : mstate).

Lemma step_opt_number_dead k name X st :
  run number st = [] →
  flat_map k (run (Opt (Named name number ⋅ X)) st) = k st.
Proof.
  intros Hst. by rewrite step_opt, step_cat, step_named, Hst.
Qed.

Lemma flex_no_number k s :
  run number (MState 0 s ∅) = [] →
  flat_map k (run flex_pattern (MState 0 s ∅))
  = flat_map k (run flex_tail (MState 0 s ∅)).
Proof.
  intros Hs. unfold flex_pattern, component.
  rewrite step_cat, step_bol.
  by do 5 (rewrite step_cat, step_opt_number_dead by done).
Qed.
End NoNumber.

(** The end of the flexible pattern finds the end of the text only through
    non-word characters. *)
Lemma run_tail_filler st : run flex_tail st ≠ [] → filler (rest st).
Proof.
  destruct (run flex_tail st) as [|x l] eqn:Hrun; [done|]. intros _.
  assert (In x (run flex_tail st)) as Hin by (rewrite Hrun; by left).
  unfold flex_tail in Hin. cbn [run] in Hin.
  apply in_flat_map in Hin as (mid & Hmid & Hx).
  destruct st as [p s m]. cbn [pos rest marks] in *.
  apply run_star_lang in Hmid as (w & [Hw _] & Hnw & _).
  cbn [rest] in Hw. subst s. unfold filler. rewrite forallb_app, Hnw.
  destruct (at_end (rest mid)) eqn:Hend; [|done].
  by destruct (at_end_cases _ Hend) as [-> | ->].
Qed.

(** Where the components find nothing, the flexible pattern matches the
    texts of non-word characters and no others. *)
Lemma re_match_flex_tail s :
  run flex_pattern (MState 0 s ∅) = run flex_tail (MState 0 s ∅) →
  re_match flex_pattern s
  = if forallb (in_class NonWord) s then Some ∅ else None.
Proof.
  intros Hs. destruct (forallb (in_class NonWord) s) eqn:Hf.
  - by apply re_match_flex_filler.
  - unfold re_match. rewrite Hs.
    destruct (run flex_tail (MState 0 s ∅)) as [|x l] eqn:Hrun; [done|].
    assert (filler s) as Hfill by (apply (run_tail_filler (MState 0 s ∅));
                                   by rewrite Hrun).
    unfold filler in Hfill. congruence.
Qed.

Lemma re_match_flex_no_number s :
  run number (MState 0 s ∅) = [] →
  re_match flex_pattern s
  = if forallb (in_class NonWord) s then Some ∅ else None.
Proof.
  intros Hs. apply re_match_flex_tail.
  rewrite (run_as_steps flex_pattern), (run_as_steps flex_tail).
  by apply flex_no_number.
Qed.

(** [parse] where neither pattern finds a number at the start. *)
Lemma parse_no_number s :
  s ≠ ""%string →
  re_match db_pattern (text_type s) = None →
  run number (MState 0 (text_type s) ∅) = [] →
  parse s = if forallb (in_class NonWord) (text_type s)
            then Ok (Timedelta 0 0 0) else Raise (invalid_interval s).
Proof.
  intros Hs Hdb Hnum. rewrite parse_groups, Hdb.
  rewrite bool_decide_eq_false_2, re_match_flex_no_number by done.
  by destruct (forallb _ _).
Qed.

(** A pattern whose texts all hold a digit finds nothing in a text without
    a digit. *)
Lemma run_no_digit_dead r st :
  (∀ w, lang r w → existsb is_digit w = true) →
  existsb is_digit (rest st) = false → run r st = [].
Proof.
  intros Hr Hst. destruct (run r st) as [|x l] eqn:Hrun; [done|].
  destruct (run_lang r st x) as (w & [Hw _] & Hl); [rewrite Hrun; by left|].
  rewrite Hw, existsb_app, (Hr _ Hl) in Hst. done.
Qed.

(** ** Inputs that hold no interval *)

(** X11.  An input that contains a word character which is neither a digit nor
    a letter of a unit word (a capital letter, an underscore, a letter such as
    [b] or [z]) is an invalid interval: the patterns know the unit words in
    lower case only. *)
Theorem parse_foreign_letter (s : string) (c : ascii) :
  c ∈ text_type s →
  is_word c = true → is_digit c = false → c ∉ unit_letters →
  parse s = Raise (invalid_interval s).
Proof.
  intros Hin Hw Hd Hc.
  destruct (foreign_letter c Hw Hd Hc) as (Hdb & Hflex & Hnl).
  apply parse_unmatched.
  - destruct (re_match db_pattern (text_type s)) as [m|] eqn:Hm; [|done].
    destruct (re_match_may_consume db_pattern _ _ c eq_refl Hm Hin);
      congruence.
  - destruct (re_match flex_pattern (text_type s)) as [m|] eqn:Hm; [|done].
    destruct (re_match_may_consume flex_pattern _ _ c eq_refl Hm Hin);
      congruence.
Qed.

Lemma parse_foreign_letter_witness :
  "D"%char ∈ text_type "1 Day"
  ∧ parse "1 Day" = Raise (invalid_interval "1 Day").
Proof.
  assert ("D"%char ∈ text_type "1 Day") as H1
    by (apply (bool_decide_unpack _); vm_compute; exact I).
  assert ("D"%char ∉ unit_letters) as H2
    by (apply (bool_decide_unpack _); vm_compute; exact I).
  split; [exact H1|].
  exact (parse_foreign_letter "1 Day" "D" H1 eq_refl eq_refl H2).
Defined.

(** X12.  An input without a digit is never a duration other than zero: it is
    the zero duration if it consists of non-word characters, and an invalid
    interval if it holds anything else, such as a unit word alone. *)
Theorem parse_without_digit (s : string) :
  s ≠ ""%string →
  existsb is_digit (text_type s) = false →
  parse s = if forallb (in_class NonWord) (text_type s)
            then Ok (Timedelta 0 0 0) else Raise (invalid_interval s).
Proof.
  intros Hs Hd. apply parse_no_number; [done| |].
  - unfold re_match.
    by rewrite (run_no_digit_dead db_pattern _ lang_db_digit).
  - by apply (run_no_digit_dead number _ lang_number_digit).
Qed.

Lemma parse_without_digit_witness :
  "days"%string ≠ ""%string
  ∧ parse "days" = Raise (invalid_interval "days").
Proof.
  assert ("days"%string ≠ ""%string) as H1 by discriminate.
  split; [exact H1|].
  exact (parse_without_digit "days" H1 eq_refl).
Defined.

(** X14.  Nothing may come before the first number.  An input whose first
    character is not a digit, a sign or a point is the zero duration if it
    consists of non-word characters, and an invalid interval otherwise,
    whatever follows the first character: a space in front of a valid interval
    makes it invalid. *)
Theorem parse_leading_text (c : ascii) (t : chars) :
  is_digit c = false → c ∉ ["-"; "+"; "."]%char →
  parse (string_of_list_ascii (c :: t))
  = if forallb (in_class NonWord) (c :: t)
    then Ok (Timedelta 0 0 0)
    else Raise (invalid_interval (string_of_list_ascii (c :: t))).
Proof.
  intros Hd Hc.
  rewrite <-(text_type_of_chars (c :: t)) at 2.
  assert (bool_decide (c = "-"%char) = false
          ∧ bool_decide (c = "+"%char) = false
          ∧ bool_decide (c = "."%char) = false) as (H1 & H2 & H3).
  { repeat split; apply bool_decide_eq_false; intros ->; apply Hc;
      rewrite !elem_of_cons; auto. }
  apply parse_no_number; [done| |]; rewrite text_type_of_chars.
  - apply re_match_db_start. cbn. unfold db_start. rewrite Hd.
    apply bool_decide_eq_false.
    intros [->|[->|[]%elem_of_nil]%elem_of_cons]%elem_of_cons; done.
  - apply run_number_dead. cbn. unfold number_start. by rewrite Hd, H1, H3.
Qed.

Lemma parse_leading_text_witness :
  parse " 1 day" = Raise (invalid_interval " 1 day").
Proof.
  apply (parse_leading_text " " (text_type "1 day") eq_refl).
  apply (bool_decide_unpack _). vm_compute. exact I.
Defined.

(** ** The database pattern on a day count and a clock time *)

Lemma run_one_of_dead cs st :
  starts_with (λ x, bool_decide (x ∈ cs)) (rest st) = false →
  run (OneOf cs) st = [].
Proof.
  intros H. rewrite run_as_steps.
  change (run (OneOf cs)) with (run_chr (λ x, bool_decide (x ∈ cs))).
  by apply step_chr_no.
Qed.

Lemma first_sign sg p s m :
  sign_text sg → starts_with is_digit s = true →
  first_match (Opt (OneOf ["-"; "+"]%char)) (MState p (sg ++ s) m)
              (MState (p + length sg) s m).
Proof.
  intros Hsg Hs. destruct Hsg as [->|[->| ->]]; cbn [app length].
  - rewrite Nat.add_0_r. apply first_opt_skip, run_one_of_dead.
    apply (starts_with_excl is_digit); [apply digit_not_sign|done].
  - rewrite Nat.add_1_r. apply first_opt, first_one_of. set_solver.
  - rewrite Nat.add_1_r. apply first_opt, first_one_of. set_solver.
Qed.

Lemma first_signed_digits sg ds p s m :
  sign_text sg → digits ds → starts_with is_digit s = false →
  first_match (Opt (OneOf ["-"; "+"]%char) ⋅ Plus Digit)
              (MState p ((sg ++ ds) ++ s) m)
              (MState (p + length (sg ++ ds)) s m).
Proof.
  intros Hsg [Hne Hds] Hs. rewrite <-app_assoc, length_app, Nat.add_assoc.
  eapply first_cat.
  - apply first_sign; [done|]. by apply digits_starts.
  - by apply first_plus.
Qed.

Section DaysPart.
Local Abbreviation days_part :=
  (Named "days" (Opt (OneOf ["-"; "+"]%char) ⋅ Plus Digit)
   ⋅ Lit " day" ⋅ Opt (Chr "s") ⋅ Opt (Chr ",") ⋅ Chr " ")%re.

(** The optional day count on its text. *)
Lemma first_days_part dsg dd plural comma s m :
  sign_text dsg → digits dd →
  ∃ p, first_match (Opt days_part)
         (MState 0 (days_text dsg dd plural comma ++ s) m)
         (MState p s (<["days" := (0%nat, dsg ++ dd)]> m)).
Proof.
  intros Hdsg Hdd. unfold days_text. destruct plural, comma; eexists.
  all: apply first_opt; rewrite <-!app_assoc, (app_assoc dsg dd).
  all: eapply first_cat;
    [apply first_named_text; [by apply first_signed_digits|reflexivity]|].
  all: cbn [text_type list_ascii_of_string app Lit].
  all: eapply first_cat;
    [do 3 (eapply first_cat; [apply first_chr|]); apply first_chr|].
  all: do 2 (eapply first_cat;
    [first [ apply first_opt, first_chr
           | by apply first_opt_skip, run_chr1_dead ]|]).
  all: apply first_chr.
Qed.
End DaysPart.

Section FullClock.
Local Abbreviation clock :=
  (Named "hours" (Plus Digit) ⋅ Chr ":" ⋅ Named "minutes" (Plus Digit)
   ⋅ Opt (Chr ":" ⋅ Named "seconds"
                      (Plus Digit ⋅ Opt (Chr "." ⋅ Plus Digit))) ⋅ Eol)%re.

(** The clock part of the database pattern on a clock time. *)
Lemma first_clock p h mi tail secs m :
  digits h → digits mi → clock_tail tail secs →
  ∃ fin, first_match clock (MState p (h ++ ":"%char :: mi ++ tail) m) fin
         ∧ ∀ name,
             group (marks fin) name
             = if bool_decide (name = "hours"%string) then Some h
               else if bool_decide (name = "minutes"%string) then Some mi
               else if bool_decide (name = "seconds"%string)
                    then match secs with
                         | Some t => Some t
                         | None => group m name
                         end
               else group m name.
Proof.
  intros Hh Hmi Htail.
  assert (∀ fin,
    (∀ k : mstate → list mstate,
       flat_map k (run (Opt (Chr ":" ⋅ Named "seconds"
                               (Plus Digit ⋅ Opt (Chr "." ⋅ Plus Digit))) ⋅ Eol)
         (MState (S (p + length h) + length mi) tail
            (<["minutes" := (S (p + length h), mi)]>
               (<["hours" := (p, h)]> m)))) = k fin) →
    first_match clock (MState p (h ++ ":"%char :: mi ++ tail) m) fin) as Hfirst.
  { intros fin Hfin. apply first_steps. intros k.
    rewrite clock_hm; [apply Hfin|done|done|by eapply clock_tail_starts]. }
  destruct Htail as [|s Hs|s f Hs Hf].
  - eexists. split; [apply Hfirst; intros k; apply clock_no_seconds|].
    intros name. cbn [marks]. unfold group.
    repeat case_bool_decide; subst; lookups; done.
  - eexists. split; [apply Hfirst; intros k; by apply clock_seconds|].
    intros name. cbn [marks]. unfold group.
    repeat case_bool_decide; subst; lookups; done.
  - eexists. split; [apply Hfirst; intros k; by apply clock_seconds_frac|].
    intros name. cbn [marks]. unfold group.
    repeat case_bool_decide; subst; lookups; done.
Qed.
End FullClock.

(** The groups of the database pattern on a day count and a clock time. *)
Lemma re_match_db_days_clock dsg dd plural comma sg h mi tail secs :
  sign_text dsg → digits dd →
  sign_text sg → digits h → digits mi → clock_tail tail secs →
  ∃ m, re_match db_pattern
         (days_text dsg dd plural comma ++ clock_text sg h mi tail) = Some m
       ∧ group m "days" = Some (dsg ++ dd) ∧ group m "sign" = Some sg
       ∧ group m "hours" = Some h ∧ group m "minutes" = Some mi
       ∧ group m "seconds" = secs.
Proof.
  intros Hdsg Hdd Hsg Hh Hmi Htail. unfold clock_text.
  destruct (first_days_part dsg dd plural comma
              (sg ++ h ++ ":"%char :: mi ++ tail) ∅ Hdsg Hdd) as (p & Hdays).
  destruct (first_clock (p + length sg) h mi tail secs
              (<["sign" := (p, sg)]> (<["days" := (0%nat, dsg ++ dd)]> ∅))
              Hh Hmi Htail) as (fin & Hclock & Hgroups).
  exists (marks fin). split.
  - apply re_match_first. unfold db_pattern.
    eapply first_cat; [apply first_bol|].
    eapply first_cat; [exact Hdays|].
    eapply first_cat; [|exact Hclock].
    apply first_named_text; [|done].
    apply first_sign; [done|]. by apply digits_starts.
  - rewrite !Hgroups. repeat (rewrite bool_decide_eq_false_2 by done).
    rewrite !bool_decide_eq_true_2 by done.
    repeat split; try (unfold group; lookups; done).
    destruct secs; [done|]. unfold group. by lookups.
Qed.

Lemma days_text_nonempty dsg dd plural comma s :
  days_text dsg dd plural comma ++ s ≠ [].
Proof.
  unfold days_text. destruct dsg; [|done]. destruct dd; [|done].
  done.
Qed.

(** [parse] on a day count and a clock time. *)
Lemma parse_days_clock_groups dsg dd plural comma sg h mi tail secs :
  sign_text dsg → digits dd →
  sign_text sg → digits h → digits mi → clock_tail tail secs →
  parse (string_of_list_ascii
           (days_text dsg dd plural comma ++ clock_text sg h mi tail))
  = db_build (Some (dsg ++ dd)) (Some sg) (Some h) (Some mi) secs.
Proof.
  intros Hdsg Hdd Hsg Hh Hmi Htail. rewrite parse_groups.
  rewrite bool_decide_eq_false_2
    by apply string_of_chars_nonempty, days_text_nonempty.
  rewrite text_type_of_chars.
  destruct (re_match_db_days_clock dsg dd plural comma sg h mi tail secs)
    as (m & -> & -> & -> & -> & -> & ->); done.
Qed.

Lemma float_signed sg ds :
  sign_text sg → digits ds →
  float_of_chars (sg ++ ds) = Some (float_of_Z (sign_of sg * digits_val ds)).
Proof.
  intros [->|[->| ->]] Hds; cbn [app]; unfold sign_of.
  - rewrite bool_decide_eq_false_2, Z.mul_1_l by done. by apply float_digits.
  - rewrite bool_decide_eq_false_2, Z.mul_1_l by done.
    rewrite float_plus. by apply unsigned_val_digits.
  - rewrite bool_decide_eq_true_2 by done.
    rewrite float_minus, unsigned_val_digits by done.
    cbn [fmap option_fmap option_map].
    rewrite <-float_of_Z_opp. do 2 f_equal; lia.
Qed.

Lemma sign_of_cases sg : sign_of sg = 1 ∨ sign_of sg = -1.
Proof. unfold sign_of. case_bool_decide; auto. Qed.

Lemma clock_tail_seconds secs :
  (∀ s, secs = Some s → digits s) → clock_tail (seconds_text secs) secs.
Proof.
  intros Hsecs. destruct secs as [s|]; cbn; constructor. by apply Hsecs.
Qed.

(** What [parse] makes of the groups of the database pattern when they are
    whole numbers, all of one sign or small enough for binary64: the days,
    and the clock time under its sign. *)
Lemma db_build_whole dd dval sg h mi secs :
  field_val dd = Some (float_of_Z dval) →
  sign_text sg → digits h → digits mi →
  (∀ s, secs = Some s → digits s) → (sg = ["-"%char] → secs ≠ None) →
  one_sign 0 dval (sign_of sg * digits_val h) (sign_of sg * digits_val mi)
           (sign_of sg * from_option digits_val 0 secs)
  ∨ all_exact 0 dval (sign_of sg * digits_val h) (sign_of sg * digits_val mi)
              (sign_of sg * from_option digits_val 0 secs) →
  db_build dd (Some sg) (Some h) (Some mi) secs
  = seconds_delta
      (dval * 86400
       + sign_of sg * (digits_val h * 3600 + digits_val mi * 60
                       + from_option digits_val 0 secs)).
Proof.
  intros Hdd Hsg Hh Hmi Hsecs Hminus Hok. unfold db_build. rewrite Hdd.
  rewrite <-(float_of_Z_exact 0) by done.
  case_bool_decide as Hm.
  - injection Hm as ->. destruct secs as [s|]; [|by destruct Hminus].
    change (float_of_chars ("-"%char :: ?t))
      with (float_of_chars (["-"%char] ++ t)).
    rewrite !(float_signed ["-"%char]) by (auto || (right; by right)).
    cbn [build from_option] in *. rewrite fields_delta_whole by done.
    f_equal. lia.
  - assert (sign_of sg = 1) as Hone.
    { unfold sign_of. rewrite bool_decide_eq_false_2; [done|by intros ->]. }
    rewrite Hone, !Z.mul_1_l in *.
    cbn [field_val]. rewrite !float_digits by done.
    assert (field_val secs = Some (float_of_Z (from_option digits_val 0 secs)))
      as ->.
    { destruct secs as [s|]; cbn [field_val from_option];
        [|by rewrite float_of_Z_exact].
      apply float_digits. by apply Hsecs. }
    cbn [build]. rewrite fields_delta_whole by done. f_equal. lia.
Qed.

(** X7.  On a day count with an optional sign, [ day] or [ days], an optional
    comma and a clock time of hours, minutes and optional whole seconds with
    an optional sign, [parse] gives the sum of the days and of the clock
    time, each with its own sign: the sign of the clock time covers the
    hours, the minutes and the seconds and leaves the days alone.  (With the
    sign ['-'] the seconds have to be written.  Where the two signs differ,
    the numerals are below 2^53, so that [float] does not round them.) *)
Theorem parse_days_clock (dsg dd : chars) (plural comma : bool)
    (sg h mi : chars) (secs : option chars) :
  sign_text dsg → digits dd →
  sign_text sg → digits h → digits mi →
  (∀ s, secs = Some s → digits s) → (sg = ["-"%char] → secs ≠ None) →
  sign_of dsg = sign_of sg
  ∨ (exact_numeral dd ∧ exact_numeral h ∧ exact_numeral mi
     ∧ ∀ s, secs = Some s → exact_numeral s) →
  parse (string_of_list_ascii
           (days_text dsg dd plural comma
            ++ clock_text sg h mi (seconds_text secs)))
  = seconds_delta
      (sign_of dsg * digits_val dd * 86400
       + sign_of sg * (digits_val h * 3600 + digits_val mi * 60
                       + from_option digits_val 0 secs)).
Proof.
  intros Hdsg Hdd Hsg Hh Hmi Hsecs Hminus Hok.
  rewrite (parse_days_clock_groups _ _ _ _ _ _ _ _ secs)
    by (done || by apply clock_tail_seconds).
  apply db_build_whole; try done; [by apply float_signed|].
  pose proof (digits_val_nonneg dd (proj2 Hdd)).
  pose proof (digits_val_nonneg h (proj2 Hh)).
  pose proof (digits_val_nonneg mi (proj2 Hmi)).
  assert (0 ≤ from_option digits_val 0 secs) as H2.
  { destruct secs as [s|]; cbn; [|done]. by apply digits_val_nonneg, Hsecs. }
  unfold one_sign, all_exact.
  destruct Hok as [Heq|(Hed & Heh & Hemi & Hes)].
  - left. rewrite Heq. destruct (sign_of_cases sg) as [-> | ->]; lia.
  - right. unfold exact_numeral in *.
    assert (from_option digits_val 0 secs < 2 ^ 53) as H3.
    { destruct secs as [s|]; cbn; [by apply Hes|done]. }
    change (2 ^ 53) with 9007199254740992 in *.
    destruct (sign_of_cases sg) as [-> | ->],
      (sign_of_cases dsg) as [-> | ->]; lia.
Qed.

Lemma parse_days_clock_witness :
  parse "-1 day, -1:01:01" = Ok (Timedelta (-2) 82739 0).
Proof.
  assert (sign_text (text_type "-")) as Hsg by (right; by right).
  assert (digits (text_type "1")) as H1 by (split; [discriminate|reflexivity]).
  assert (digits (text_type "01")) as H2
    by (split; [discriminate|reflexivity]).
  assert (∀ s, Some (text_type "01") = Some s → digits s) as H3
    by (intros s [= <-]; exact H2).
  assert (text_type "-" = ["-"%char] → Some (text_type "01") ≠ None) as H4
    by discriminate.
  assert (sign_of (text_type "-") = sign_of (text_type "-")
          ∨ (exact_numeral (text_type "1") ∧ exact_numeral (text_type "1")
             ∧ exact_numeral (text_type "01")
             ∧ ∀ s, Some (text_type "01") = Some s → exact_numeral s)) as H5
    by (left; reflexivity).
  exact (parse_days_clock (text_type "-") (text_type "1") false true
           (text_type "-") (text_type "1") (text_type "01")
           (Some (text_type "01")) Hsg H1 Hsg H1 H2 H3 H4 H5).
Defined.

(** ** The flexible pattern on counts with unit words *)

(** *** Gaps and letters *)

Lemma gap_filler f : gap f → filler f.
Proof.
  unfold gap, filler. intros H. apply forallb_forall. intros c Hc.
  rewrite forallb_forall in H. apply H in Hc.
  unfold is_gap in Hc. by apply andb_prop in Hc as [Hc _].
Qed.

Lemma lower_is_word c : is_lower c = true → is_word c = true.
Proof. unfold is_word, is_lower. by intros ->. Qed.

Lemma lower_not_digit c : is_lower c = true → is_digit c = false.
Proof.
  unfold is_lower, is_digit, between. intros [H1 _]%andb_prop.
  apply N.leb_le in H1. apply andb_false_iff. right. apply N.leb_gt.
  change (code "a") with 97%N in H1. change (code "9") with 57%N. lia.
Qed.

Lemma lower_excl c r :
  is_lower c = true → starts_with is_lower r = false →
  starts_with (λ x, bool_decide (x = c)) r = false.
Proof.
  intros Hc. destruct r as [|x r]; [done|]. cbn. intros Hx.
  apply bool_decide_eq_false. intros ->. congruence.
Qed.

Lemma gap_not_lower g r :
  gap g → starts_with is_lower r = false → starts_with is_lower (g ++ r) = false.
Proof.
  destruct g as [|c g]; [done|]. cbn. intros [Hc _]%andb_prop _.
  unfold is_gap in Hc. apply andb_prop in Hc as [Hc _].
  destruct (is_lower c) eqn:E; [|done].
  by rewrite (lower_is_word _ E) in Hc.
Qed.

Lemma digits_not_lower ds r :
  digits ds → starts_with is_lower (ds ++ r) = false.
Proof.
  intros [Hne Hds]. destruct ds as [|c ds]; [done|]. cbn in *.
  apply andb_prop in Hds as [Hc _].
  destruct (is_lower c) eqn:E; [|done].
  by rewrite (lower_not_digit _ E) in Hc.
Qed.

Lemma ahead_not_lower ls r : ahead ls r → starts_with is_lower r = false.
Proof.
  intros [->|(ds & f & c & r2 & -> & Hds & _)]; [done|].
  by apply digits_not_lower.
Qed.

Lemma ahead_not_nonword ls r :
  ahead ls r → starts_with (in_class NonWord) r = false.
Proof.
  intros [->|(ds & f & c & r2 & -> & [Hne Hds] & _)]; [done|].
  destruct ds as [|x ds]; [done|]. cbn in *.
  apply andb_prop in Hds as [Hx _]. by rewrite (digit_is_word _ Hx).
Qed.

Lemma ahead_cons l ls r : ahead ls r → ahead (l :: ls) r.
Proof.
  intros [->|(ds & f & c & r2 & -> & Hds & Hf & Hc & Hin)]; [by left|].
  right. exists ds, f, c, r2. repeat (split; [done|]).
  apply elem_of_cons. by right.
Qed.

(** *** The count *)

Section Count.
Context {A : Type}.
Implicit Types (k : mstate → list A).

(** A count is not a number with a point: where the count ends, a gap and a
    letter follow. *)
Lemma dead_point k p ds f c r m :
  forallb is_digit ds = true → filler f → is_lower c = true →
  flat_map k (run (Star Digit ⋅ Chr "." ⋅ Plus Digit)
                (MState p (ds ++ f ++ c :: r) m)) = [].
Proof.
  intros Hds Hf Hc.
  assert (starts_with is_digit (f ++ c :: r) = false) as Hnd.
  { destruct f as [|x f]; cbn.
    - by apply lower_not_digit.
    - cbn in Hf. apply andb_prop in Hf as [Hx _].
      by apply nonword_not_digit. }
  rewrite step_cat, step_star_all; [|done|done|].
  2:{ intros st Hst. apply (dead_chr _ is_digit); [|done].
      by apply digit_is_not. }
  rewrite step_cat. chr.
  destruct f as [|x f]; cbn [app].
  - rewrite step_chr_cons.
    rewrite bool_decide_eq_false_2; [done|]. by intros ->.
  - rewrite step_chr_cons. case_bool_decide; [|done].
    apply step_plus_no. cbn [rest].
    cbn in Hf. apply andb_prop in Hf as [_ Hf].
    destruct f as [|y f]; cbn.
    + by apply lower_not_digit.
    + cbn in Hf. apply andb_prop in Hf as [Hy _].
      by apply nonword_not_digit.
Qed.
End Count.

Lemma first_digits p ds f c r m :
  digits ds → filler f → is_lower c = true →
  first_match (Alt (Star Digit ⋅ Chr "." ⋅ Plus Digit) (Plus Digit))
              (MState p (ds ++ f ++ c :: r) m)
              (MState (p + length ds) (f ++ c :: r) m).
Proof.
  intros [Hne Hds] Hf Hc. apply first_alt_r.
  { rewrite run_as_steps. by apply dead_point. }
  apply first_plus; [done|done|].
  destruct f as [|x f]; cbn.
  - by apply lower_not_digit.
  - cbn in Hf. apply andb_prop in Hf as [Hx _]. by apply nonword_not_digit.
Qed.

(** A count, with the minus sign in front of it if there is one. *)
Lemma first_count p sg ds f c r m :
  minus_text sg → digits ds → filler f → is_lower c = true →
  first_match number (MState p ((sg ++ ds) ++ f ++ c :: r) m)
              (MState (p + length (sg ++ ds)) (f ++ c :: r) m).
Proof.
  intros Hsg Hds Hf Hc. unfold number.
  destruct Hsg as [-> | ->]; cbn [app length].
  - pose proof (digits_starts _ (f ++ c :: r) Hds) as Hst.
    eapply first_cat; [|by apply first_digits].
    apply first_opt_skip, run_chr1_dead.
    apply (starts_with_excl is_digit); [|done]. by apply digit_is_not.
  - rewrite Nat.add_succ_r, <-Nat.add_succ_l.
    eapply first_cat; [apply first_opt, first_chr|].
    by apply first_digits.
Qed.

(** *** The unit words *)

Lemma run_cat_dead a b st : run a st = [] → run (a ⋅ b) st = [].
Proof. cbn [run]. by intros ->. Qed.

Ltac dead_letter :=
  repeat apply run_cat_dead; apply run_chr1_dead;
  first [ reflexivity | by apply lower_excl ].

Ltac walk :=
  lazymatch goal with
  | |- first_match (Cat _ _) _ _ => eapply first_cat; [walk|walk]
  | |- first_match (Chr _) _ _ => apply first_chr
  | |- first_match (Opt _) _ _ =>
      first [ apply first_opt; walk | apply first_opt_skip; dead_letter ]
  end.

Ltac spell_words :=
  let Hw := fresh in
  intros Hw; split; [|split];
  [ intros p r m Hr;
    repeat (apply elem_of_cons in Hw as [->|Hw]);
    [ eexists; cbn [text_type list_ascii_of_string app Lit]; walk ..
    | by apply elem_of_nil in Hw ]
  | repeat (apply elem_of_cons in Hw as [->|Hw]);
    [ by eexists .. | by apply elem_of_nil in Hw ]
  | repeat (apply elem_of_cons in Hw as [->|Hw]);
    [ apply (bool_decide_unpack _); vm_compute; exact I ..
    | by apply elem_of_nil in Hw ] ].

Lemma weeks_spelled w : w ∈ weeks_words → spelled unit_weeks "w" w.
Proof. unfold weeks_words, unit_weeks, spelled. spell_words. Qed.

Lemma days_spelled w : w ∈ days_words → spelled unit_days "d" w.
Proof. unfold days_words, unit_days, spelled. spell_words. Qed.

Lemma hours_spelled w : w ∈ hours_words → spelled unit_hours "h" w.
Proof. unfold hours_words, unit_hours, spelled. spell_words. Qed.

Lemma minutes_spelled w : w ∈ minutes_words → spelled unit_minutes "m" w.
Proof. unfold minutes_words, unit_minutes, spelled. spell_words. Qed.

Lemma seconds_spelled w : w ∈ seconds_words → spelled unit_seconds "s" w.
Proof. unfold seconds_words, unit_seconds, spelled. spell_words. Qed.

(** *** A part that is there *)

Lemma nonword_not_comma r :
  starts_with (in_class NonWord) r = false →
  starts_with (λ x, bool_decide (x = ","%char)) r = false.
Proof.
  destruct r as [|c r]; [done|]. cbn. intros Hc.
  apply bool_decide_eq_false. by intros ->.
Qed.

(** The optional comma and the gap after a unit word. *)
Lemma first_sep g r p m :
  filler g → starts_with (in_class NonWord) r = false →
  ∃ p', first_match (Opt (Chr ",") ⋅ Star NonWord) (MState p (g ++ r) m)
                    (MState p' r m).
Proof.
  intros Hg Hr. destruct g as [|c g]; [|destruct (decide (c = ","%char)) as [->|Hc]].
  - eexists. eapply first_cat.
    + apply first_opt_skip, run_chr1_dead. by apply nonword_not_comma.
    + by apply (first_star NonWord _ []).
  - eexists. eapply first_cat; [apply first_opt, first_chr|].
    apply first_star; [|done]. cbn in Hg. by apply andb_prop in Hg as [_ Hg].
  - eexists. eapply first_cat.
    + apply first_opt_skip, run_chr1_dead. cbn.
      by apply bool_decide_eq_false.
    + by apply (first_star NonWord _ (c :: g)).
Qed.

Lemma lower_not_nonword l r :
  is_lower l = true → starts_with (in_class NonWord) (l :: r) = false.
Proof. intros Hl. cbn. by rewrite (lower_is_word _ Hl). Qed.

Lemma first_cat3 a b c X st y :
  first_match ((a ⋅ b ⋅ c) ⋅ X) st y → first_match (a ⋅ b ⋅ c ⋅ X) st y.
Proof.
  unfold first_match.
  by rewrite (run_cat_ext a _ _ (run_cat_assoc b c X)),
    (run_cat_assoc a (b ⋅ c) X).
Qed.

(** A count with its unit word in front of the pattern of its unit. *)
Lemma first_entry name U l words sg e r p m :
  minus_text sg →
  entry_ok words e → (∀ w, w ∈ words → spelled U l w) →
  is_lower l = true → starts_with is_lower r = false →
  ∃ p', first_match (Named name number ⋅ Star NonWord ⋅ U)
          (MState p (sg ++ entry_text e ++ r) m)
          (MState p' (e_sep e ++ r) (<[name := (p, sg ++ e_count e)]> m)).
Proof.
  intros Hsg (Hds & Hf & Hw & Hg) Hwords Hl Hr.
  destruct (Hwords _ Hw) as (Hsp & (t & Ht) & _).
  destruct e as [ds f w g]. unfold entry_text.
  cbn [e_count e_gap e_word e_sep] in *.
  destruct (Hsp (p + length (sg ++ ds) + length f)%nat (g ++ r)
              (<[name := (p, sg ++ ds)]> m)) as (p1 & H1).
  { by apply gap_not_lower. }
  exists p1. rewrite <-!app_assoc, (app_assoc sg ds).
  eapply first_cat.
  { apply first_named_text; [|reflexivity]. rewrite Ht. cbn [app].
    apply first_count; [done|done|by apply gap_filler|done]. }
  eapply first_cat; [|exact H1].
  apply first_star; [by apply gap_filler|].
  rewrite Ht. by apply lower_not_nonword.
Qed.

Lemma first_component name U l words ls sg e r p m :
  minus_text sg →
  entry_ok words e → (∀ w, w ∈ words → spelled U l w) →
  is_lower l = true → ahead ls r →
  ∃ p', first_match (component name U)
          (MState p (sg ++ entry_text e ++ r) m)
          (MState p' r (<[name := (p, sg ++ e_count e)]> m)).
Proof.
  intros Hsg He Hwords Hl Hr.
  destruct (first_entry name U l words sg e r p m Hsg He Hwords Hl)
    as (p1 & H1); [by eapply ahead_not_lower|].
  destruct (first_sep (e_sep e) r p1 (<[name := (p, sg ++ e_count e)]> m))
    as (p2 & H2); [apply gap_filler, He|by eapply ahead_not_nonword|].
  exists p2. unfold component. apply first_opt.
  by apply first_cat3, (first_cat _ _ _ _ _ H1 H2).
Qed.

(** *** A part that is left out *)

Lemma lang_number_chars w : lang number w → forallb count_or_gap w = true.
Proof.
  intros Hw. apply forallb_forall. intros c Hc%list_elem_of_In.
  pose proof (lang_may_consume _ _ _ Hw Hc) as H. unfold count_or_gap.
  cbn [may_consume number in_class] in H.
  destruct (is_digit c); [done|]. cbn in *.
  rewrite !orb_false_r in H. apply orb_prop in H as [H|H];
    apply bool_decide_eq_true in H as ->; done.
Qed.

(** Where a text of counts and gaps stops at [c], whatever is left after a
    part of it was consumed starts within it or at [c]. *)
Lemma prefix_stop (P : ascii → bool) a c r w s :
  a ++ c :: r = w ++ s → forallb P w = true → P c = false →
  ∃ a2, s = a2 ++ c :: r ∧ ∃ a1, a = a1 ++ a2.
Proof.
  revert w. induction a as [|x a IH]; intros w; cbn [app].
  - destruct w as [|y w]; cbn [app].
    + intros <- _ _. exists []. split; [done|]. by exists [].
    + intros [= <- _] [Hy _]%andb_prop Hc. congruence.
  - destruct w as [|y w]; cbn [app].
    + intros <- _ _. exists (x :: a). split; [done|]. by exists [].
    + intros [= <- Heq] [_ Hw]%andb_prop Hc.
      destruct (IH w Heq Hw Hc) as (a2 & -> & a1 & ->).
      exists a2. split; [done|]. by exists (x :: a1).
Qed.

Lemma run_flat_map_dead a b st :
  (∀ x, In x (run a st) → run b x = []) → run (a ⋅ b) st = [].
Proof. intros H. cbn [run]. by apply flat_map_none. Qed.

Lemma no_lower_letter w s l :
  existsb is_lower (w ++ s) = false → is_lower l = true →
  starts_with (λ x, bool_decide (x = l)) s = false.
Proof.
  rewrite existsb_app. intros [_ Hs]%orb_false_elim Hl.
  destruct s as [|c s]; [done|]. cbn in *.
  apply orb_false_elim in Hs as [Hc _].
  apply bool_decide_eq_false. intros ->. congruence.
Qed.

(** After a number and non-word characters, the pattern of a unit finds
    nothing where the text has no letter, or where its first letter is
    another one and only counts and gaps come before it. *)
Lemma dead_unit name U l st :
  unit_letter U l → is_lower l = true →
  existsb is_lower (rest st) = false
  ∨ (∃ a c r, rest st = a ++ c :: r ∧ forallb count_or_gap a = true
              ∧ is_lower c = true ∧ c ≠ l) →
  ∀ x, In x (run (Named name number) st) →
  ∀ y, In y (run (Star NonWord) x) → run U y = [].
Proof.
  intros HU Hl Hst x Hx y Hy. apply HU.
  destruct (run_lang _ _ _ Hx) as (w1 & [Hw1 _] & Hl1).
  destruct (run_lang _ _ _ Hy) as (w2 & [Hw2 _] & Hl2).
  rewrite Hw2, app_assoc in Hw1.
  destruct Hst as [Hst|(a & c & r & Hr & Ha & Hc & Hcl)].
  { rewrite Hw1 in Hst. by eapply no_lower_letter. }
  inversion Hl1 as [| | | | | | | | | | | |? ? ? Hnum]; subst.
  inversion Hl2 as [| | | | | | | | | |? ? Hnw| |]; subst.
  assert (∀ z, is_lower z = true → count_or_gap z = false) as Hlow.
  { intros z Hz. unfold count_or_gap. cbn.
    by rewrite (lower_not_digit _ Hz), (lower_is_word _ Hz). }
  rewrite Hr in Hw1.
  destruct (prefix_stop count_or_gap a c r _ _ Hw1) as (a2 & -> & a1 & Ha2).
  - rewrite forallb_app, (lang_number_chars _ Hnum). cbn [andb].
    apply forallb_forall. intros z Hz. unfold count_or_gap.
    rewrite forallb_forall in Hnw. rewrite (Hnw z Hz). apply orb_true_r.
  - by apply Hlow.
  - destruct a2 as [|z a2]; cbn.
    + by apply bool_decide_eq_false.
    + apply bool_decide_eq_false. intros ->.
      rewrite Ha2, forallb_app in Ha. apply andb_prop in Ha as [_ Hz].
      cbn in Hz. apply andb_prop in Hz as [Hz _].
      by rewrite (Hlow _ Hl) in Hz.
Qed.

Lemma minus_count_or_gap sg : minus_text sg → forallb count_or_gap sg = true.
Proof. by intros [-> | ->]. Qed.

Lemma minus_no_lower sg : minus_text sg → existsb is_lower sg = false.
Proof. by intros [-> | ->]. Qed.

(** What a component that is left out has in front of it: a sign, if it is
    still there, and the parts of later units. *)
Lemma ahead_dead ls l sg r :
  minus_text sg → l ∉ ls → ahead ls r →
  existsb is_lower (sg ++ r) = false
  ∨ (∃ a c r2, sg ++ r = a ++ c :: r2 ∧ forallb count_or_gap a = true
               ∧ is_lower c = true ∧ c ≠ l).
Proof.
  intros Hsg Hls [->|(ds & f & c & r2 & -> & Hds & Hf & Hc & Hin)].
  - left. rewrite app_nil_r. by apply minus_no_lower.
  - right. exists (sg ++ ds ++ f), c, r2. rewrite <-!app_assoc.
    split; [done|]. split; [|split; [done|by intros ->]].
    rewrite !forallb_app, (minus_count_or_gap _ Hsg). cbn [andb].
    apply andb_true_intro. split.
    + apply forallb_forall. intros z Hz. unfold count_or_gap.
      destruct Hds as [_ Hds]. rewrite forallb_forall in Hds.
      by rewrite (Hds z Hz).
    + apply forallb_forall. intros z Hz. unfold count_or_gap.
      pose proof (gap_filler _ Hf) as Hf'. unfold filler in Hf'.
      rewrite forallb_forall in Hf'. rewrite (Hf' z Hz). apply orb_true_r.
Qed.

(** *** The five components in turn *)

Lemma ahead_entry words U l ls e r :
  entry_ok words e → (∀ w, w ∈ words → spelled U l w) →
  is_lower l = true → l ∈ ls → ahead ls (entry_text e ++ r).
Proof.
  intros (Hds & Hf & Hw & Hg) Hwords Hl Hin.
  destruct (Hwords _ Hw) as (_ & (t & Ht) & _).
  right. exists (e_count e), (e_gap e), l, (t ++ e_sep e ++ r).
  unfold entry_text. rewrite Ht, <-!app_assoc. done.
Qed.

Lemma ahead_opt words U l ls e r :
  opt_ok words e → (∀ w, w ∈ words → spelled U l w) →
  is_lower l = true → l ∈ ls → ahead ls r → ahead ls (opt_text e ++ r).
Proof.
  destruct e as [e|]; [|done]. intros He Hwords Hl Hin _.
  by eapply ahead_entry.
Qed.

Lemma unit_letter_chr l U' : unit_letter (Chr l ⋅ U') l.
Proof. intros st Hst. by apply run_chr_dead. Qed.

(** One component of the flexible pattern on the part of its unit, which
    may be left out, in front of the parts of later units. *)
Lemma first_slot name U l words ls sg e r p m :
  unit_letter U l → (∀ w, w ∈ words → spelled U l w) →
  is_lower l = true → l ∉ ls →
  minus_text sg → opt_ok words e → ahead ls r →
  ∃ p', first_match (component name U) (MState p (sg ++ opt_text e ++ r) m)
                    (MState p' (next_sign sg e ++ r) (opt_mark name p sg e m)).
Proof.
  intros HU Hwords Hl Hls Hsg He Hr.
  destruct e as [e|]; cbn [opt_text opt_mark next_sign from_option app].
  - by eapply first_component.
  - exists p. apply first_opt_skip.
    apply run_flat_map_dead. intros x Hx.
    apply run_flat_map_dead. intros y Hy.
    apply run_cat_dead.
    eapply (dead_unit name U l (MState p (sg ++ r) m)); eauto.
    by eapply ahead_dead.
Qed.

(** The last component and the end of the pattern. *)
Lemma first_last sg e p m :
  minus_text sg → opt_ok seconds_words e →
  ∃ p', first_match flex_from_seconds (MState p (sg ++ opt_text e) m)
                    (MState p' [] (opt_mark "seconds" p sg e m)).
Proof.
  intros Hsg He. unfold flex_from_seconds, flex_tail.
  destruct e as [e|]; cbn [opt_text opt_mark from_option].
  - destruct (first_entry "seconds" unit_seconds "s" seconds_words sg e [] p m)
      as (p1 & H1); [done|done|apply seconds_spelled|done|done|].
    rewrite !app_nil_r in H1. eexists.
    eapply first_cat; [apply first_opt, H1|].
    eapply first_cat; [|by apply first_eol].
    rewrite <-(app_nil_r (e_sep e)) at 1.
    apply first_star; [apply gap_filler, He|done].
  - eexists. rewrite app_nil_r. eapply first_cat.
    { apply first_opt_skip.
      apply run_flat_map_dead. intros x Hx.
      apply run_flat_map_dead. intros y Hy.
      eapply (dead_unit "seconds" unit_seconds "s" (MState p sg m));
        eauto using unit_letter_chr.
      left. by apply minus_no_lower. }
    eapply first_cat; [|by apply first_eol].
    rewrite <-(app_nil_r sg) at 1.
    apply first_star; [|done]. by destruct Hsg as [-> | ->].
Qed.

Lemma group_opt_mark name p sg e m n :
  group (opt_mark name p sg e m) n
  = if bool_decide (n = name)
    then match e with
         | Some e => Some (sg ++ e_count e)
         | None => group m n
         end
    else group m n.
Proof.
  unfold group, opt_mark. destruct e as [e|].
  - case_bool_decide as Hn; [subst; by rewrite lookup_insert_eq|].
    by rewrite lookup_insert_ne.
  - by case_bool_decide.
Qed.

Lemma minus_text_next sg e : minus_text sg → minus_text (next_sign sg e).
Proof. destruct e; [by left|done]. Qed.

Ltac in_letters := by (apply elem_of_cons; left).

Ltac not_in_letters :=
  let H := fresh in
  intros H; repeat (apply elem_of_cons in H as [H|H]; [discriminate H|]);
  by apply elem_of_nil in H.

(** The groups of the flexible pattern on the parts of an interval, with a
    minus sign in front or without. *)
Lemma re_match_flex_entries sg w d h mi s :
  minus_text sg →
  opt_ok weeks_words w → opt_ok days_words d → opt_ok hours_words h →
  opt_ok minutes_words mi → opt_ok seconds_words s →
  let sg1 := next_sign sg w in
  let sg2 := next_sign sg1 d in
  let sg3 := next_sign sg2 h in
  let sg4 := next_sign sg3 mi in
  ∃ m, re_match flex_pattern
         (sg ++ opt_text w ++ opt_text d ++ opt_text h ++ opt_text mi
          ++ opt_text s)
       = Some m
       ∧ group m "weeks" = (λ e, sg ++ e_count e) <$> w
       ∧ group m "days" = (λ e, sg1 ++ e_count e) <$> d
       ∧ group m "hours" = (λ e, sg2 ++ e_count e) <$> h
       ∧ group m "minutes" = (λ e, sg3 ++ e_count e) <$> mi
       ∧ group m "seconds" = (λ e, sg4 ++ e_count e) <$> s.
Proof.
  intros Hsg Hw Hd Hh Hmi Hs sg1 sg2 sg3 sg4.
  assert (minus_text sg1) as Hsg1 by by apply minus_text_next.
  assert (minus_text sg2) as Hsg2 by by apply minus_text_next.
  assert (minus_text sg3) as Hsg3 by by apply minus_text_next.
  assert (minus_text sg4) as Hsg4 by by apply minus_text_next.
  assert (ahead ["s"%char] (opt_text s)) as As.
  { rewrite <-(app_nil_r (opt_text s)).
    eapply ahead_opt; [done|apply seconds_spelled|done|in_letters|by left]. }
  assert (ahead ["m"; "s"]%char (opt_text mi ++ opt_text s)) as Am.
  { eapply ahead_opt; [done|apply minutes_spelled|done|in_letters|].
    by apply ahead_cons. }
  assert (ahead ["h"; "m"; "s"]%char
            (opt_text h ++ opt_text mi ++ opt_text s)) as Ah.
  { eapply ahead_opt; [done|apply hours_spelled|done|in_letters|].
    by apply ahead_cons. }
  assert (ahead ["d"; "h"; "m"; "s"]%char
            (opt_text d ++ opt_text h ++ opt_text mi ++ opt_text s)) as Ad.
  { eapply ahead_opt; [done|apply days_spelled|done|in_letters|].
    by apply ahead_cons. }
  destruct (first_slot "weeks" unit_weeks "w" weeks_words
              ["d"; "h"; "m"; "s"]%char sg w _ 0 ∅
              (unit_letter_chr _ _) weeks_spelled eq_refl
              ltac:(not_in_letters) Hsg Hw Ad) as (p1 & H1).
  destruct (first_slot "days" unit_days "d" days_words
              ["h"; "m"; "s"]%char sg1 d _ p1
              (opt_mark "weeks" 0 sg w ∅)
              (unit_letter_chr _ _) days_spelled eq_refl
              ltac:(not_in_letters) Hsg1 Hd Ah) as (p2 & H2).
  destruct (first_slot "hours" unit_hours "h" hours_words
              ["m"; "s"]%char sg2 h _ p2
              (opt_mark "days" p1 sg1 d (opt_mark "weeks" 0 sg w ∅))
              (unit_letter_chr _ _) hours_spelled eq_refl
              ltac:(not_in_letters) Hsg2 Hh Am) as (p3 & H3).
  destruct (first_slot "minutes" unit_minutes "m" minutes_words
              ["s"%char] sg3 mi _ p3
              (opt_mark "hours" p2 sg2 h
                 (opt_mark "days" p1 sg1 d (opt_mark "weeks" 0 sg w ∅)))
              (unit_letter_chr _ _) minutes_spelled eq_refl
              ltac:(not_in_letters) Hsg3 Hmi As) as (p4 & H4).
  destruct (first_last sg4 s p4
              (opt_mark "minutes" p3 sg3 mi
                 (opt_mark "hours" p2 sg2 h
                    (opt_mark "days" p1 sg1 d (opt_mark "weeks" 0 sg w ∅))))
              Hsg4 Hs)
    as (p5 & H5).
  eexists. split.
  - apply re_match_first. rewrite flex_pattern_from_weeks.
    eapply first_cat; [apply first_bol|].
    unfold flex_from_weeks, flex_from_days, flex_from_hours,
      flex_from_minutes.
    eapply first_cat; [exact H1|]. eapply first_cat; [exact H2|].
    eapply first_cat; [exact H3|]. eapply first_cat; [exact H4|exact H5].
  - cbn [marks]. rewrite !group_opt_mark.
    repeat (rewrite bool_decide_eq_false_2 by done).
    rewrite !bool_decide_eq_true_2 by done.
    by destruct w, d, h, mi, s.
Qed.

(** *** No colon, no database format *)

Lemma lang_db_colon w : lang db_pattern w → ":"%char ∈ w.
Proof.
  unfold db_pattern. intros H. inv_lang; cbn [app]; rewrite <-?app_assoc;
    cbn [app];
    repeat first [ apply elem_of_app; right
                 | apply elem_of_cons; first [ left; reflexivity | right ] ].
Qed.

Lemma re_match_db_no_colon s : ":"%char ∉ s → re_match db_pattern s = None.
Proof.
  intros Hs. destruct (re_match db_pattern s) as [m|] eqn:Hm; [|done].
  apply re_match_lang in Hm as (w & e & -> & Hl & _); [|done].
  destruct Hs. apply elem_of_app. left. by apply lang_db_colon.
Qed.

Lemma entry_no_colon words U l e :
  entry_ok words e → (∀ w, w ∈ words → spelled U l w) →
  ":"%char ∉ entry_text e.
Proof.
  intros ([_ Hds] & Hf & Hw & Hg) Hwords.
  destruct (Hwords _ Hw) as (_ & _ & Hword).
  unfold entry_text. rewrite !elem_of_app.
  intros [H|[H|[H|H]]]; [| | done |].
  - by pose proof (forallb_elem_of _ _ _ Hds H).
  - by pose proof (forallb_elem_of _ _ _ Hf H).
  - by pose proof (forallb_elem_of _ _ _ Hg H).
Qed.

Lemma opt_no_colon words U l e :
  opt_ok words e → (∀ w, w ∈ words → spelled U l w) →
  ":"%char ∉ opt_text e.
Proof.
  destruct e as [e|]; [apply entry_no_colon|]. intros _ _.
  by intros ?%elem_of_nil.
Qed.

Lemma field_val_count words sg e :
  minus_text sg → opt_ok words e →
  field_val ((λ e, sg ++ e_count e) <$> e)
  = Some (float_of_Z (sign_of sg * opt_count e)).
Proof.
  intros Hsg He. destruct e as [e|];
    cbn [fmap option_fmap option_map field_val opt_count from_option].
  - destruct He as (Hds & _). apply float_signed; [|done].
    destruct Hsg as [-> | ->]; [by left|right; by right].
  - by rewrite Z.mul_0_r, float_of_Z_exact.
Qed.

Lemma opt_count_nonneg words e : opt_ok words e → 0 ≤ opt_count e.
Proof.
  destruct e as [e|]; [|done]. intros ([_ Hds] & _).
  by apply digits_val_nonneg.
Qed.

Lemma sign_no_colon sg : minus_text sg → ":"%char ∉ sg.
Proof.
  intros [-> | ->]; [by intros ?%elem_of_nil|].
  by intros [=]%list_elem_of_singleton.
Qed.

(** [parse] on the parts of an interval with a minus sign in front or
    without: the sign goes to the first part that is there.  The counts are
    taken as [float] gives them. *)
Lemma parse_entries_fields sg w d h mi s :
  minus_text sg →
  opt_ok weeks_words w → opt_ok days_words d → opt_ok hours_words h →
  opt_ok minutes_words mi → opt_ok seconds_words s →
  sg ++ opt_text w ++ opt_text d ++ opt_text h ++ opt_text mi ++ opt_text s
  ≠ [] →
  let sg1 := next_sign sg w in
  let sg2 := next_sign sg1 d in
  let sg3 := next_sign sg2 h in
  let sg4 := next_sign sg3 mi in
  parse (string_of_list_ascii
           (sg ++ opt_text w ++ opt_text d ++ opt_text h ++ opt_text mi
            ++ opt_text s))
  = fields_delta
      (Fields (float_of_Z (sign_of sg * opt_count w))
              (float_of_Z (sign_of sg1 * opt_count d))
              (float_of_Z (sign_of sg2 * opt_count h))
              (float_of_Z (sign_of sg3 * opt_count mi))
              (float_of_Z (sign_of sg4 * opt_count s))).
Proof.
  intros Hsg Hw Hd Hh Hmi Hs Hne sg1 sg2 sg3 sg4.
  assert (minus_text sg1) as Hsg1 by by apply minus_text_next.
  assert (minus_text sg2) as Hsg2 by by apply minus_text_next.
  assert (minus_text sg3) as Hsg3 by by apply minus_text_next.
  assert (minus_text sg4) as Hsg4 by by apply minus_text_next.
  rewrite parse_groups.
  rewrite bool_decide_eq_false_2 by by apply string_of_chars_nonempty.
  rewrite text_type_of_chars, re_match_db_no_colon.
  2:{ rewrite !elem_of_app.
      intros [H|[H|[H|[H|[H|H]]]]]; revert H;
        first [ by apply sign_no_colon
              | eapply opt_no_colon; eauto using weeks_spelled, days_spelled,
                  hours_spelled, minutes_spelled, seconds_spelled ]. }
  destruct (re_match_flex_entries sg w d h mi s)
    as (m & -> & -> & -> & -> & -> & ->); try done.
  unfold flex_build. subst sg1 sg2 sg3 sg4.
  by rewrite (field_val_count _ _ _ Hsg Hw), (field_val_count _ _ _ Hsg1 Hd),
    (field_val_count _ _ _ Hsg2 Hh), (field_val_count _ _ _ Hsg3 Hmi),
    (field_val_count _ _ _ Hsg4 Hs).
Qed.

(** Without a sign in front the parts are added up. *)
Lemma parse_entries_sum w d h mi s :
  opt_ok weeks_words w → opt_ok days_words d → opt_ok hours_words h →
  opt_ok minutes_words mi → opt_ok seconds_words s →
  opt_text w ++ opt_text d ++ opt_text h ++ opt_text mi ++ opt_text s ≠ [] →
  parse (string_of_list_ascii
           (opt_text w ++ opt_text d ++ opt_text h ++ opt_text mi
            ++ opt_text s))
  = seconds_delta (opt_count w * 604800 + opt_count d * 86400
                   + opt_count h * 3600 + opt_count mi * 60 + opt_count s).
Proof.
  intros Hw Hd Hh Hmi Hs Hne.
  pose proof (parse_entries_fields [] w d h mi s) as H. cbn [app] in H.
  rewrite H by (done || by left).
  assert (∀ e, sign_of (next_sign [] e) = 1) as Hn by by intros [?|].
  assert (∀ e1 e2, sign_of (next_sign (next_sign [] e1) e2) = 1) as Hn2
    by by intros [?|] [?|].
  assert (∀ e1 e2 e3,
    sign_of (next_sign (next_sign (next_sign [] e1) e2) e3) = 1) as Hn3
    by by intros [?|] [?|] [?|].
  assert (∀ e1 e2 e3 e4,
    sign_of (next_sign (next_sign (next_sign (next_sign [] e1) e2) e3) e4)
    = 1) as Hn4 by by intros [?|] [?|] [?|] [?|].
  rewrite Hn, Hn2, Hn3, Hn4. change (sign_of []) with 1.
  rewrite !Z.mul_1_l. apply fields_delta_whole. left. left.
  eauto 10 using opt_count_nonneg.
Qed.

(** X5.  An interval written as counts with unit words: up to five parts in
    the order weeks, days, hours, minutes, seconds, each a count of decimal
    digits, its unit word in any of its spellings, and gaps of non-word
    characters other than the colon between the count and the word and after
    the word.  [parse] gives the sum of the counts times their units, or the
    [OverflowError] of [datetime.timedelta] when the sum is 1000000000 days or
    more.  A sign or a point in a gap belongs to the gap and changes nothing. *)
Theorem parse_flexible (w d h mi s : option entry) :
  opt_ok weeks_words w → opt_ok days_words d → opt_ok hours_words h →
  opt_ok minutes_words mi → opt_ok seconds_words s →
  opt_text w ++ opt_text d ++ opt_text h ++ opt_text mi ++ opt_text s ≠ [] →
  parse (string_of_list_ascii
           (opt_text w ++ opt_text d ++ opt_text h ++ opt_text mi
            ++ opt_text s))
  = seconds_delta (opt_count w * 604800 + opt_count d * 86400
                   + opt_count h * 3600 + opt_count mi * 60 + opt_count s).
Proof. apply parse_entries_sum. Qed.

Lemma parse_flexible_witness :
  parse "1 hour, 5 mins" = Ok (Timedelta 0 3900 0).
Proof.
  assert (opt_ok hours_words (Some one_hour_part)) as H1.
  { split; [split; [discriminate|reflexivity]|].
    split; [reflexivity|]. split; [|reflexivity].
    unfold hours_words. rewrite !elem_of_cons. auto 10. }
  assert (opt_ok minutes_words (Some five_mins_part)) as H2.
  { split; [split; [discriminate|reflexivity]|].
    split; [reflexivity|]. split; [|reflexivity].
    unfold minutes_words. rewrite !elem_of_cons. auto 10. }
  exact (parse_flexible None None (Some one_hour_part) (Some five_mins_part)
           None I I H1 H2 I ltac:(discriminate)).
Defined.

(** X6.  A minus sign at the very start of an interval written as counts with
    unit words negates the first part and no other: the result is the sum of
    all the parts less twice the first.  (The counts are below 2^53, so that
    [float] does not round them.) *)
Theorem parse_flexible_minus (w d h mi s : option entry) :
  opt_ok weeks_words w → opt_ok days_words d → opt_ok hours_words h →
  opt_ok minutes_words mi → opt_ok seconds_words s →
  exact_counts [w; d; h; mi; s] →
  parse (string_of_list_ascii
           ("-"%char :: opt_text w ++ opt_text d ++ opt_text h ++ opt_text mi
            ++ opt_text s))
  = seconds_delta (opt_count w * 604800 + opt_count d * 86400
                   + opt_count h * 3600 + opt_count mi * 60 + opt_count s
                   - 2 * first_part_seconds w d h mi s).
Proof.
  intros Hw Hd Hh Hmi Hs Hex.
  pose proof (parse_entries_fields ["-"%char] w d h mi s) as H.
  cbn [app] in H. rewrite H by (done || by right).
  pose proof (opt_count_nonneg _ _ Hw). pose proof (opt_count_nonneg _ _ Hd).
  pose proof (opt_count_nonneg _ _ Hh). pose proof (opt_count_nonneg _ _ Hmi).
  pose proof (opt_count_nonneg _ _ Hs).
  unfold exact_counts in Hex. rewrite !Forall_cons in Hex.
  destruct Hex as (E1 & E2 & E3 & E4 & E5 & _).
  rewrite fields_delta_whole.
  - f_equal.
    destruct w, d, h, mi;
      cbn [next_sign first_part_seconds opt_count from_option];
      change (sign_of []) with 1; change (sign_of ["-"%char]) with (-1); lia.
  - right. unfold all_exact. change (2 ^ 53) with 9007199254740992 in *.
    repeat split;
      match goal with
      | |- Z.abs (sign_of ?sg * _) < _ =>
          destruct (sign_of_cases sg) as [-> | ->]; lia
      end.
Qed.

Lemma parse_flexible_minus_witness :
  parse "-2 days" = Ok (Timedelta (-2) 0 0).
Proof.
  assert (opt_ok days_words (Some two_days_part)) as H1.
  { split; [split; [discriminate|reflexivity]|].
    split; [reflexivity|]. split; [|reflexivity].
    unfold days_words. rewrite !elem_of_cons. auto 10. }
  assert (exact_counts [None; Some two_days_part; None; None; None]) as H2.
  { repeat apply Forall_cons_2; try apply Forall_nil_2; reflexivity. }
  exact (parse_flexible_minus None (Some two_days_part) None None None
           I H1 I I I H2).
Defined.

(** ** A unit that is left out *)

Lemma or_zero_count e e' : or_zero e e' → opt_count e' = opt_count e.
Proof. by intros [->|[-> (z & -> & Hz)]]. Qed.

Lemma or_zero_ok words e e' : or_zero e e' → opt_ok words e' → opt_ok words e.
Proof. by intros [->|[-> _]]. Qed.

Lemma or_zero_text e e' : or_zero e e' → opt_text e ≠ [] → opt_text e' ≠ [].
Proof. by intros [->|[-> _]]. Qed.

(** C8, as the code has it.  In an interval written as counts of decimal
    digits with unit words, leaving a unit out is the same as writing it with
    the count 0: where units are left out, parts with the count 0 can be
    written for them at their places, and [parse] gives the same result.  (It
    is not so for every input that the flexible pattern accepts: the filler
    of a part that is written in takes the sign of a number that follows
    it.) *)
Theorem absent_unit_is_zero (w d h mi s w' d' h' mi' s' : option entry) :
  opt_ok weeks_words w' → opt_ok days_words d' → opt_ok hours_words h' →
  opt_ok minutes_words mi' → opt_ok seconds_words s' →
  or_zero w w' → or_zero d d' → or_zero h h' → or_zero mi mi' →
  or_zero s s' →
  opt_text w ++ opt_text d ++ opt_text h ++ opt_text mi ++ opt_text s ≠ [] →
  parse (string_of_list_ascii
           (opt_text w ++ opt_text d ++ opt_text h ++ opt_text mi
            ++ opt_text s))
  = parse (string_of_list_ascii
             (opt_text w' ++ opt_text d' ++ opt_text h' ++ opt_text mi'
              ++ opt_text s')).
Proof.
  intros Hw Hd Hh Hmi Hs Zw Zd Zh Zmi Zs Hne.
  rewrite !parse_entries_sum; eauto using or_zero_ok.
  - by rewrite (or_zero_count _ _ Zw), (or_zero_count _ _ Zd),
      (or_zero_count _ _ Zh), (or_zero_count _ _ Zmi), (or_zero_count _ _ Zs).
  - intros Hnil. apply Hne.
    repeat match goal with
    | H : _ ++ _ = [] |- _ => apply app_eq_nil in H as [? H]
    end.
    repeat match goal with
    | Z : or_zero ?e ?e', H : opt_text ?e' = [] |- _ =>
        assert (opt_text e = [])
          by (destruct (decide (opt_text e = [])) as [|Hn]; [done|];
              by destruct (or_zero_text _ _ Z Hn));
        clear Z
    end.
    by repeat match goal with H : opt_text _ = [] |- _ => rewrite H; clear H end.
Qed.

Lemma absent_unit_is_zero_witness : parse "1 hour" = parse "0 days, 1 hour".
Proof.
  assert (opt_ok days_words (Some zero_days_part)) as H1.
  { split; [split; [discriminate|reflexivity]|].
    split; [reflexivity|]. split; [|reflexivity].
    unfold days_words. rewrite !elem_of_cons. auto 10. }
  assert (opt_ok hours_words (Some an_hour_part)) as H2.
  { split; [split; [discriminate|reflexivity]|].
    split; [reflexivity|]. split; [|reflexivity].
    unfold hours_words. rewrite !elem_of_cons. auto 10. }
  assert (or_zero None (Some zero_days_part)) as H3.
  { right. split; [reflexivity|]. exists zero_days_part.
    split; reflexivity. }
  assert (∀ e, or_zero e e) as H4 by (intros e; left; reflexivity).
  exact (absent_unit_is_zero None None (Some an_hour_part) None None
           None (Some zero_days_part) (Some an_hour_part) None None
           I H1 H2 I I (H4 _) H3 (H4 _) (H4 _) (H4 _) ltac:(discriminate)).
Defined.

Lemma absent_unit_is_zero_counterexample :
  parse "-1 h" = Ok (Timedelta (-1) 82800 0)
  ∧ parse "0 d -1 h" = Ok (Timedelta 0 3600 0)
  ∧ parse "-1 h" ≠ parse "0 d -1 h"
  ∧ ∃ m, re_match flex_pattern (text_type "0 d -1 h") = Some m
         ∧ group m "days" = Some (text_type "0")
         ∧ group m "hours" = Some (text_type "1").
Proof.
  split; [by vm_compute|]. split; [by vm_compute|]. split; [by vm_compute|].
  eexists. split; [vm_compute; reflexivity|]. by vm_compute.
Qed.

(** ** A clock time with a sign *)

(** X8.  On a clock time of hours, minutes and optional whole seconds with an
    optional sign, [parse] gives the hours, the minutes and the seconds, all
    three negated when the sign is ['-']; the sign ['+'] is the same as no
    sign.  (With the sign ['-'] the seconds have to be written.) *)
Theorem parse_signed_clock (sg h mi : chars) (secs : option chars) :
  sign_text sg → digits h → digits mi →
  (∀ s, secs = Some s → digits s) → (sg = ["-"%char] → secs ≠ None) →
  parse (string_of_list_ascii (clock_text sg h mi (seconds_text secs)))
  = seconds_delta
      (sign_of sg * (digits_val h * 3600 + digits_val mi * 60
                     + from_option digits_val 0 secs)).
Proof.
  intros Hsg Hh Hmi Hsecs Hminus.
  rewrite (parse_clock sg h mi _ secs)
    by (done || by apply clock_tail_seconds).
  rewrite (db_build_whole None 0); try done.
  - cbn [field_val]. by rewrite float_of_Z_exact.
  - pose proof (digits_val_nonneg h (proj2 Hh)).
    pose proof (digits_val_nonneg mi (proj2 Hmi)).
    assert (0 ≤ from_option digits_val 0 secs).
    { destruct secs as [s|]; cbn; [|done].
      by apply digits_val_nonneg, Hsecs. }
    left. unfold one_sign. destruct (sign_of_cases sg) as [-> | ->]; lia.
Qed.

Lemma parse_signed_clock_witness :
  parse "-1:01:01" = Ok (Timedelta (-1) 82739 0).
Proof.
  assert (sign_text (text_type "-")) as Hsg by (right; by right).
  assert (digits (text_type "1")) as H1 by (split; [discriminate|reflexivity]).
  assert (digits (text_type "01")) as H2
    by (split; [discriminate|reflexivity]).
  assert (∀ s, Some (text_type "01") = Some s → digits s) as H3
    by (intros s [= <-]; exact H2).
  assert (text_type "-" = ["-"%char] → Some (text_type "01") ≠ None) as H4
    by discriminate.
  exact (parse_signed_clock (text_type "-") (text_type "1") (text_type "01")
           (Some (text_type "01")) Hsg H1 H2 H3 H4).
Defined.

(** ** A newline at the end of a clock time *)

Section Newline.
Context {A : Type}.
Implicit Types (k : mstate → list A) (h mi : chars).

Local Abbreviation seconds_group :=
  (Named "seconds" (Plus Digit ⋅ Opt (Chr "." ⋅ Plus Digit)))%re.
Local Abbreviation seconds_part := (Opt (Chr ":" ⋅ seconds_group))%re.

Lemma step_eol_newline k p m :
  flat_map k (run Eol (MState p [newline] m)) = k (MState p [newline] m).
Proof. cbn. apply app_nil_r. Qed.

Lemma clock_no_seconds_newline k p m :
  flat_map k (run (seconds_part ⋅ Eol) (MState p [newline] m))
  = k (MState p [newline] m).
Proof.
  rewrite step_cat, step_opt, step_cat. chr.
  by rewrite step_chr_cons, app_nil_l, step_eol_newline.
Qed.

Lemma clock_seconds_newline k p s m :
  digits s →
  flat_map k (run (seconds_part ⋅ Eol) (MState p (":"%char :: s ++ [newline]) m))
  = k (MState (S p + length s) [newline] (<["seconds" := (S p, s)]> m)).
Proof.
  intros [Hs1 Hs2]. rewrite step_cat, step_opt.
  rewrite (dead_eol _ (λ x, bool_decide (x = ":"%char)));
    [|by intros x ->%bool_decide_eq_true|done].
  rewrite app_nil_r.
  rewrite step_cat. chr. rewrite step_chr_cons, bool_decide_eq_true_2 by done.
  rewrite step_named, step_cat, step_plus_all; try done.
  2:{ intros st Hst. rewrite step_opt.
      rewrite (dead_chr _ is_digit) by (done || by apply digit_is_not).
      by apply dead_eol_digit. }
  rewrite step_opt, step_cat. chr. rewrite step_chr_cons, app_nil_l.
  by rewrite capture_eq, step_eol_newline.
Qed.

Lemma clock_seconds_frac_newline k p s f m :
  digits s → digits f →
  flat_map k (run (seconds_part ⋅ Eol)
                (MState p (":"%char :: s ++ "."%char :: f ++ [newline]) m))
  = k (MState (S (S p + length s) + length f) [newline]
         (<["seconds" := (S p, s ++ "."%char :: f)]> m)).
Proof.
  intros [Hs1 Hs2] [Hf1 Hf2]. rewrite step_cat, step_opt.
  rewrite (dead_eol _ (λ x, bool_decide (x = ":"%char)));
    [|by intros x ->%bool_decide_eq_true|done].
  rewrite app_nil_r.
  rewrite step_cat. chr. rewrite step_chr_cons, bool_decide_eq_true_2 by done.
  rewrite step_named, step_cat, step_plus_all; try done.
  2:{ intros st Hst. rewrite step_opt.
      rewrite (dead_chr _ is_digit) by (done || by apply digit_is_not).
      by apply dead_eol_digit. }
  rewrite step_opt.
  rewrite (dead_eol _ (λ x, bool_decide (x = "."%char)));
    [|by intros x ->%bool_decide_eq_true|done].
  rewrite app_nil_r.
  rewrite step_cat. chr. rewrite step_chr_cons, bool_decide_eq_true_2 by done.
  rewrite step_plus_all; try done.
  2:{ intros st Hst. by apply dead_eol_digit. }
  replace (s ++ "."%char :: f ++ [newline])
    with ((s ++ "."%char :: f) ++ [newline]) by by rewrite <-app_assoc.
  rewrite capture_eq; [by rewrite step_eol_newline|].
  rewrite length_app; simpl; lia.
Qed.
End Newline.

Lemma clock_tail_newline_starts tail secs :
  clock_tail tail secs → starts_with is_digit (tail ++ [newline]) = false.
Proof. by destruct 1. Qed.

Lemma re_match_db_clock_newline sg h mi tail secs :
  sign_text sg → digits h → digits mi → clock_tail tail secs →
  ∃ m, re_match db_pattern (clock_text sg h mi tail ++ [newline]) = Some m
       ∧ group m "days" = None ∧ group m "sign" = Some sg
       ∧ group m "hours" = Some h ∧ group m "minutes" = Some mi
       ∧ group m "seconds" = secs.
Proof.
  intros Hsg Hh Hmi Htail. unfold re_match, clock_text.
  rewrite <-!app_assoc. cbn [app]. rewrite <-app_assoc.
  rewrite run_as_steps, db_clock_sign, clock_hm;
    [|done|done|by eapply clock_tail_newline_starts|done|done].
  destruct Htail as [|s Hs|s f Hs Hf]; cbn [app]; rewrite <-?app_assoc;
    cbn [app].
  - rewrite clock_no_seconds_newline. eexists; split; [done|]. cbn [marks].
    repeat split; groups.
  - rewrite clock_seconds_newline by done. eexists; split; [done|].
    cbn [marks]. repeat split; groups.
  - rewrite clock_seconds_frac_newline by done. eexists; split; [done|].
    cbn [marks]. repeat split; groups.
Qed.

(** X9.  One newline at the end of a clock time changes nothing: the [$] of
    the database pattern matches in front of it. *)
Theorem parse_clock_newline (sg h mi tail : chars) (secs : option chars) :
  sign_text sg → digits h → digits mi → clock_tail tail secs →
  parse (string_of_list_ascii (clock_text sg h mi tail ++ [newline]))
  = parse (string_of_list_ascii (clock_text sg h mi tail)).
Proof.
  intros Hsg Hh Hmi Htail.
  rewrite (parse_clock sg h mi tail secs) by done.
  rewrite parse_groups.
  rewrite bool_decide_eq_false_2.
  2:{ apply string_of_chars_nonempty. intros H%app_eq_nil. by destruct H. }
  rewrite text_type_of_chars.
  destruct (re_match_db_clock_newline sg h mi tail secs)
    as (m & -> & -> & -> & -> & -> & ->); done.
Qed.

Lemma parse_clock_newline_witness :
  parse (string_of_list_ascii (text_type "1:30" ++ [newline]))
  = Ok (Timedelta 0 5400 0).
Proof.
  assert (sign_text []) as Hsg by by left.
  assert (digits (text_type "1")) as H1 by (split; [discriminate|reflexivity]).
  assert (digits (text_type "30")) as H2
    by (split; [discriminate|reflexivity]).
  exact (parse_clock_newline [] (text_type "1") (text_type "30") [] None
           Hsg H1 H2 tail_none).
Defined.

(** ** Texts without a unit word *)

Lemma dead_component_no_letter name U l X st :
  unit_letter U l → is_lower l = true →
  existsb is_lower (rest st) = false →
  run (Named name number ⋅ Star NonWord ⋅ U ⋅ X) st = [].
Proof.
  intros HU Hl Hst.
  apply run_flat_map_dead. intros x Hx.
  apply run_flat_map_dead. intros y Hy.
  apply run_cat_dead. eapply dead_unit; eauto.
Qed.

Lemma dead_last_no_letter name U l st :
  unit_letter U l → is_lower l = true →
  existsb is_lower (rest st) = false →
  run (Named name number ⋅ Star NonWord ⋅ U) st = [].
Proof.
  intros HU Hl Hst.
  apply run_flat_map_dead. intros x Hx.
  apply run_flat_map_dead. intros y Hy. eapply dead_unit; eauto.
Qed.

Section NoLetter.
Context {A : Type}.
Implicit Types (k : mstate → list A) (st : mstate).

Lemma step_opt_dead k a st :
  run a st = [] → flat_map k (run (Opt a) st) = k st.
Proof. intros Ha. by rewrite step_opt, Ha. Qed.

Lemma flex_no_letter k s :
  existsb is_lower s = false →
  flat_map k (run flex_pattern (MState 0 s ∅))
  = flat_map k (run flex_tail (MState 0 s ∅)).
Proof.
  intros Hs. unfold flex_pattern, component.
  rewrite step_cat, step_bol.
  do 4 (rewrite step_cat, step_opt_dead
          by (by eapply dead_component_no_letter, Hs;
              [apply unit_letter_chr|])).
  rewrite step_cat, step_opt_dead; [done|].
  by eapply dead_last_no_letter, Hs; [apply unit_letter_chr|].
Qed.
End NoLetter.

(** X13.  An input without a colon and without a lower-case letter has no
    unit: it is the zero duration if it consists of non-word characters only,
    and an invalid interval otherwise.  A number alone stands for nothing. *)
Theorem parse_without_letter (s : string) :
  s ≠ ""%string →
  existsb is_lower (text_type s) = false →
  ":"%char ∉ text_type s →
  parse s = if forallb (in_class NonWord) (text_type s)
            then Ok (Timedelta 0 0 0) else Raise (invalid_interval s).
Proof.
  intros Hs Hlow Hcolon.
  rewrite parse_groups, bool_decide_eq_false_2, re_match_db_no_colon by done.
  rewrite re_match_flex_tail.
  - by destruct (forallb _ _).
  - rewrite (run_as_steps flex_pattern), (run_as_steps flex_tail).
    by apply flex_no_letter.
Qed.

Lemma parse_without_letter_witness :
  parse "5" = Raise (invalid_interval "5").
Proof.
  apply (parse_without_letter "5"); [discriminate|reflexivity|].
  apply (bool_decide_unpack _). vm_compute. exact I.
Defined.

(** ** The order of the unit words *)

(** *** Inversion of the language *)

Lemma lang_cat_inv a b w :
  lang (a ⋅ b) w → ∃ w1 w2, w = w1 ++ w2 ∧ lang a w1 ∧ lang b w2.
Proof. inversion 1; subst. eauto. Qed.

Lemma lang_opt_inv a w : lang (Opt a) w → w = [] ∨ lang a w.
Proof. inversion 1; subst; auto. Qed.

Lemma lang_named_inv name a w : lang (Named name a) w → lang a w.
Proof. by inversion 1. Qed.

Lemma lang_star_inv k w : lang (Star k) w → forallb (in_class k) w = true.
Proof. by inversion 1. Qed.

Lemma lang_bol_inv w : lang Bol w → w = [].
Proof. by inversion 1. Qed.

Lemma lang_eol_inv w : lang Eol w → w = [].
Proof. by inversion 1. Qed.

(** *** Texts without letters *)

Lemma forallb_impl (P Q : ascii → bool) w :
  (∀ c, P c = true → Q c = true) → forallb P w = true → forallb Q w = true.
Proof.
  intros HPQ Hw. apply forallb_forall. intros c Hc.
  rewrite forallb_forall in Hw. auto.
Qed.

Lemma count_or_gap_not_lower c : count_or_gap c = true → not_lower c = true.
Proof.
  unfold count_or_gap, not_lower. destruct (is_lower c) eqn:E; [|done].
  cbn. by rewrite (lower_not_digit _ E), (lower_is_word _ E).
Qed.

Lemma nonword_not_lower c : in_class NonWord c = true → not_lower c = true.
Proof.
  intros H. apply count_or_gap_not_lower. unfold count_or_gap.
  rewrite H. apply orb_true_r.
Qed.

Lemma lang_number_not_lower n :
  lang number n → n ≠ [] ∧ forallb not_lower n = true.
Proof.
  intros Hn. split.
  - intros ->. by pose proof (lang_number_digit _ Hn).
  - eapply forallb_impl; [apply count_or_gap_not_lower|].
    by apply lang_number_chars.
Qed.

Lemma filler_not_lower f : filler f → forallb not_lower f = true.
Proof. apply forallb_impl, nonword_not_lower. Qed.

(** *** The parts of the flexible pattern *)

Ltac unit_words :=
  let H := fresh in
  intros x H; inv_lang; cbn [app]; eexists; by repeat split.

Lemma unit_weeks_word : unit_word unit_weeks "w".
Proof. unfold unit_weeks. cbn [Lit]. unit_words. Qed.

Lemma unit_days_word : unit_word unit_days "d".
Proof. unfold unit_days. cbn [Lit]. unit_words. Qed.

Lemma unit_hours_word : unit_word unit_hours "h".
Proof. unfold unit_hours. cbn [Lit]. unit_words. Qed.

Lemma unit_minutes_word : unit_word unit_minutes "m".
Proof. unfold unit_minutes. cbn [Lit]. unit_words. Qed.

Lemma unit_seconds_word : unit_word unit_seconds "s".
Proof. unfold unit_seconds. cbn [Lit]. unit_words. Qed.

Lemma lang_counted name U l w :
  unit_word U l → lang (Named name number ⋅ Star NonWord ⋅ U) w →
  ∃ n x, w = n ++ l :: x ∧ n ≠ [] ∧ forallb not_lower n = true
         ∧ is_lower l = true ∧ forallb is_lower x = true.
Proof.
  intros HU (n & w' & -> & Hn%lang_named_inv & Hw')%lang_cat_inv.
  apply lang_cat_inv in Hw' as (f & u & -> & Hf%lang_star_inv & Hu).
  destruct (HU _ Hu) as (x & -> & Hl & Hx).
  destruct (lang_number_not_lower _ Hn) as [Hne Hnl].
  exists (n ++ f), x. rewrite <-app_assoc. split; [done|].
  split; [by destruct n|].
  rewrite forallb_app, Hnl, (filler_not_lower f Hf). done.
Qed.

Lemma lang_component_part name U l w :
  unit_word U l → lang (component name U) w → part l w.
Proof.
  intros HU [->|Hw]%lang_opt_inv; [by left|]. right.
  assert (lang ((Named name number ⋅ Star NonWord ⋅ U)
                ⋅ Opt (Chr ",") ⋅ Star NonWord) w) as Hw'.
  { inversion Hw as [| | | | |? ? wn w1 Hnum H1| | | | | | |]; subst.
    inversion H1 as [| | | | |? ? wf w2 Hfil H2| | | | | | |]; subst.
    inversion H2 as [| | | | |? ? wu w3 Hun H3| | | | | | |]; subst.
    rewrite !app_assoc, <-(app_assoc wn wf wu).
    apply lang_cat; [|done]. apply lang_cat; [done|]. by apply lang_cat. }
  apply lang_cat_inv in Hw' as (c & g & -> & Hc & Hg).
  destruct (lang_counted _ _ _ _ HU Hc) as (n & x & -> & Hne & Hn & Hl & Hx).
  exists n, x, g. rewrite <-!app_assoc. repeat (split; [done|]).
  apply lang_cat_inv in Hg as (g1 & g2 & -> & Hg1 & Hg2%lang_star_inv).
  unfold filler. rewrite forallb_app, Hg2, andb_true_r.
  apply lang_opt_inv in Hg1 as [->|Hg1]; [done|]. by inversion Hg1.
Qed.

Lemma lang_last_part name U l w :
  unit_word U l →
  lang (Opt (Named name number ⋅ Star NonWord ⋅ U)) w → part l w.
Proof.
  intros HU [->|Hw]%lang_opt_inv; [by left|]. right.
  destruct (lang_counted _ _ _ _ HU Hw) as (n & x & -> & Hne & Hn & Hl & Hx).
  exists n, x, []. by rewrite app_nil_r.
Qed.

(** *** The first letters of the words *)

Lemma word_starts_not_lower b w t :
  w ≠ [] → forallb not_lower w = true →
  word_starts b (w ++ t) = word_starts false t.
Proof.
  revert b. induction w as [|c w IH]; intros b; [done|]. intros _.
  cbn [forallb app word_starts]. unfold not_lower at 1.
  intros [Hc Hw]%andb_prop. apply negb_true_iff in Hc. rewrite Hc.
  destruct w as [|c' w]; [done|]. by apply IH.
Qed.

Lemma word_starts_no_start b t :
  starts_with is_lower t = false → word_starts b t = word_starts false t.
Proof. destruct t as [|c t]; [done|]. cbn. by intros ->. Qed.

Lemma word_starts_lower x t :
  forallb is_lower x = true →
  starts_with is_lower t = false →
  word_starts true (x ++ t) = word_starts false t.
Proof.
  intros Hx Ht. induction x as [|c x IH]; cbn [app].
  - by apply word_starts_no_start.
  - cbn in *. apply andb_prop in Hx as [-> Hx]. auto.
Qed.

Lemma not_lower_start w t :
  forallb not_lower w = true → starts_with is_lower t = false →
  starts_with is_lower (w ++ t) = false.
Proof.
  destruct w as [|c w]; [done|]. cbn. unfold not_lower at 1.
  by intros [->%negb_true_iff _]%andb_prop.
Qed.

Lemma not_lower_first w t :
  w ≠ [] → forallb not_lower w = true →
  starts_with is_lower (w ++ t) = false.
Proof.
  destruct w as [|c w]; [done|]. cbn. unfold not_lower at 1.
  by intros _ [->%negb_true_iff _]%andb_prop.
Qed.

Lemma part_starts l w t :
  part l w → starts_with is_lower t = false →
  starts_with is_lower (w ++ t) = false
  ∧ ∀ b, word_starts b (w ++ t) = part_letter l w ++ word_starts false t.
Proof.
  intros [->|(n & x & g & -> & Hne & Hn & Hl & Hx & Hg)] Ht.
  - split; [done|]. intros b. by apply word_starts_no_start.
  - split.
    + rewrite <-app_assoc. by apply not_lower_first.
    + intros b. unfold part_letter.
      rewrite bool_decide_eq_false_2 by by destruct n.
      rewrite <-!app_assoc, word_starts_not_lower by done.
      cbn [app word_starts]. rewrite Hl. cbn [app]. f_equal.
      apply filler_not_lower in Hg.
      rewrite word_starts_lower; [|done|by apply not_lower_start].
      destruct g as [|c g]; [done|]. by apply word_starts_not_lower.
Qed.

(** The first letters of the words of a text of the flexible pattern are
    the letters of the parts that are there, in the order of the pattern. *)
Lemma lang_flex_initials w e :
  lang flex_pattern w → e = [] ∨ e = [newline] →
  in_order (initials (w ++ e)) unit_initials = true.
Proof.
  unfold flex_pattern.
  intros (w0 & r0 & -> & ->%lang_bol_inv & Hw)%lang_cat_inv He.
  apply lang_cat_inv in Hw as (c1 & r1 & -> & H1 & Hw).
  apply lang_cat_inv in Hw as (c2 & r2 & -> & H2 & Hw).
  apply lang_cat_inv in Hw as (c3 & r3 & -> & H3 & Hw).
  apply lang_cat_inv in Hw as (c4 & r4 & -> & H4 & Hw).
  apply lang_cat_inv in Hw as (c5 & r5 & -> & H5 & Hw).
  apply lang_cat_inv in Hw as (t & r6 & -> & Ht%lang_star_inv
                               & ->%lang_eol_inv).
  apply (lang_component_part _ _ _ _ unit_weeks_word) in H1.
  apply (lang_component_part _ _ _ _ unit_days_word) in H2.
  apply (lang_component_part _ _ _ _ unit_hours_word) in H3.
  apply (lang_component_part _ _ _ _ unit_minutes_word) in H4.
  apply (lang_last_part _ _ _ _ unit_seconds_word) in H5.
  cbn [app]. rewrite app_nil_r, <-!app_assoc.
  assert (forallb not_lower (t ++ e) = true) as Hte.
  { rewrite forallb_app, (filler_not_lower t Ht).
    by destruct He as [-> | ->]. }
  assert (starts_with is_lower (t ++ e) = false) as S6.
  { rewrite <-(app_nil_r (t ++ e)). by apply not_lower_start. }
  assert (initials (t ++ e) = []) as I6.
  { unfold initials. destruct (t ++ e) as [|c l] eqn:E; [done|].
    rewrite <-(app_nil_r (c :: l)). by rewrite word_starts_not_lower. }
  destruct (part_starts _ _ _ H5 S6) as [S5 I5].
  destruct (part_starts _ _ _ H4 S5) as [S4 I4].
  destruct (part_starts _ _ _ H3 S4) as [S3 I3].
  destruct (part_starts _ _ _ H2 S3) as [S2 I2].
  destruct (part_starts _ _ _ H1 S2) as [_ I1].
  unfold initials in *. rewrite I1, I2, I3, I4, I5, I6.
  unfold part_letter. by repeat case_bool_decide.
Qed.

(** *** The database pattern *)

Lemma digits_not_lower_all ds :
  forallb is_digit ds = true → forallb not_lower ds = true.
Proof.
  apply forallb_impl. intros c Hc. unfold not_lower.
  destruct (is_lower c) eqn:E; [|done]. by rewrite (lower_not_digit _ E) in Hc.
Qed.

Lemma sign_not_lower sg : sign_text sg → forallb not_lower sg = true.
Proof. by intros [->|[->| ->]]. Qed.

(** The day count of the database pattern is a part for the letter [d]. *)
Lemma lang_days_part w :
  lang (Named "days" (Opt (OneOf ["-"; "+"]%char) ⋅ Plus Digit)
        ⋅ Lit " day" ⋅ Opt (Chr "s") ⋅ Opt (Chr ",") ⋅ Chr " ") w →
  part "d" w.
Proof.
  intros (n & r1 & -> & Hn%lang_named_inv & Hw)%lang_cat_inv.
  apply lang_cat_inv in Hn as (sg & ds & -> & Hsg%lang_sign & Hds%lang_digits).
  apply lang_cat_inv in Hw as (day & r2 & -> & Hday & Hw).
  apply lang_cat_inv in Hw as (pl & r3 & -> & Hpl%lang_opt_inv & Hw).
  apply lang_cat_inv in Hw as (cm & sp & -> & Hcm%lang_opt_inv & Hsp).
  cbn [Lit] in Hday. inv_lang. cbn [app].
  right. exists ((sg ++ ds) ++ [" "%char]), ("a"%char :: "y"%char :: pl), (cm ++ [" "%char]).
  destruct Hds as [Hne Hds].
  split; [by rewrite <-!app_assoc|]. split; [by destruct sg, ds|].
  rewrite !forallb_app, (sign_not_lower _ Hsg), (digits_not_lower_all _ Hds).
  split; [done|]. split; [done|].
  split.
  - destruct Hpl as [->|Hpl]; [done|]. by inversion Hpl.
  - unfold filler. destruct Hcm as [->|Hcm]; [done|]. by inversion Hcm.
Qed.

(** The clock time of the database pattern has no letter. *)
Lemma lang_clock_not_lower w :
  lang (Named "sign" (Opt (OneOf ["-"; "+"]%char))
        ⋅ Named "hours" (Plus Digit) ⋅ Chr ":"
        ⋅ Named "minutes" (Plus Digit)
        ⋅ Opt (Chr ":" ⋅ Named "seconds"
                           (Plus Digit ⋅ Opt (Chr "." ⋅ Plus Digit)))
        ⋅ Eol) w →
  forallb not_lower w = true.
Proof.
  intros Hw. apply forallb_forall. intros c Hc%list_elem_of_In.
  pose proof (lang_may_consume _ _ _ Hw Hc) as H.
  unfold not_lower. destruct (is_lower c) eqn:E; [|done]. exfalso.
  cbn [may_consume in_class] in H. rewrite (lower_not_digit _ E) in H.
  assert (∀ x, is_lower x = false → bool_decide (c = x) = false) as Hx.
  { intros x Hlow. apply bool_decide_eq_false. intros ->. congruence. }
  rewrite !Hx in H by done.
  rewrite bool_decide_eq_false_2 in H; [done|].
  intros [->|[->|[]%elem_of_nil]%elem_of_cons]%elem_of_cons; done.
Qed.

Lemma lang_db_initials w e :
  lang db_pattern w → e = [] ∨ e = [newline] →
  in_order (initials (w ++ e)) unit_initials = true.
Proof.
  unfold db_pattern.
  intros (w0 & r0 & -> & ->%lang_bol_inv & Hw)%lang_cat_inv He.
  apply lang_cat_inv in Hw as (dd & cl & -> & Hdd%lang_opt_inv & Hcl).
  apply lang_clock_not_lower in Hcl.
  assert (part "d" dd) as Hpart.
  { destruct Hdd as [->|Hdd]; [by left|by apply lang_days_part]. }
  assert (forallb not_lower (cl ++ e) = true) as Hce.
  { rewrite forallb_app, Hcl. by destruct He as [-> | ->]. }
  assert (starts_with is_lower (cl ++ e) = false) as Hst.
  { rewrite <-(app_nil_r (cl ++ e)). by apply not_lower_start. }
  assert (initials (cl ++ e) = []) as Hin.
  { unfold initials. destruct (cl ++ e) as [|c l] eqn:E; [done|].
    rewrite <-(app_nil_r (c :: l)). by rewrite word_starts_not_lower. }
  cbn [app]. rewrite <-app_assoc.
  destruct (part_starts _ _ _ Hpart Hst) as [_ Hdays].
  unfold initials in *. rewrite Hdays, Hin.
  unfold part_letter. by case_bool_decide.
Qed.

(** X10.  The words of an interval start with the letters w, d, h, m and s,
    each at most once and in this order: an input in which the first letters
    of the words are not these letters in this order, with some left out, is
    an invalid interval.  So it is when the units are in another order, when a
    unit comes twice or when a word is not a unit word. *)
Theorem parse_unit_order (s : string) :
  in_order (initials (text_type s)) unit_initials = false →
  parse s = Raise (invalid_interval s).
Proof.
  intros Hs. apply parse_unmatched.
  - destruct (re_match db_pattern (text_type s)) as [m|] eqn:Hm; [|done].
    apply re_match_lang in Hm as (w & e & Hw & Hl & He); [|done].
    rewrite Hw, lang_db_initials in Hs; done.
  - destruct (re_match flex_pattern (text_type s)) as [m|] eqn:Hm; [|done].
    apply re_match_lang in Hm as (w & e & Hw & Hl & He); [|done].
    rewrite Hw, lang_flex_initials in Hs; done.
Qed.

Lemma parse_unit_order_witness :
  parse "1 hour, 2 days" = Raise (invalid_interval "1 hour, 2 days").
Proof. exact (parse_unit_order "1 hour, 2 days" eq_refl). Defined.

(** ** The two patterns have no text in common *)

Lemma ends_in_letter_app b a t :
  ends_in_letter b (a ++ t) = ends_in_letter (ends_in_letter b a) t.
Proof.
  revert b. induction a as [|c a IH]; intros b; cbn; [done|].
  by destruct (is_digit c), (is_lower c).
Qed.

Lemma ends_in_letter_filler b g : filler g → ends_in_letter b g = b.
Proof.
  unfold filler. induction g as [|c g IH]; cbn; [done|].
  intros [Hc Hg]%andb_prop. rewrite (nonword_not_digit _ Hc).
  pose proof (nonword_not_lower _ Hc) as Hl. unfold not_lower in Hl.
  apply negb_true_iff in Hl. rewrite Hl. auto.
Qed.

Lemma ends_in_letter_lower b x :
  x ≠ [] → forallb is_lower x = true → ends_in_letter b x = true.
Proof.
  revert b. induction x as [|c x IH]; intros b; [done|]. intros _.
  cbn. intros [Hc Hx]%andb_prop. rewrite (lower_not_digit _ Hc), Hc.
  destruct x as [|c' x]; [done|]. by apply IH.
Qed.

Lemma ends_in_letter_digits b t :
  forallb not_lower t = true → existsb is_digit t = true →
  ends_in_letter b t = false.
Proof.
  revert b. induction t as [|c t IH]; intros b; [done|]. cbn.
  intros [Hc Ht]%andb_prop Hd. unfold not_lower in Hc.
  apply negb_true_iff in Hc. rewrite Hc.
  destruct (is_digit c); cbn in Hd.
  - destruct (existsb is_digit t) eqn:E; [by apply IH|].
    clear IH Hd. induction t as [|c' t IH]; [done|]. cbn in *.
    apply andb_prop in Ht as [Hc' Ht]. unfold not_lower in Hc'.
    apply negb_true_iff in Hc'. apply orb_false_elim in E as [-> E].
    rewrite Hc'. auto.
  - by apply IH.
Qed.

(** A part that is there ends in a letter, and a part that is not there
    has no digit. *)
Lemma part_ends l w b :
  part l w →
  ends_in_letter b w = (if bool_decide (w = []) then b else true)
  ∧ (w = [] → existsb is_digit w = false).
Proof.
  intros [->|(n & x & g & -> & Hne & Hn & Hl & Hx & Hg)]; [done|].
  split; [|by destruct n].
  rewrite bool_decide_eq_false_2 by by destruct n.
  rewrite !ends_in_letter_app, (ends_in_letter_filler _ g Hg).
  apply ends_in_letter_lower; [done|]. cbn. by rewrite Hl.
Qed.

Lemma filler_no_digits g : filler g → existsb is_digit g = false.
Proof.
  unfold filler. induction g as [|c g IH]; cbn; [done|].
  intros [Hc Hg]%andb_prop. by rewrite (nonword_not_digit _ Hc), IH.
Qed.

Lemma end_filler e : e = [] ∨ e = [newline] → filler e.
Proof. by intros [-> | ->]. Qed.

(** A text of the flexible pattern that holds a digit ends in a letter. *)
Lemma lang_flex_ends w e :
  lang flex_pattern w → e = [] ∨ e = [newline] →
  existsb is_digit (w ++ e) = true →
  ends_in_letter false (w ++ e) = true.
Proof.
  unfold flex_pattern.
  intros (w0 & r0 & -> & ->%lang_bol_inv & Hw)%lang_cat_inv He.
  apply lang_cat_inv in Hw as (c1 & r1 & -> & H1 & Hw).
  apply lang_cat_inv in Hw as (c2 & r2 & -> & H2 & Hw).
  apply lang_cat_inv in Hw as (c3 & r3 & -> & H3 & Hw).
  apply lang_cat_inv in Hw as (c4 & r4 & -> & H4 & Hw).
  apply lang_cat_inv in Hw as (c5 & r5 & -> & H5 & Hw).
  apply lang_cat_inv in Hw as (t & r6 & -> & Ht%lang_star_inv
                               & ->%lang_eol_inv).
  apply (lang_component_part _ _ _ _ unit_weeks_word) in H1.
  apply (lang_component_part _ _ _ _ unit_days_word) in H2.
  apply (lang_component_part _ _ _ _ unit_hours_word) in H3.
  apply (lang_component_part _ _ _ _ unit_minutes_word) in H4.
  apply (lang_last_part _ _ _ _ unit_seconds_word) in H5.
  cbn [app]. rewrite app_nil_r, <-!app_assoc.
  rewrite !existsb_app, !ends_in_letter_app.
  rewrite (filler_no_digits t Ht), (filler_no_digits e (end_filler e He)).
  rewrite (ends_in_letter_filler _ e (end_filler e He)),
    (ends_in_letter_filler _ t Ht).
  pose proof (λ b, part_ends _ _ b H1) as P1.
  pose proof (λ b, part_ends _ _ b H2) as P2.
  pose proof (λ b, part_ends _ _ b H3) as P3.
  pose proof (λ b, part_ends _ _ b H4) as P4.
  pose proof (λ b, part_ends _ _ b H5) as P5.
  rewrite (proj1 (P1 _)), (proj1 (P2 _)), (proj1 (P3 _)), (proj1 (P4 _)),
    (proj1 (P5 _)).
  pose proof (proj2 (P1 false)) as D1. pose proof (proj2 (P2 false)) as D2.
  pose proof (proj2 (P3 false)) as D3. pose proof (proj2 (P4 false)) as D4.
  pose proof (proj2 (P5 false)) as D5.
  repeat case_bool_decide; try done.
  rewrite D1, D2, D3, D4, D5 by done. done.
Qed.

Lemma lang_clock_digit w :
  lang (Named "sign" (Opt (OneOf ["-"; "+"]%char))
        ⋅ Named "hours" (Plus Digit) ⋅ Chr ":"
        ⋅ Named "minutes" (Plus Digit)
        ⋅ Opt (Chr ":" ⋅ Named "seconds"
                           (Plus Digit ⋅ Opt (Chr "." ⋅ Plus Digit)))
        ⋅ Eol) w →
  existsb is_digit w = true.
Proof. intros H. inv_lang; find_digit. Qed.

(** A text of the database pattern ends in a digit. *)
Lemma lang_db_ends w e :
  lang db_pattern w → e = [] ∨ e = [newline] →
  ends_in_letter false (w ++ e) = false.
Proof.
  unfold db_pattern.
  intros (w0 & r0 & -> & ->%lang_bol_inv & Hw)%lang_cat_inv He.
  apply lang_cat_inv in Hw as (dd & cl & -> & _ & Hcl).
  cbn [app]. rewrite <-app_assoc, !ends_in_letter_app.
  rewrite (ends_in_letter_filler _ e (end_filler e He)).
  apply ends_in_letter_digits;
    [by apply lang_clock_not_lower|by apply lang_clock_digit].
Qed.

(** X15.  No input matches both patterns: the database pattern, which [parse]
    tries first, never takes an input that the flexible pattern would read. *)
Theorem patterns_disjoint (s : chars) :
  re_match db_pattern s = None ∨ re_match flex_pattern s = None.
Proof.
  destruct (re_match db_pattern s) as [m1|] eqn:Hdb; [|by left].
  destruct (re_match flex_pattern s) as [m2|] eqn:Hflex; [|by right].
  exfalso.
  apply re_match_lang in Hdb as (w1 & e1 & -> & Hl1 & He1); [|done].
  apply re_match_lang in Hflex as (w2 & e2 & Hw & Hl2 & He2); [|done].
  pose proof (lang_db_ends _ _ Hl1 He1) as Hends.
  rewrite Hw, lang_flex_ends in Hends; [done..|].
  rewrite <-Hw, existsb_app. by rewrite (lang_db_digit _ Hl1).
Qed.
